(** * Wavee SMS assistant: dispatch, session, ledger, rate limiter, classifier

    A shallow embedding of the decision logic of the Wavee repository
    (TypeScript) and the properties of its specification that concern it.

    Conventions of the embedding.
    - A JavaScript string is the list of its UTF-16 code units ([list N]).
    - JavaScript numbers that hold counters, credits and millisecond
      timestamps are integers ([Z]); coordinates parsed from decimal text are
      exact rationals ([Q]), the rounding of [parseFloat] to a double is not
      modelled.
    - The PostgreSQL tables are values of a record [Db]; each service method
      takes the table state (and, where it reads a clock, the current time in
      milliseconds) and returns its result with the new state. *)

From Stdlib Require Import ZArith NArith QArith Ascii String List Lia.
From stdpp Require Import gmap list.

Local Open Scope Z_scope.

(** ** JavaScript strings *)

Abbreviation jsstring := (list N).

(** [js "abc"] is the JavaScript string with the code units of an ASCII
    literal. *)
Definition js (s : string) : jsstring :=
  (fun a => N_of_ascii a) <$> list_ascii_of_string s.

(** White space and line terminators removed by [String.prototype.trim]. *)
Definition is_js_space (c : N) : bool :=
  bool_decide (c ∈ [9; 10; 11; 12; 13; 32; 160; 5760; 8232; 8233; 8239; 8287;
                    12288; 65279]%N)
  || ((8192 <=? c) && (c <=? 8202))%N.

Fixpoint trimStart (s : jsstring) : jsstring :=
  match s with
  | c :: s' => if is_js_space c then trimStart s' else s
  | [] => []
  end.

Definition trimEnd (s : jsstring) : jsstring := reverse (trimStart (reverse s)).

Definition trim (s : jsstring) : jsstring := trimEnd (trimStart s).

(** Lower-case mapping of one code unit: ASCII and Latin-1 letters; the case
    pairs above U+00FF are outside the model. *)
Definition lower_unit (c : N) : N :=
  if ((65 <=? c) && (c <=? 90))%N then (c + 32)%N
  else if ((192 <=? c) && (c <=? 222) && negb (c =? 215))%N then (c + 32)%N
  else c.

Definition toLowerCase (s : jsstring) : jsstring := lower_unit <$> s.

(** Upper-case canonicalisation used by a regular expression with the [i]
    flag, on the same range. *)
Definition upper_unit (c : N) : N :=
  if ((97 <=? c) && (c <=? 122))%N then (c - 32)%N
  else if ((224 <=? c) && (c <=? 254) && negb (c =? 247))%N then (c - 32)%N
  else c.

(** [===] on strings. *)
Definition str_eq (a b : jsstring) : bool := bool_decide (a = b).

(** [haystack.includes(needle)]. *)
Fixpoint startsWith (s p : jsstring) : bool :=
  match p, s with
  | [], _ => true
  | _ :: _, [] => false
  | a :: p', b :: s' => (a =? b)%N && startsWith s' p'
  end.

Fixpoint includes (s p : jsstring) : bool :=
  startsWith s p ||
  match s with
  | [] => false
  | _ :: s' => includes s' p
  end.

(** Code units of the non-ASCII letters that occur in the source. *)
Definition a_uml : N := 228.   (* U+00E4 *)
Definition o_uml : N := 246.   (* U+00F6 *)
Definition a_ring : N := 229.  (* U+00E5 *)

(** ** Command classifier (src/utils/text.ts) *)

Definition isYesConfirmation (message : jsstring) : bool :=
  let normalized := toLowerCase (trim message) in
  str_eq normalized (js "yes") || str_eq normalized (js "y")
  || str_eq normalized (js "ja") || str_eq normalized (js "j").

Definition isStopCommand (message : jsstring) : bool :=
  let normalized := toLowerCase (trim message) in
  str_eq normalized (js "stop") || str_eq normalized (js "unsubscribe")
  || str_eq normalized (js "avsluta").

Definition isHelpCommand (message : jsstring) : bool :=
  let normalized := toLowerCase (trim message) in
  str_eq normalized (js "help")
  || str_eq normalized (js "hj" ++ [a_uml] ++ js "lp")
  || str_eq normalized (js "info").

Definition isMoreCommand (message : jsstring) : bool :=
  let normalized := toLowerCase (trim message) in
  str_eq normalized (js "more") || str_eq normalized (js "more info")
  || str_eq normalized (js "tell me more").

Definition var_ar_jag : jsstring := js "var " ++ [a_uml] ++ js "r jag".

Definition isLocationQueryCommand (message : jsstring) : bool :=
  let normalized := toLowerCase (trim message) in
  str_eq normalized (js "where am i")
  || str_eq normalized (js "where am i?")
  || str_eq normalized var_ar_jag
  || str_eq normalized (var_ar_jag ++ js "?")
  || str_eq normalized (js "my location")
  || str_eq normalized (js "min position").

(** [sanitizeInput]: trim, then every run of white space becomes one space
    (the class [\s] of a regular expression is the set removed by [trim]). *)
Fixpoint collapse_spaces (s : jsstring) (in_run : bool) : jsstring :=
  match s with
  | [] => []
  | c :: s' =>
      if is_js_space c
      then (if in_run then collapse_spaces s' true
            else 32%N :: collapse_spaces s' true)
      else c :: collapse_spaces s' false
  end.

Definition sanitizeInput (input : jsstring) : jsstring :=
  collapse_spaces (trim input) false.

(** [normalizePhoneNumber]: keep digits and [+], then put the number in
    E.164 form. *)
Definition normalizePhoneNumber (phone : jsstring) : jsstring :=
  let normalized :=
    filter (fun c => ((48 <=? c) && (c <=? 57))%N = true ∨ c = 43%N) phone in
  if startsWith normalized (js "+") then normalized
  else if (length normalized =? 10)%nat then js "+1" ++ normalized
  else if (length normalized =? 11)%nat && startsWith normalized (js "1")
  then js "+" ++ normalized
  else js "+" ++ normalized.

(** ** Rate limiter (src/services/rateLimiter.ts) *)

Inductive Window := minute | hour | day.

#[global] Instance Window_eq_dec : EqDecision Window.
Proof. solve_decision. Defined.

Record RateLimitEntry := { count : Z; resetAt : Z }.

Record RateLimiter := {
  limits : gmap (list N) RateLimitEntry;
  maxPerMinute : Z;
  maxPerHour : Z;
  maxPerDay : Z
}.

(** [new RateLimiter(maxPerMinute, maxPerHour, maxPerDay)], defaults 5, 30,
    200. *)
Definition newRateLimiter (perMinute perHour perDay : Z) : RateLimiter :=
  {| limits := ∅; maxPerMinute := perMinute; maxPerHour := perHour;
     maxPerDay := perDay |}.

Definition window_name (w : Window) : jsstring :=
  match w with
  | minute => js "minute"
  | hour => js "hour"
  | day => js "day"
  end.

(** The map key, the template [`${phoneNumber}:${window}`]. *)
Definition limit_key (phoneNumber : jsstring) (w : Window) : jsstring :=
  phoneNumber ++ js ":" ++ window_name w.

Definition getWindowDuration (w : Window) : Z :=
  match w with
  | minute => 60 * 1000
  | hour => 60 * 60 * 1000
  | day => 24 * 60 * 60 * 1000
  end.

Definition getMaxLimit (rl : RateLimiter) (w : Window) : Z :=
  match w with
  | minute => maxPerMinute rl
  | hour => maxPerHour rl
  | day => maxPerDay rl
  end.

Definition set_limits (rl : RateLimiter) (m : gmap (list N) RateLimitEntry)
  : RateLimiter :=
  {| limits := m; maxPerMinute := maxPerMinute rl;
     maxPerHour := maxPerHour rl; maxPerDay := maxPerDay rl |}.

(** [isAllowed(phoneNumber, window)] at time [now = Date.now()]: the answer
    and the limiter after the call. *)
Definition isAllowed (rl : RateLimiter) (phoneNumber : jsstring) (w : Window)
    (now : Z) : bool * RateLimiter :=
  let key := limit_key phoneNumber w in
  let windowDuration := getWindowDuration w in
  let maxLimit := getMaxLimit rl w in
  let fresh :=
    (true, set_limits rl (<[key := {| count := 1;
                                      resetAt := now + windowDuration |}]>
                            (limits rl))) in
  match limits rl !! key with
  | None => fresh
  | Some entry =>
      if resetAt entry <? now then fresh
      else if maxLimit <=? count entry then (false, rl)
      else (true, set_limits rl (<[key := {| count := count entry + 1;
                                             resetAt := resetAt entry |}]>
                                   (limits rl)))
  end.

(** The result of [checkLimits]: [reason] is the window named by the Swedish
    limit text together with the maximum printed in it. *)
Record LimitResult := {
  allowed : bool;
  reason : option (Window * Z)
}.

Definition checkLimits (rl : RateLimiter) (phoneNumber : jsstring) (now : Z)
  : LimitResult * RateLimiter :=
  let '(ok1, rl1) := isAllowed rl phoneNumber minute now in
  if negb ok1
  then ({| allowed := false; reason := Some (minute, maxPerMinute rl1) |}, rl1)
  else
    let '(ok2, rl2) := isAllowed rl1 phoneNumber hour now in
    if negb ok2
    then ({| allowed := false; reason := Some (hour, maxPerHour rl2) |}, rl2)
    else
      let '(ok3, rl3) := isAllowed rl2 phoneNumber day now in
      if negb ok3
      then ({| allowed := false; reason := Some (day, maxPerDay rl3) |}, rl3)
      else ({| allowed := true; reason := None |}, rl3).

(** [getUsage]: the live count of one window, 0 when the entry is absent or
    its reset time has passed. *)
Definition getCount (rl : RateLimiter) (phoneNumber : jsstring) (w : Window)
    (now : Z) : Z :=
  match limits rl !! limit_key phoneNumber w with
  | Some entry => if now <=? resetAt entry then count entry else 0
  | None => 0
  end.

(** [cleanup]: the periodic sweep drops the entries whose reset time has
    passed. *)
Definition cleanup (rl : RateLimiter) (now : Z) : RateLimiter :=
  set_limits rl (filter (fun kv => ¬ (resetAt kv.2 < now)) (limits rl)).

(** ** Tables (src/db/database.ts)

    Only the columns read or written by the modelled services are kept. A
    JSON text column is kept as the value it encodes: [messages] as the array
    of strings, [last_location] as the fix, [selected_categories] as the
    array of category ids ([None] for NULL, empty or unparsable text). *)

Inductive Status := pending | active | inactive.

Inductive Lang := sv | en.

#[global] Instance Lang_eq_dec : EqDecision Lang.
Proof. solve_decision. Defined.

Inductive TxType := purchase | usage | refund.

Record User := {
  status : Status;
  credits_remaining : Z;
  selected_categories : option (list (list N));
  language : option Lang;
  twilio_number : option (list N);
  active_agent_id : option Z;
  consent_timestamp : option Z;
  user_created_at : Z;
  user_updated_at : Z
}.

Record LocationFix := { fix_lat : Q; fix_lon : Q; fix_timestamp : Z }.

Record Session := {
  id : Z;
  phone_number : list N;
  messages : list (list N);
  last_ai_response : option (list N);
  last_location : option LocationFix;
  created_at : Z;
  updated_at : Z
}.

Record Transaction := {
  tx_phone_number : list N;
  tx_type : TxType;
  credits_delta : Z;
  description : option (list N);
  stripe_payment_id : option (list N);
  tx_created_at : Z
}.

Record CustomAgent := {
  agent_phone_number : list N;
  agent_name : list N;
  system_prompt : list N;
  agent_active : bool
}.

(** [users] is keyed by its primary key [phone_number]; [sessions] and
    [transactions] are the rows in insertion order, [next_session_id] is the
    SERIAL counter of [sessions.id]; [custom_agents] is keyed by its id. *)
Record Db := {
  users : gmap (list N) User;
  sessions : list Session;
  next_session_id : Z;
  transactions : list Transaction;
  custom_agents : gmap Z CustomAgent
}.

Definition set_users (d : Db) (u : gmap (list N) User) : Db :=
  {| users := u; sessions := sessions d;
     next_session_id := next_session_id d;
     transactions := transactions d; custom_agents := custom_agents d |}.

Definition set_sessions (d : Db) (s : list Session) : Db :=
  {| users := users d; sessions := s;
     next_session_id := next_session_id d;
     transactions := transactions d; custom_agents := custom_agents d |}.

Definition set_transactions (d : Db) (t : list Transaction) : Db :=
  {| users := users d; sessions := sessions d;
     next_session_id := next_session_id d;
     transactions := t; custom_agents := custom_agents d |}.

(** ** SessionService (sessionService.ts) *)

Definition SESSION_TIMEOUT_MINUTES : Z := 30.
Definition MAX_MESSAGES : nat := 3.

(** [SELECT ... WHERE phone_number = ? ORDER BY updated_at DESC LIMIT 1]:
    the row of the phone number with the greatest [updated_at]. SQL leaves
    the choice among equal timestamps open; the model takes the row inserted
    last. *)
Fixpoint latest_session (rows : list Session) (phoneNumber : jsstring)
  : option Session :=
  match rows with
  | [] => None
  | r :: rows' =>
      match latest_session rows' phoneNumber with
      | Some b =>
          if str_eq (phone_number r) phoneNumber
             && (updated_at b <? updated_at r)
          then Some r else Some b
      | None => if str_eq (phone_number r) phoneNumber then Some r else None
      end
  end.

(** [diffMinutes > SESSION_TIMEOUT_MINUTES], with the times in milliseconds. *)
Definition isSessionExpired (session : Session) (now : Z) : bool :=
  SESSION_TIMEOUT_MINUTES * (1000 * 60) <? now - updated_at session.

Definition getSession (d : Db) (phoneNumber : jsstring) (now : Z)
  : option Session :=
  match latest_session (sessions d) phoneNumber with
  | Some session => if isSessionExpired session now then None else Some session
  | None => None
  end.

Definition createSession (d : Db) (phoneNumber userMessage : jsstring)
    (now : Z) : option Session * Db :=
  let row := {| id := next_session_id d; phone_number := phoneNumber;
                messages := [userMessage]; last_ai_response := None;
                last_location := None; created_at := now;
                updated_at := now |} in
  let d' := {| users := users d; sessions := sessions d ++ [row];
               next_session_id := next_session_id d + 1;
               transactions := transactions d;
               custom_agents := custom_agents d |} in
  (getSession d' phoneNumber now, d').

(** A string is truthy when it is neither [null] nor empty. *)
Definition truthy (s : option jsstring) : option jsstring :=
  match s with
  | Some [] => None
  | _ => s
  end.

(** [messages.slice(-MAX_MESSAGES)]. *)
Definition slice_last (n : nat) (l : list (list N)) : list (list N) :=
  drop (length l - n)%nat l.

(** [UPDATE sessions SET messages, last_ai_response, updated_at WHERE id]. *)
Definition update_session_row (sid : Z) (msgs : list (list N))
    (aiResponse : jsstring) (now : Z) (r : Session) : Session :=
  if id r =? sid
  then {| id := id r; phone_number := phone_number r; messages := msgs;
          last_ai_response := Some aiResponse;
          last_location := last_location r; created_at := created_at r;
          updated_at := now |}
  else r.

Definition updateSession (d : Db) (phoneNumber : jsstring)
    (userMessage : option jsstring) (aiResponse : jsstring) (now : Z) : Db :=
  match getSession d phoneNumber now with
  | None =>
      match truthy userMessage with
      | Some m => (createSession d phoneNumber m now).2
      | None => d
      end
  | Some session =>
      let msgs :=
        match truthy userMessage with
        | Some m =>
            let pushed := messages session ++ [m] in
            if (MAX_MESSAGES <? length pushed)%nat
            then slice_last MAX_MESSAGES pushed else pushed
        | None => messages session
        end in
      set_sessions d
        (update_session_row (id session) msgs aiResponse now <$> sessions d)
  end.

Record Context := {
  ctx_messages : list (list N);
  lastAiResponse : option (list N)
}.

Definition getContext (d : Db) (phoneNumber : jsstring) (now : Z) : Context :=
  match getSession d phoneNumber now with
  | None => {| ctx_messages := []; lastAiResponse := None |}
  | Some session =>
      {| ctx_messages := messages session;
         lastAiResponse := truthy (last_ai_response session) |}
  end.

(** [DELETE FROM sessions WHERE updated_at < cutoff], the cutoff being 30
    minutes before [now]. *)
Definition clearExpiredSessions (d : Db) (now : Z) : Db :=
  set_sessions d
    (filter (fun r => ¬ (updated_at r < now - SESSION_TIMEOUT_MINUTES * 60000))
            (sessions d)).

(** [UPDATE sessions SET last_location = ? WHERE phone_number = ?]. *)
Definition set_location_row (phoneNumber : jsstring) (loc : LocationFix)
    (r : Session) : Session :=
  if str_eq (phone_number r) phoneNumber
  then {| id := id r; phone_number := phone_number r;
          messages := messages r; last_ai_response := last_ai_response r;
          last_location := Some loc; created_at := created_at r;
          updated_at := updated_at r |}
  else r.

Definition saveLocation (d : Db) (phoneNumber : jsstring) (lat lon : Q)
    (now : Z) : Db :=
  let location := {| fix_lat := lat; fix_lon := lon; fix_timestamp := now |} in
  set_sessions d (set_location_row phoneNumber location <$> sessions d).

(** [hoursSinceUpdate > 24], with the times in milliseconds. *)
Definition getLastLocation (d : Db) (phoneNumber : jsstring) (now : Z)
  : option (Q * Q) :=
  match latest_session (sessions d) phoneNumber with
  | None => None
  | Some session =>
      match last_location session with
      | None => None
      | Some location =>
          if 24 * (1000 * 60 * 60) <? now - fix_timestamp location
          then None
          else Some (fix_lat location, fix_lon location)
      end
  end.

(** ** UserService (userService.ts) *)

Definition getUser (d : Db) (phoneNumber : jsstring) : option User :=
  users d !! phoneNumber.

Definition set_credits (u : User) (c : Z) : User :=
  {| status := status u; credits_remaining := c;
     selected_categories := selected_categories u; language := language u;
     twilio_number := twilio_number u; active_agent_id := active_agent_id u;
     consent_timestamp := consent_timestamp u;
     user_created_at := user_created_at u;
     user_updated_at := user_updated_at u |}.

Definition set_status (u : User) (s : Status) : User :=
  {| status := s; credits_remaining := credits_remaining u;
     selected_categories := selected_categories u; language := language u;
     twilio_number := twilio_number u; active_agent_id := active_agent_id u;
     consent_timestamp := consent_timestamp u;
     user_created_at := user_created_at u;
     user_updated_at := user_updated_at u |}.

(** [updated_at = CURRENT_TIMESTAMP], which every [UPDATE users] of the
    service sets; [now] is the time of the statement. *)
Definition touch (now : Z) (u : User) : User :=
  {| status := status u; credits_remaining := credits_remaining u;
     selected_categories := selected_categories u; language := language u;
     twilio_number := twilio_number u; active_agent_id := active_agent_id u;
     consent_timestamp := consent_timestamp u;
     user_created_at := user_created_at u;
     user_updated_at := now |}.

(** An [UPDATE users ... WHERE phone_number = ?] changes the row when there
    is one and nothing otherwise. *)
Definition update_user (d : Db) (phoneNumber : jsstring) (f : User -> User)
  : Db :=
  set_users d (alter f phoneNumber (users d)).

Definition activateUser (d : Db) (phoneNumber : jsstring) (now : Z) : Db :=
  update_user d phoneNumber (fun u => touch now (set_status u active)).

Definition deactivateUser (d : Db) (phoneNumber : jsstring) (now : Z) : Db :=
  update_user d phoneNumber (fun u => touch now (set_status u inactive)).

Definition isUserActive (d : Db) (phoneNumber : jsstring) : bool :=
  match getUser d phoneNumber with
  | Some u => match status u with active => true | _ => false end
  | None => false
  end.

Definition isUserPending (d : Db) (phoneNumber : jsstring) : bool :=
  match getUser d phoneNumber with
  | Some u => match status u with pending => true | _ => false end
  | None => false
  end.

Definition userExists (d : Db) (phoneNumber : jsstring) : bool :=
  match getUser d phoneNumber with Some _ => true | None => false end.

Definition addCredits (d : Db) (phoneNumber : jsstring) (credits : Z)
    (now : Z) : Db :=
  update_user d phoneNumber
    (fun u => touch now (set_credits u (credits_remaining u + credits))).

Definition deductCredits (d : Db) (phoneNumber : jsstring) (credits : Z)
    (now : Z) : bool * Db :=
  match getUser d phoneNumber with
  | None => (false, d)
  | Some user =>
      if credits_remaining user <? credits then (false, d)
      else (true, update_user d phoneNumber
                    (fun u => touch now
                                (set_credits u (credits_remaining u - credits))))
  end.

Definition hasCredits (d : Db) (phoneNumber : jsstring) (required : Z)
  : bool :=
  match getUser d phoneNumber with
  | Some user => required <=? credits_remaining user
  | None => false
  end.

Definition logTransaction (d : Db) (phoneNumber : jsstring) (type : TxType)
    (creditsDelta : Z) (descr : option jsstring)
    (stripePaymentId : option jsstring) (now : Z) : Db :=
  set_transactions d
    (transactions d ++
     [{| tx_phone_number := phoneNumber; tx_type := type;
         credits_delta := creditsDelta; description := truthy descr;
         stripe_payment_id := truthy stripePaymentId;
         tx_created_at := now |}]).

Definition getSelectedCategories (d : Db) (phoneNumber : jsstring)
  : list (list N) :=
  match getUser d phoneNumber with
  | Some {| selected_categories := Some cats |} => cats
  | _ => [js "outdoor"]
  end.

(** [SELECT * FROM custom_agents WHERE id = $1 AND active = $2]. *)
Definition getActiveCustomAgent (d : Db) (phoneNumber : jsstring)
  : option CustomAgent :=
  match getUser d phoneNumber with
  | Some {| active_agent_id := Some aid |} =>
      if aid =? 0 then None
      else match custom_agents d !! aid with
           | Some a => if agent_active a then Some a else None
           | None => None
           end
  | _ => None
  end.

(** ** Regular expressions

    The fragment of ECMAScript regular expressions used by the source, with
    the backtracking semantics of the language: alternatives are tried in
    order, quantifiers are greedy, [match] returns the leftmost match. *)

Inductive regex :=
| RChar (c : N)
| RSet (ranges : list (N * N))
| RAny
| RSpace
| RSeq (a b : regex)
| RAlt (a b : regex)
| RStar (a : regex)
| RGroup (i : nat) (a : regex)
| RBol
| REol
| REmpty.

Definition ROpt (a : regex) : regex := RAlt a REmpty.
Definition RPlus (a : regex) : regex := RSeq a (RStar a).

Fixpoint rseq (l : list regex) : regex :=
  match l with
  | [] => REmpty
  | [a] => a
  | a :: l' => RSeq a (rseq l')
  end.

Fixpoint ralt (l : list regex) : regex :=
  match l with
  | [] => RSet []
  | [a] => a
  | a :: l' => RAlt a (ralt l')
  end.

(** A literal run of characters. *)
Definition rlit (s : jsstring) : regex := rseq (RChar <$> s).

(** A class listed character by character, such as [[.,]]. *)
Definition rclass (s : jsstring) : regex := RSet ((fun c => (c, c)) <$> s).

Definition rdigit : regex := RSet [(48, 57)%N].

Definition in_ranges (ranges : list (N * N)) (c : N) : bool :=
  existsb (fun r => (r.1 <=? c) && (c <=? r.2))%N ranges.

(** One character against a literal or a class; with the [i] flag both sides
    are compared in canonical case. *)
Definition char_eq (ci : bool) (a b : N) : bool :=
  if ci then (upper_unit a =? upper_unit b)%N else (a =? b)%N.

Definition set_match (ci : bool) (ranges : list (N * N)) (c : N) : bool :=
  in_ranges ranges c
  || (ci && (in_ranges ranges (upper_unit c) || in_ranges ranges (lower_unit c))).

Definition is_line_terminator (c : N) : bool :=
  bool_decide (c ∈ [10; 13; 8232; 8233]%N).

Definition captures := list (nat * list N).

Definition capture (i : nat) (c : captures) : option jsstring :=
  snd <$> find (fun p => Nat.eqb p.1 i) c.

(** [rmatch ci total r k s c]: match [r] at the front of the rest [s] of a
    text of [total] characters, then continue with [k]; the first success in
    backtracking order. *)
Fixpoint rmatch (ci : bool) (total : nat) (r : regex)
    (k : list N -> captures -> option captures)
    (s : list N) (c : captures) {struct r} : option captures :=
  match r with
  | RChar a =>
      match s with
      | b :: s' => if char_eq ci a b then k s' c else None
      | [] => None
      end
  | RSet ranges =>
      match s with
      | b :: s' => if set_match ci ranges b then k s' c else None
      | [] => None
      end
  | RAny =>
      match s with
      | b :: s' => if is_line_terminator b then None else k s' c
      | [] => None
      end
  | RSpace =>
      match s with
      | b :: s' => if is_js_space b then k s' c else None
      | [] => None
      end
  | RSeq a b => rmatch ci total a (rmatch ci total b k) s c
  | RAlt a b =>
      match rmatch ci total a k s c with
      | Some res => Some res
      | None => rmatch ci total b k s c
      end
  | RStar a =>
      (fix loop (fuel : nat) (s : list N) (c : captures) {struct fuel}
         : option captures :=
         match fuel with
         | O => k s c
         | S fuel' =>
             match rmatch ci total a
                     (fun s' c' =>
                        if (length s' <? length s)%nat
                        then loop fuel' s' c' else None) s c with
             | Some res => Some res
             | None => k s c
             end
         end) (length s) s c
  | RGroup i a =>
      rmatch ci total a
        (fun s' c' => k s' ((i, take (length s - length s') s) :: c')) s c
  | RBol => if (length s =? total)%nat then k s c else None
  | REol => match s with [] => k s c | _ => None end
  | REmpty => k s c
  end.

Fixpoint rsearch (ci : bool) (total : nat) (r : regex) (s : list N)
  : option captures :=
  match rmatch ci total r (fun _ c => Some c) s [] with
  | Some c => Some c
  | None =>
      match s with
      | [] => None
      | _ :: s' => rsearch ci total r s'
      end
  end.

(** [text.match(r)] for a regular expression without the [g] flag. *)
Definition str_match (ci : bool) (r : regex) (text : jsstring)
  : option captures :=
  rsearch ci (length text) r text.

(** [r.test(text)]. *)
Definition regex_test (ci : bool) (r : regex) (text : jsstring) : bool :=
  match str_match ci r text with Some _ => true | None => false end.

(** [s.replace(a, b)] with one-character strings: the first occurrence. *)
Fixpoint replace_first (a b : N) (s : jsstring) : jsstring :=
  match s with
  | [] => []
  | c :: s' => if (c =? a)%N then b :: s' else c :: replace_first a b s'
  end.

(** ** Numbers read from text *)

Fixpoint read_digits (s : jsstring) (acc : Z) (n : nat) : Z * nat * jsstring :=
  match s with
  | c :: s' =>
      if ((48 <=? c) && (c <=? 57))%N
      then read_digits s' (acc * 10 + Z.of_N (c - 48)) (S n)
      else (acc, n, s)
  | [] => (acc, n, s)
  end.

(** [parseFloat] on decimal text without exponent: optional white space and
    sign, digits, optional fraction. [None] is [NaN]. *)
Definition parseFloat (s : jsstring) : option Q :=
  let s0 := trimStart s in
  let '(sign, s1) :=
    match s0 with
    | 45%N :: t => (-1, t)
    | 43%N :: t => (1, t)
    | _ => (1, s0)
    end in
  let '(ip, n1, s2) := read_digits s1 0 0 in
  let '(fp, n2) :=
    match s2 with
    | 46%N :: t => let '(v, n, _) := read_digits t ip 0 in (v, n)
    | _ => (ip, O)
    end in
  if (n1 + n2 =? 0)%nat then None
  else Some (Qmake (sign * fp) (Z.to_pos (10 ^ Z.of_nat n2))).

(** The value of a hexadecimal digit. *)
Definition hex_digit (c : N) : option Z :=
  if ((48 <=? c) && (c <=? 57))%N then Some (Z.of_N (c - 48))
  else if ((97 <=? c) && (c <=? 102))%N then Some (Z.of_N (c - 87))
  else if ((65 <=? c) && (c <=? 70))%N then Some (Z.of_N (c - 55))
  else None.

Fixpoint read_hex_digits (s : jsstring) (acc : Z) (n : nat) : Z * nat :=
  match s with
  | c :: s' =>
      match hex_digit c with
      | Some v => read_hex_digits s' (acc * 16 + v) (S n)
      | None => (acc, n)
      end
  | [] => (acc, n)
  end.

(** [parseInt(text)] without radix: optional white space and sign, then
    hexadecimal digits after a prefix [0x] or [0X] and decimal digits
    otherwise; the rest of the text is ignored. [None] is [NaN]. The value
    is the exact integer. *)
Definition parseInt (s : jsstring) : option Z :=
  let s0 := trimStart s in
  let '(sign, s1) :=
    match s0 with
    | 45%N :: t => (-1, t)
    | 43%N :: t => (1, t)
    | _ => (1, s0)
    end in
  match s1 with
  | 48%N :: x :: t =>
      if ((x =? 120) || (x =? 88))%N
      then let '(v, n) := read_hex_digits t 0 0 in
           if (n =? 0)%nat then None else Some (sign * v)
      else let '(ip, n1, _) := read_digits s1 0 0 in
           if (n1 =? 0)%nat then None else Some (sign * ip)
  | _ =>
      let '(ip, n1, _) := read_digits s1 0 0 in
      if (n1 =? 0)%nat then None else Some (sign * ip)
  end.

(** ** GPSService (src/services/gpsService.ts) *)

Record Coordinates := { lat : Q; lon : Q }.

Inductive LocationSource := google_maps | apple_maps | raw_coords | plus_code.

Record ParsedLocation := {
  coordinates : Coordinates;
  source : LocationSource;
  originalText : list N
}.

Definition degree_sign : N := 176.  (* U+00B0 *)
Definition O_uml : N := 214.        (* U+00D6 *)

(** The capture [(-?\d+[.,]?\d* )] with group number [i]. *)
Definition rnumber (i : nat) : regex :=
  RGroup i (rseq [ROpt (RChar 45); RPlus rdigit; ROpt (rclass (js ".,"));
                  RStar rdigit]).

(** [/maps\.google\.com.*[?&]q=(-?\d+[.,]?\d* ),(-?\d+[.,]?\d* )/i] *)
Definition google_q_pattern : regex :=
  rseq [rlit (js "maps.google.com"); RStar RAny; rclass (js "?&");
        rlit (js "q="); rnumber 1; RChar 44; rnumber 2].

(** [/google\.com\/maps.*@(-?\d+[.,]?\d* ),(-?\d+[.,]?\d* )/i] *)
Definition google_at_pattern : regex :=
  rseq [rlit (js "google.com/maps"); RStar RAny; RChar 64;
        rnumber 1; RChar 44; rnumber 2].

(** [/maps\.apple\.com.*[?&](?:ll|coordinate)=(-?\d+[.,]?\d* ),(-?\d+[.,]?\d* )/i] *)
Definition apple_pattern : regex :=
  rseq [rlit (js "maps.apple.com"); RStar RAny; rclass (js "?&");
        RAlt (rlit (js "ll")) (rlit (js "coordinate")); RChar 61;
        rnumber 1; RChar 44; rnumber 2].

(** [/^(-?\d+[.,]?\d* )\s*,\s*(-?\d+[.,]?\d* )$/] *)
Definition simple_pattern : regex :=
  rseq [RBol; rnumber 1; RStar RSpace; RChar 44; RStar RSpace; rnumber 2;
        REol].

(** [/(-?\d+[.,]?\d* )°?\s*[NS],?\s*(-?\d+[.,]?\d* )°?\s*[EWÖV]/i] *)
Definition degrees_pattern : regex :=
  rseq [rnumber 1; ROpt (RChar degree_sign); RStar RSpace; rclass (js "NS");
        ROpt (RChar 44); RStar RSpace; rnumber 2; ROpt (RChar degree_sign);
        RStar RSpace; rclass (js "EW" ++ [O_uml] ++ js "V")].

(** [/lat[itude]*\s*:?\s*(-?\d+[.,]?\d* )[,\s]+lon[gitude]*\s*:?\s*(-?\d+[.,]?\d* )/i] *)
Definition latlon_pattern : regex :=
  rseq [rlit (js "lat"); RStar (rclass (js "itude")); RStar RSpace;
        ROpt (RChar 58); RStar RSpace; rnumber 1;
        RPlus (RAlt (RChar 44) RSpace);
        rlit (js "lon"); RStar (rclass (js "gitude")); RStar RSpace;
        ROpt (RChar 58); RStar RSpace; rnumber 2].

Definition coordPatterns : list (bool * regex) :=
  [(false, simple_pattern); (true, degrees_pattern); (true, latlon_pattern)].

Definition isValidCoordinate (lat lon : Q) : bool :=
  Qle_bool (-90) lat && Qle_bool lat 90
  && Qle_bool (-180) lon && Qle_bool lon 180.

(** [parseFloat(match[i].replace(',', '.'))] for the two groups of a match;
    a capture of [rnumber] always holds a digit, so the result is a number. *)
Definition match_coordinates (m : captures) : option (Q * Q) :=
  match capture 1 m, capture 2 m with
  | Some g1, Some g2 =>
      match parseFloat (replace_first 44 46 g1),
            parseFloat (replace_first 44 46 g2) with
      | Some lat, Some lon => Some (lat, lon)
      | _, _ => None
      end
  | _, _ => None
  end.

Definition located (text : jsstring) (src : LocationSource) (ll : Q * Q)
  : ParsedLocation :=
  {| coordinates := {| lat := ll.1; lon := ll.2 |}; source := src;
     originalText := text |}.

(** The loop over [coordPatterns]: the first pattern that matches with
    coordinates in range. *)
Fixpoint parse_raw (text : jsstring) (patterns : list (bool * regex))
  : option ParsedLocation :=
  match patterns with
  | [] => None
  | (ci, pattern) :: rest =>
      match str_match ci pattern text with
      | Some m =>
          match match_coordinates m with
          | Some ll =>
              if isValidCoordinate ll.1 ll.2
              then Some (located text raw_coords ll)
              else parse_raw text rest
          | None => parse_raw text rest
          end
      | None => parse_raw text rest
      end
  end.

Definition first_match (ci : bool) (a b : regex) (text : jsstring)
  : option captures :=
  match str_match ci a text with
  | Some m => Some m
  | None => str_match ci b text
  end.

Definition parseLocation (message : jsstring) : option ParsedLocation :=
  let text := trim message in
  match first_match true google_q_pattern google_at_pattern text with
  | Some googleMatch =>
      located text google_maps <$> match_coordinates googleMatch
  | None =>
      match str_match true apple_pattern text with
      | Some appleMatch =>
          located text apple_maps <$> match_coordinates appleMatch
      | None => parse_raw text coordPatterns
      end
  end.

Definition hasLocation (message : jsstring) : bool :=
  match parseLocation message with Some _ => true | None => false end.

(** ** OpenStreetMapService (src/services/openStreetMapService.ts) *)

Inductive POICategory :=
| gas_station | restaurant | cafe | supermarket | hospital | pharmacy
| hotel | camping | shelter | emergency | parking | atm.

Definition e_acute : N := 233.  (* U+00E9 *)

(** The table [patterns] of [parseCategoryFromQuery], in the order of its
    keys; each key is an alternation of literal words. *)
Definition category_patterns : list (list (list N) * POICategory) :=
  [ ([js "bensin"; js "gas"; js "tanken"; js "fuel"], gas_station);
    ([js "restaurang"; js "restaurant"; js "mat"; js "food";
      [a_uml] ++ js "ta"; js "eat"], restaurant);
    ([js "caf" ++ [e_acute]; js "cafe"; js "kaffe"; js "coffee"], cafe);
    ([js "aff" ++ [a_uml] ++ js "r"; js "butik"; js "supermarket";
      js "mataff" ++ [a_uml] ++ js "r"; js "shop"; js "store"], supermarket);
    ([js "sjukhus"; js "hospital"; js "l" ++ [a_uml] ++ js "kare";
      js "doctor"; js "akuten"; js "emergency room"], hospital);
    ([js "apotek"; js "pharmacy"; js "medicin"; js "medicine"], pharmacy);
    ([js "hotell"; js "hotel"; js "boende"; js "logi"; js "accommodation"],
     hotel);
    ([js "camping"; js "campground"; js "husvagn"; js "caravan"], camping);
    ([js "stuga"; js "skydd"; js "shelter"; js "hut"; js "cabin"], shelter);
    ([js "n" ++ [o_uml] ++ js "d"; js "emergency"; js "sos";
      js "hj" ++ [a_uml] ++ js "lp"; js "help"], emergency);
    ([js "parkering"; js "parking"; js "parkera"], parking);
    ([js "bankomat"; js "atm"; js "kontanter"; js "cash"], atm) ].

Fixpoint first_category (normalized : jsstring)
    (table : list (list (list N) * POICategory)) : option POICategory :=
  match table with
  | [] => None
  | (words, category) :: rest =>
      if regex_test true (ralt (rlit <$> words)) normalized
      then Some category
      else first_category normalized rest
  end.

Definition parseCategoryFromQuery (query : jsstring) : option POICategory :=
  first_category (toLowerCase query) category_patterns.

(** [(\d+)] as group 1. *)
Definition rint : regex := RGroup 1 (RPlus rdigit).

(** The five patterns of [parseRadiusFromQuery]; the flag tells whether the
    source of the pattern contains [mile]. *)
Definition radius_patterns : list (regex * bool) :=
  [ (rseq [rlit (js "inom"); RPlus RSpace; rint; RStar RSpace; rlit (js "km")],
     false);
    (rseq [rlit (js "within"); RPlus RSpace; rint; RStar RSpace;
           rlit (js "km")], false);
    (rseq [rint; RStar RSpace; rlit (js "km"); RPlus RSpace;
           rlit (js "radie")], false);
    (rseq [rint; RStar RSpace; rlit (js "km"); RPlus RSpace;
           rlit (js "radius")], false);
    (rseq [rint; RStar RSpace; rlit (js "mile")], true) ].

Fixpoint first_radius (query : jsstring) (patterns : list (regex * bool))
  : option Q :=
  match patterns with
  | [] => None
  | (pattern, miles) :: rest =>
      match str_match true pattern query with
      | Some m =>
          match capture 1 m ≫= parseInt with
          | Some value =>
              Some (if miles then inject_Z value * (16 # 10)
                    else inject_Z value)%Q
          | None => None
          end
      | None => first_radius query rest
      end
  end.

Definition parseRadiusFromQuery (query : jsstring) : Q :=
  match first_radius query radius_patterns with
  | Some r => r
  | None => 10%Q
  end.

(** ** SMS route (routes/sms.ts)

    The outbound messages are recorded in an outbox. A body that the source
    writes as a fixed or templated text is a constructor of [SmsBody] named
    after it, with the data the template prints; [Text] carries a text
    produced by a collaborator (AI, weather, map search). *)

Inductive SmsBody :=
| Text (s : list N)
| OptInText (l : Lang)
| ActivationText (l : Lang)
| LimitText (w : Window) (max : Z)
| GenericErrorText
    (* Sorry, I encountered an error processing your request. ... *)
| NoPreviousResponseText
    (* No previous response to expand. Please ask a question first. *)
| ExpandErrorText
    (* Sorry, I couldn't expand the previous response. ... *)
| ImageErrorText (l : Lang)
| NoSavedLocationText
| LastPositionText (lat lon : Q)
| StopText (l : Lang)
| HelpText (l : Lang) (credits : Z)
| NoCreditsText (l : Lang) (credits : Z)
| GpsErrorText
    (* Could not process your location. Please try again. *)
| PositionSavedText (l : Lang) (c : Coordinates)
| ShareLocationFirstText (l : Lang) (category : POICategory).

Record Sms := { sms_to : list N; sms_body : SmsBody; sms_language : Lang }.

(** The collaborators behind the route. A call that can reject returns
    [None] for the rejection. [getWeatherByCoordinates] and
    [formatNearestResponse] catch their own failures and always return a
    text. *)
Inductive NearestKind := nearest_cabin | nearest_emergency.

(** A value that reaches the route in a field of the request body. The body
    parsers of the application ([express.json] and [express.urlencoded] with
    [extended: true]) leave any JSON value there and the route does not
    validate it: besides an absent field ([undefined] or [null]) and a
    string, a field can hold a number, a boolean, an array or an object. Of
    such a value the route uses only whether it is truthy and its
    conversion to a string ([None] when the conversion throws); a String
    method called on it throws a [TypeError]. *)
Inductive Field :=
| Missing
| Str (s : list N)
| NonString (is_truthy : bool) (text : option (list N)).

Definition field_truthy (f : Field) : bool :=
  match f with
  | Missing => false
  | Str [] => false
  | Str (_ :: _) => true
  | NonString b _ => b
  end.

(** The receiver of a String method ([phone.replace], [input.trim]):
    [None] is the [TypeError] of a receiver that is not a string. *)
Definition as_string (f : Field) : option (list N) :=
  match f with
  | Str s => Some s
  | _ => None
  end.

(** [String(value)], as [parseInt] applies it to its argument. *)
Definition to_text (f : Field) : option (list N) :=
  match f with
  | Missing => Some (js "undefined")
  | Str s => Some s
  | NonString _ t => t
  end.

Record Services := {
  POISearchResult : Type;
  handleWeatherQuery : list N -> option (option (list N));
  generateResponse :
    list N -> list (list N) -> option (list N) -> list (list N) -> Lang ->
    option (list N);
  generateResponseWithCustomPrompt :
    list N -> list (list N) -> option (list N) -> list N -> Lang ->
    option (list N);
  expandResponse : list N -> list N -> list (list N) -> option (list N);
  analyzeImage : Field -> list N -> list (list N) -> Lang -> option (list N);
  getWeatherByCoordinates : Q -> Q -> Lang -> list N;
  formatNearestResponse : Coordinates -> NearestKind -> Lang -> list N;
  searchNearby : Coordinates -> POICategory -> Q -> option POISearchResult;
  formatSearchResult : POISearchResult -> Lang -> list N
}.

(** The state a request runs in: the tables, the outbox of the SMS gateway
    and the process-wide rate limiter. Database statements and SMS sends are
    taken to succeed. *)
Record World := {
  db : Db;
  outbox : list Sms;
  rateLimiter : RateLimiter
}.

Definition set_db (w : World) (d : Db) : World :=
  {| db := d; outbox := outbox w; rateLimiter := rateLimiter w |}.

(** A computation that may throw: [None] is a thrown exception, the state is
    the one reached when it was thrown. *)
Definition M (A : Type) : Type := World -> option A * World.

Definition ret {A} (a : A) : M A := fun w => (Some a, w).

Definition bind {A B} (m : M A) (k : A -> M B) : M B :=
  fun w => match m w with
           | (Some a, w') => k a w'
           | (None, w') => (None, w')
           end.

Notation "'do' x <- m ; k" := (bind m (fun x => k))
  (at level 10, x name, m at level 100, k at level 200).
Notation "m ;; k" := (bind m (fun _ => k))
  (at level 100, k at level 200, right associativity).

(** [try { m } catch { h }]. *)
Definition try_catch {A} (m h : M A) : M A :=
  fun w => match m w with
           | (Some a, w') => (Some a, w')
           | (None, w') => h w'
           end.

(** A call of a collaborator. *)
Definition call {A} (o : option A) : M A := fun w => (o, w).

Definition read_db {A} (f : Db -> A) : M A := fun w => (Some (f (db w)), w).

Definition write_db (f : Db -> Db) : M unit :=
  fun w => (Some tt, set_db w (f (db w))).

(** [twilioService.sendSMS(to, body, language = 'sv')]. *)
Definition sendSMS (to : jsstring) (body : SmsBody) (l : Lang) : M unit :=
  fun w => (Some tt,
            {| db := db w;
               outbox := outbox w ++
                 [{| sms_to := to; sms_body := body; sms_language := l |}];
               rateLimiter := rateLimiter w |}).

Definition FREE_TRIAL_CREDITS : Z := 3.

(** [user?.credits_remaining || 0]. *)
Definition credits_or_zero (d : Db) (phoneNumber : jsstring) : Z :=
  match getUser d phoneNumber with
  | Some u => credits_remaining u
  | None => 0
  end.

(** The keywords of the route, as its source file spells them: where a
    Swedish letter is meant the file holds two characters, the first being
    U+221A. *)
Definition sq : N := 8730.  (* U+221A *)
Definition kw_vader : jsstring := js "v" ++ [sq; 167%N] ++ js "der".
Definition kw_narmaste : jsstring := js "n" ++ [sq; 167%N] ++ js "rmaste".
Definition kw_nod : jsstring := js "n" ++ [sq; 8706%N] ++ js "d".
Definition kw_hjalp : jsstring := js "hj" ++ [sq; 167%N] ++ js "lp".
Definition kw_var_ar : jsstring := js "var " ++ [sq; 167%N] ++ js "r".
Definition kw_sok : jsstring := js "s" ++ [sq; 8706%N] ++ js "k".

Definition placeKeywords : list (list N) :=
  [kw_narmaste; js "nearest"; js "hitta"; js "find"; kw_var_ar;
   js "where is"; js "show me"; js "visa"; kw_sok; js "search"; js "leta";
   js "look for"].

(** The character class by which [handlePlaceSearch] picks Swedish. *)
Definition swedish_letter_class : regex :=
  RSet ((fun c => (c, c)) <$> [sq; 8226; sq; 167; sq; 8706; sq; 214; sq; 209;
                               sq; 241]%N).

Section Route.

Context (svc : Services).

Definition handleNoCredits (phoneNumber : jsstring) (l : Lang) : M unit :=
  do credits <- read_db (fun d => credits_or_zero d phoneNumber);
  sendSMS phoneNumber (NoCreditsText l credits) l.

Definition handleMoreCommand (phoneNumber : jsstring) (l : Lang) (now : Z)
  : M unit :=
  try_catch
    (do context <- read_db (fun d => getContext d phoneNumber now);
     match lastAiResponse context, last (ctx_messages context) with
     | Some lastReply, Some lastUserMessage =>
         do userCategories <-
           read_db (fun d => getSelectedCategories d phoneNumber);
         do expandedResponse <-
           call (expandResponse svc lastReply lastUserMessage userCategories);
         write_db (fun d =>
           updateSession d phoneNumber None expandedResponse now) ;;
         sendSMS phoneNumber (Text expandedResponse) sv
     | _, _ => sendSMS phoneNumber NoPreviousResponseText sv
     end)
    (sendSMS phoneNumber ExpandErrorText sv).

Definition image_prefix : jsstring := js "[Image] ".

Definition handleImageAnalysis (phoneNumber : jsstring) (imageUrl : Field)
    (userQuestion : jsstring) (l : Lang) (now : Z) : M unit :=
  try_catch
    (do enough <- read_db (fun d => hasCredits d phoneNumber 1);
     if negb enough then handleNoCredits phoneNumber l
     else
       do userCategories <-
         read_db (fun d => getSelectedCategories d phoneNumber);
       do aiResponse <-
         call (analyzeImage svc imageUrl userQuestion userCategories l);
       write_db (fun d =>
         updateSession d phoneNumber (Some (image_prefix ++ userQuestion))
           aiResponse now) ;;
       write_db (fun d => (deductCredits d phoneNumber 1 now).2) ;;
       write_db (fun d =>
         logTransaction d phoneNumber usage (-1)
           (Some (js "AI conversation (image analysis)")) None now) ;;
       sendSMS phoneNumber (Text aiResponse) l)
    (sendSMS phoneNumber (ImageErrorText l) l).

Definition handleLocationQuery (phoneNumber : jsstring) (now : Z) : M unit :=
  do lastLocation <- read_db (fun d => getLastLocation d phoneNumber now);
  match lastLocation with
  | None => sendSMS phoneNumber NoSavedLocationText sv
  | Some (la, lo) => sendSMS phoneNumber (LastPositionText la lo) sv
  end.

Definition handleStopCommand (phoneNumber : jsstring) (l : Lang) (now : Z)
  : M unit :=
  write_db (fun d => deactivateUser d phoneNumber now) ;;
  sendSMS phoneNumber (StopText l) l.

Definition handleHelpCommand (phoneNumber : jsstring) (l : Lang) : M unit :=
  do credits <- read_db (fun d => credits_or_zero d phoneNumber);
  sendSMS phoneNumber (HelpText l credits) l.

Definition handleGPSMessage (phoneNumber : jsstring)
    (location : ParsedLocation) (originalMessage : jsstring) (now : Z)
  : M unit :=
  try_catch
    (let c := coordinates location in
     write_db (fun d => saveLocation d phoneNumber (lat c) (lon c) now) ;;
     let followUp := toLowerCase originalMessage in
     let l := if includes followUp kw_vader || includes followUp kw_narmaste
              then sv else en in
     match parseCategoryFromQuery followUp with
     | Some category =>
         let radius := parseRadiusFromQuery followUp in
         do result <- call (searchNearby svc c category radius);
         sendSMS phoneNumber (Text (formatSearchResult svc result l)) sv
     | None =>
         let response :=
           if includes followUp kw_vader || includes followUp (js "weather")
           then Text (getWeatherByCoordinates svc (lat c) (lon c) l)
           else if includes followUp kw_narmaste
                   || includes followUp (js "nearest")
                   || includes followUp (js "skydd")
                   || includes followUp (js "shelter")
                   || includes followUp (js "stuga")
                   || includes followUp (js "cabin")
           then Text (formatNearestResponse svc c nearest_cabin l)
           else if includes followUp kw_nod
                   || includes followUp (js "emergency")
                   || includes followUp kw_hjalp
           then Text (formatNearestResponse svc c nearest_emergency l)
           else PositionSavedText l c in
         sendSMS phoneNumber response sv
     end)
    (sendSMS phoneNumber GpsErrorText sv).

Definition handlePlaceSearch (phoneNumber messageBody : jsstring) (now : Z)
  : M bool :=
  try_catch
    (let hasPlaceKeyword :=
       existsb (fun keyword => includes (toLowerCase messageBody) keyword)
               placeKeywords in
     if negb hasPlaceKeyword then ret false
     else
       match parseCategoryFromQuery messageBody with
       | None => ret false
       | Some category =>
           let l := if regex_test false swedish_letter_class messageBody
                    then sv else en in
           do lastLocation <-
             read_db (fun d => getLastLocation d phoneNumber now);
           match lastLocation with
           | None =>
               sendSMS phoneNumber (ShareLocationFirstText l category) sv ;;
               ret true
           | Some (la, lo) =>
               let radius := parseRadiusFromQuery messageBody in
               do result <-
                 call (searchNearby svc {| lat := la; lon := lo |}
                         category radius);
               let response := formatSearchResult svc result l in
               do enough <- read_db (fun d => hasCredits d phoneNumber 1);
               if negb enough
               then handleNoCredits phoneNumber sv ;; ret true
               else
                 write_db (fun d => (deductCredits d phoneNumber 1 now).2) ;;
                 write_db (fun d =>
                   logTransaction d phoneNumber usage (-1)
                     (Some (js "Place search")) None now) ;;
                 write_db (fun d =>
                   updateSession d phoneNumber (Some messageBody) response
                     now) ;;
                 sendSMS phoneNumber (Text response) sv ;;
                 ret true
           end
       end)
    (ret false).

Inductive Attachment := NoImage | Image (url : Field).

(** [mediaUrl && mediaType?.startsWith('image/')]: [None] is the
    [TypeError] thrown when [mediaUrl] is truthy and [mediaType] is neither
    absent nor a string. *)
Definition is_image (mediaUrl mediaType : Field) : option Attachment :=
  if field_truthy mediaUrl then
    match mediaType with
    | Missing => Some NoImage
    | Str ty =>
        Some (if startsWith ty (js "image/") then Image mediaUrl else NoImage)
    | NonString _ _ => None
    end
  else Some NoImage.

Definition handleActiveUserMessage (phoneNumber messageBody : jsstring)
    (mediaUrl mediaType : Field) (l : Lang) (now : Z) : M unit :=
  try_catch
    (do attachment <- call (is_image mediaUrl mediaType);
     match attachment with
     | Image url =>
         handleImageAnalysis phoneNumber url
           (match messageBody with [] => js "What is this?" | _ => messageBody
            end) l now
     | NoImage =>
     if (length (trim messageBody) =? 0)%nat then ret tt
     else if isStopCommand messageBody
     then handleStopCommand phoneNumber l now
     else if isHelpCommand messageBody then handleHelpCommand phoneNumber l
     else
     match parseLocation messageBody with
     | Some parsedLocation =>
         handleGPSMessage phoneNumber parsedLocation messageBody now
     | None =>
     do placeSearchResult <- handlePlaceSearch phoneNumber messageBody now;
     if (placeSearchResult : bool) then ret tt
     else if isLocationQueryCommand messageBody
     then handleLocationQuery phoneNumber now
     else if isMoreCommand messageBody then
       do enough <- read_db (fun d => hasCredits d phoneNumber 1);
       if negb enough then handleNoCredits phoneNumber l
       else
         handleMoreCommand phoneNumber l now ;;
         write_db (fun d => (deductCredits d phoneNumber 1 now).2) ;;
         write_db (fun d =>
           logTransaction d phoneNumber usage (-1)
             (Some (js "Expanded response (MORE)")) None now)
     else
     do weather <- call (handleWeatherQuery svc messageBody);
     match truthy weather with
     | Some weatherResponse =>
         do enough <- read_db (fun d => hasCredits d phoneNumber 1);
         if negb enough then handleNoCredits phoneNumber l
         else
           write_db (fun d => (deductCredits d phoneNumber 1 now).2) ;;
           write_db (fun d =>
             logTransaction d phoneNumber usage (-1)
               (Some (js "Weather query")) None now) ;;
           write_db (fun d =>
             updateSession d phoneNumber (Some messageBody) weatherResponse
               now) ;;
           sendSMS phoneNumber (Text weatherResponse) l
     | None =>
         do enough <- read_db (fun d => hasCredits d phoneNumber 1);
         if negb enough then handleNoCredits phoneNumber l
         else
           do context <- read_db (fun d => getContext d phoneNumber now);
           do customAgent <-
             read_db (fun d => getActiveCustomAgent d phoneNumber);
           do aiResponse <-
             match customAgent with
             | Some agent =>
                 call (generateResponseWithCustomPrompt svc messageBody
                         (ctx_messages context) (lastAiResponse context)
                         (system_prompt agent) l)
             | None =>
                 do userCategories <-
                   read_db (fun d => getSelectedCategories d phoneNumber);
                 call (generateResponse svc messageBody
                         (ctx_messages context) (lastAiResponse context)
                         userCategories l)
             end;
           write_db (fun d =>
             updateSession d phoneNumber (Some messageBody) aiResponse now) ;;
           write_db (fun d => (deductCredits d phoneNumber 1 now).2) ;;
           write_db (fun d =>
             logTransaction d phoneNumber usage (-1)
               (Some (js "AI conversation")) None now) ;;
           sendSMS phoneNumber (Text aiResponse) l
     end
     end
     end)
    (sendSMS phoneNumber GenericErrorText sv).

(** The fields of the body object of the request ([req.body]) that the
    route reads. *)
Record Request := {
  From : Field;
  To : Field;
  Body : Field;
  NumMedia : Field;
  MediaUrl0 : Field;
  MediaContentType0 : Field
}.

(** [createUser(phoneNumber, { language, twilio_number })]: the columns not
    named by the INSERT take their defaults, [created_at] and [updated_at]
    the time of the statement. *)
Definition createUser (d : Db) (phoneNumber : jsstring) (l : Lang)
    (twilioNumber : jsstring) (now : Z) : Db :=
  set_users d
    (<[phoneNumber :=
         {| status := pending; credits_remaining := 0;
            selected_categories := Some [js "outdoor"];
            language := Some l; twilio_number := truthy (Some twilioNumber);
            active_agent_id := None; consent_timestamp := None;
            user_created_at := now; user_updated_at := now |}]>
       (users d)).

Definition setTwilioNumber (d : Db) (phoneNumber twilioNumber : jsstring)
    (now : Z) : Db :=
  update_user d phoneNumber (fun u =>
    {| status := status u; credits_remaining := credits_remaining u;
       selected_categories := selected_categories u; language := language u;
       twilio_number := Some twilioNumber;
       active_agent_id := active_agent_id u;
       consent_timestamp := consent_timestamp u;
       user_created_at := user_created_at u;
       user_updated_at := now |}).

Definition setLanguage (d : Db) (phoneNumber : jsstring) (l : Lang)
    (now : Z) : Db :=
  update_user d phoneNumber (fun u =>
    {| status := status u; credits_remaining := credits_remaining u;
       selected_categories := selected_categories u; language := Some l;
       twilio_number := twilio_number u;
       active_agent_id := active_agent_id u;
       consent_timestamp := consent_timestamp u;
       user_created_at := user_created_at u;
       user_updated_at := now |}).

(** [consent_timestamp = CURRENT_TIMESTAMP, updated_at = CURRENT_TIMESTAMP]. *)
Definition logConsent (d : Db) (phoneNumber : jsstring) (now : Z) : Db :=
  update_user d phoneNumber (fun u =>
    {| status := status u; credits_remaining := credits_remaining u;
       selected_categories := selected_categories u; language := language u;
       twilio_number := twilio_number u;
       active_agent_id := active_agent_id u;
       consent_timestamp := Some now;
       user_created_at := user_created_at u;
       user_updated_at := now |}).

(** [rateLimiter.checkLimits(phoneNumber)] on the limiter of the process. *)
Definition check_rate_limit (phoneNumber : jsstring) (now : Z)
  : M LimitResult :=
  fun w =>
    let '(res, rl) := checkLimits (rateLimiter w) phoneNumber now in
    (Some res, {| db := db w; outbox := outbox w; rateLimiter := rl |}).

(** [router.post('/incoming', ...)]: the HTTP status of the answer. *)
Definition incoming (req : Request) (now : Z) : M Z :=
  try_catch
    (if negb (field_truthy (From req)) || negb (field_truthy (To req))
     then ret 400
     else
         do from <- call (as_string (From req));
         let phoneNumber := normalizePhoneNumber from in
         do to <- call (as_string (To req));
         let twilioNumber := normalizePhoneNumber to in
         do messageBody <-
           (if field_truthy (Body req)
            then do b <- call (as_string (Body req)); ret (sanitizeInput b)
            else ret []);
         do numMedia <-
           (if field_truthy (NumMedia req) then call (to_text (NumMedia req))
            else ret (js "0"));
         let hasMedia :=
           match parseInt numMedia with
           | Some n => 0 <? n
           | None => false
           end in
         let mediaUrl := if hasMedia then MediaUrl0 req else Missing in
         let mediaType :=
           if hasMedia then MediaContentType0 req else Missing in
         let detectedLanguage :=
           if startsWith twilioNumber (js "+46") then sv else en in
         do known <- read_db (fun d => userExists d phoneNumber);
         if negb known then
           write_db (fun d =>
             createUser d phoneNumber detectedLanguage twilioNumber now) ;;
           sendSMS phoneNumber (OptInText detectedLanguage) detectedLanguage ;;
           ret 200
         else
           do user <- read_db (fun d => getUser d phoneNumber);
           match user with
           | Some u =>
               (if bool_decide (twilio_number u = Some twilioNumber)
                then ret tt
                else write_db (fun d =>
                       setTwilioNumber d phoneNumber twilioNumber now)) ;;
               (if bool_decide (language u = Some detectedLanguage)
                then ret tt
                else write_db (fun d =>
                       setLanguage d phoneNumber detectedLanguage now))
           | None => ret tt
           end ;;
           do isPending <- read_db (fun d => isUserPending d phoneNumber);
           do isActive <- read_db (fun d => isUserActive d phoneNumber);
           if negb isActive then
             (if isYesConfirmation messageBody then
                write_db (fun d => activateUser d phoneNumber now) ;;
                write_db (fun d => logConsent d phoneNumber now) ;;
                (if (isPending : bool) then
                   write_db (fun d =>
                     addCredits d phoneNumber FREE_TRIAL_CREDITS now) ;;
                   write_db (fun d =>
                     logTransaction d phoneNumber purchase FREE_TRIAL_CREDITS
                       (Some (js "Free trial credits")) None now)
                 else ret tt) ;;
                sendSMS phoneNumber (ActivationText detectedLanguage)
                  detectedLanguage
              else
                sendSMS phoneNumber (OptInText detectedLanguage)
                  detectedLanguage) ;;
             ret 200
           else
             do rateLimit <- check_rate_limit phoneNumber now;
             if negb (allowed rateLimit) then
               match reason rateLimit with
               | Some (w, n) =>
                   sendSMS phoneNumber (LimitText w n) detectedLanguage
               | None => sendSMS phoneNumber (Text []) detectedLanguage
               end ;;
               ret 200
             else
               handleActiveUserMessage phoneNumber messageBody mediaUrl
                 mediaType detectedLanguage now ;;
               ret 200)
    (ret 500).

End Route.

(** ** Further methods of the rate limiter (src/services/rateLimiter.ts) *)

Record Usage := { usage_minute : Z; usage_hour : Z; usage_day : Z }.

(** [getUsage(phoneNumber)] at time [now]. *)
Definition getUsage (rl : RateLimiter) (phoneNumber : jsstring) (now : Z)
  : Usage :=
  {| usage_minute := getCount rl phoneNumber minute now;
     usage_hour := getCount rl phoneNumber hour now;
     usage_day := getCount rl phoneNumber day now |}.

(** [reset(phoneNumber)]: the three keys of the phone number are deleted. *)
Definition reset (rl : RateLimiter) (phoneNumber : jsstring) : RateLimiter :=
  set_limits rl
    (delete (limit_key phoneNumber day)
       (delete (limit_key phoneNumber hour)
          (delete (limit_key phoneNumber minute) (limits rl)))).

(** ** Further text utilities (src/utils/text.ts, utils/normalizeSmsText.ts) *)

(** [truncateForSMS(text, maxLength = 1600)]; [substring] takes a negative
    end as 0. *)
Definition truncateForSMS (text : jsstring) (maxLength : Z) : jsstring :=
  if Z.of_nat (length text) <=? maxLength then text
  else take (Z.to_nat (maxLength - 3)) text ++ js "...".

(** [estimateSmsSegments(text)]; [Math.ceil(length / 153)] on integers. *)
Definition estimateSmsSegments (text : jsstring) : Z :=
  let len := Z.of_nat (length text) in
  if len <=? 160 then 1
  else if len <=? 306 then 2
  else if len <=? 459 then 3
  else if len <=? 612 then 4
  else (len + 152) / 153.

(** [s.replace(/[class]/g, c)] for a class of single code units. *)
Definition replace_class (cls : N -> bool) (c : N) (s : jsstring) : jsstring :=
  (fun x => if cls x then c else x) <$> s.

(** [s.replace(/[class]/g, '')]. *)
Definition remove_class (cls : N -> bool) (s : jsstring) : jsstring :=
  filter (fun x => cls x = false) s.

Definition A_ring : N := 197.  (* U+00C5 *)
Definition A_uml : N := 196.   (* U+00C4 *)

(** The class of step 4 of [normalizeSmsText], on code points. *)
Definition is_symbol_code_point (cp : N) : bool :=
  ((127744 <=? cp) && (cp <=? 129791))%N       (* U+1F300 - U+1FAFF *)
  || ((128512 <=? cp) && (cp <=? 128591))%N    (* U+1F600 - U+1F64F *)
  || ((128640 <=? cp) && (cp <=? 128767))%N    (* U+1F680 - U+1F6FF *)
  || ((9728 <=? cp) && (cp <=? 9983))%N        (* U+2600 - U+26FF *)
  || ((9984 <=? cp) && (cp <=? 10175))%N.      (* U+2700 - U+27BF *)

Definition is_high_surrogate (c : N) : bool := ((55296 <=? c) && (c <=? 56319))%N.
Definition is_low_surrogate (c : N) : bool := ((56320 <=? c) && (c <=? 57343))%N.

(** The replacement of step 4: with the [u] flag a surrogate pair is one
    code point. *)
Fixpoint remove_symbols (s : jsstring) : jsstring :=
  match s with
  | [] => []
  | hi :: rest =>
      match rest with
      | lo :: rest' =>
          if is_high_surrogate hi && is_low_surrogate lo
          then
            let cp := (65536 + (hi - 55296) * 1024 + (lo - 56320))%N in
            if is_symbol_code_point cp then remove_symbols rest'
            else hi :: lo :: remove_symbols rest'
          else if is_symbol_code_point hi then remove_symbols rest
               else hi :: remove_symbols rest
      | [] => if is_symbol_code_point hi then [] else [hi]
      end
  end.

(** [s.replace(/\n{2,}/g, '\n')]. *)
Fixpoint collapse_newlines (s : jsstring) : jsstring :=
  match s with
  | [] => []
  | c :: rest =>
      if (c =? 10)%N
      then match rest with
           | d :: _ => if (d =? 10)%N then collapse_newlines rest
                       else c :: collapse_newlines rest
           | [] => [c]
           end
      else c :: collapse_newlines rest
  end.

(** [s.split('\n')]: the current line and the lines after it. *)
Fixpoint split_lines (s : jsstring) : jsstring * list jsstring :=
  match s with
  | [] => ([], [])
  | c :: rest =>
      let '(line, lines) := split_lines rest in
      if (c =? 10)%N then ([], line :: lines) else (c :: line, lines)
  end.

(** [lines.join('\n')]. *)
Fixpoint join_lines (first : jsstring) (lines : list jsstring) : jsstring :=
  match lines with
  | [] => first
  | l :: lines' => first ++ 10%N :: join_lines l lines'
  end.

Definition normalizeSmsText (input : jsstring) : jsstring :=
  match input with
  | [] => []
  | _ =>
      let text := input in
      (* 1. Swedish letters; the [i] flag covers both cases *)
      let text :=
        replace_class
          (fun x => bool_decide (upper_unit x ∈ [A_ring; A_uml])) 97 text in
      let text :=
        replace_class (fun x => (upper_unit x =? O_uml)%N) 111 text in
      let text := replace_class (fun x => (x =? A_ring)%N) 65 text in
      let text := replace_class (fun x => (x =? A_uml)%N) 65 text in
      let text := replace_class (fun x => (x =? O_uml)%N) 79 text in
      (* 2. the two quote classes hold the ASCII quotes themselves *)
      let text := replace_class (fun x => (x =? 34)%N) 34 text in
      let text := replace_class (fun x => (x =? 39)%N) 39 text in
      (* 3. en dash and em dash *)
      let text :=
        replace_class (fun x => bool_decide (x ∈ [8211; 8212]%N)) 45 text in
      (* 4. symbols *)
      let text := remove_symbols text in
      (* 5. everything but newline and printable ASCII *)
      let text :=
        remove_class
          (fun x => negb ((x =? 10) || ((32 <=? x) && (x <=? 126)))%N) text in
      (* 6. *)
      let text := collapse_newlines text in
      (* 7. *)
      let text := trim text in
      (* 8. *)
      let '(line, lines) := split_lines text in
      join_lines (trim line) (trim <$> lines)
  end.

(** ** Custom agents (userService.ts) *)

Definition set_custom_agents (d : Db) (a : gmap Z CustomAgent) : Db :=
  {| users := users d; sessions := sessions d;
     next_session_id := next_session_id d;
     transactions := transactions d; custom_agents := a |}.

Definition set_agent_active (b : bool) (a : CustomAgent) : CustomAgent :=
  {| agent_phone_number := agent_phone_number a; agent_name := agent_name a;
     system_prompt := system_prompt a; agent_active := b |}.

Definition set_active_agent_id (u : User) (aid : option Z) : User :=
  {| status := status u; credits_remaining := credits_remaining u;
     selected_categories := selected_categories u; language := language u;
     twilio_number := twilio_number u; active_agent_id := aid;
     consent_timestamp := consent_timestamp u;
     user_created_at := user_created_at u;
     user_updated_at := user_updated_at u |}.

(** [UPDATE custom_agents SET active = false WHERE phone_number = ?]. *)
Definition deactivate_agents_of (phoneNumber : jsstring)
    (agents : gmap Z CustomAgent) : gmap Z CustomAgent :=
  (fun a => if str_eq (agent_phone_number a) phoneNumber
            then set_agent_active false a else a) <$> agents.

Definition getCustomAgent (d : Db) (agentId : Z) : option CustomAgent :=
  custom_agents d !! agentId.

Definition activateCustomAgent (d : Db) (phoneNumber : jsstring) (agentId : Z)
    (now : Z) : Db :=
  let d1 := set_custom_agents d
              (deactivate_agents_of phoneNumber (custom_agents d)) in
  let d2 := set_custom_agents d1
              (alter (set_agent_active true) agentId (custom_agents d1)) in
  update_user d2 phoneNumber
    (fun u => touch now (set_active_agent_id u (Some agentId))).

Definition deactivateCustomAgent (d : Db) (phoneNumber : jsstring) (now : Z)
  : Db :=
  let d1 := set_custom_agents d
              (deactivate_agents_of phoneNumber (custom_agents d)) in
  update_user d1 phoneNumber (fun u => touch now (set_active_agent_id u None)).

Definition deleteCustomAgent (d : Db) (agentId : Z) : Db :=
  set_custom_agents d (delete agentId (custom_agents d)).

(** * Auxiliary definitions for the properties *)

(** ** Sample data *)

Definition alice : jsstring := js "+46701234567".

Definition sample_user (st : Status) (credits : Z) : User :=
  {| status := st; credits_remaining := credits;
     selected_categories := Some [js "outdoor"]; language := Some sv;
     twilio_number := None; active_agent_id := None;
     consent_timestamp := None; user_created_at := 0; user_updated_at := 0 |}.

Definition empty_db : Db :=
  {| users := ∅; sessions := []; next_session_id := 1; transactions := [];
     custom_agents := ∅ |}.

(** A database whose only account is [alice], active, with the given
    balance, and no session row. *)
Definition db_with_balance (credits : Z) : Db :=
  set_users empty_db {[ alice := sample_user active credits ]}.

(** The location-query phrases as the specification lists them. *)
Definition location_query_phrases : list (list N) :=
  [js "where am i"; var_ar_jag; js "my location"; js "min position"].

(** The normalized texts the classifier accepts. *)
Definition recognized_location_queries : list (list N) :=
  [js "where am i"; js "where am i?"; var_ar_jag; var_ar_jag ++ js "?";
   js "my location"; js "min position"].


(** ** Rate limiter *)

(** Consecutive calls of [isAllowed] for one identity and window at the
    given times: the answers and the limiter after the last call. *)
Fixpoint calls (rl : RateLimiter) (phone : jsstring) (w : Window)
    (times : list Z) : list bool * RateLimiter :=
  match times with
  | [] => ([], rl)
  | t :: ts =>
      let '(ok, rl1) := isAllowed rl phone w t in
      let '(oks, rl2) := calls rl1 phone w ts in
      (ok :: oks, rl2)
  end.

(** No window is running at [now]: no counter is stored, or the reset time
    of the stored one has passed. *)
Definition window_closed (rl : RateLimiter) (phone : jsstring) (w : Window)
    (now : Z) : Prop :=
  match limits rl !! limit_key phone w with
  | None => True
  | Some entry => resetAt entry < now
  end.

(** The fixed order in which [checkLimits] consults the windows. *)
Definition window_index (w : Window) : nat :=
  match w with minute => 0 | hour => 1 | day => 2 end.

(** A limiter in which [alice] has used her single hourly message. *)
Definition hourly_limiter_used : RateLimiter :=
  (checkLimits (newRateLimiter 5 1 200) alice 0).2.

(** ** Session store *)

(** One call of [updateSession] for an identity: the time of the call, the
    user message ([None] for [null]) and the AI reply. *)
Record Append := {
  at_time : Z;
  user_message : option (list N);
  ai_reply : list N
}.

Fixpoint appendAll (d : Db) (p : jsstring) (evs : list Append) : Db :=
  match evs with
  | [] => d
  | ev :: evs' =>
      appendAll (updateSession d p (user_message ev) (ai_reply ev) (at_time ev))
        p evs'
  end.

(** The messages a run of calls appends: those that are neither [null] nor
    empty, in the order of the calls. *)
Definition appended (evs : list Append) : list (list N) :=
  omap (fun ev => truthy (user_message ev)) evs.

(** The session timeout in milliseconds. *)
Definition SESSION_TIMEOUT_MS : Z := SESSION_TIMEOUT_MINUTES * (1000 * 60).

(** The appends after time [t] arrive in time order and none comes more than
    the session timeout after the one before it, so that the session they
    extend has not expired. *)
Fixpoint unexpired_run (t : Z) (evs : list Append) : Prop :=
  match evs with
  | [] => True
  | ev :: evs' =>
      t <= at_time ev /\ at_time ev - t <= SESSION_TIMEOUT_MS
      /\ unexpired_run (at_time ev) evs'
  end.

Definition last_time (t : Z) (evs : list Append) : Z :=
  match last evs with
  | Some ev => at_time ev
  | None => t
  end.

(** What the tables guarantee of [sessions] at time [now]: [id] is a key
    below the SERIAL counter and no row is stamped in the future. *)
Definition sessions_wf (d : Db) (now : Z) : Prop :=
  NoDup (id <$> sessions d)
  /\ Forall (fun r => id r < next_session_id d) (sessions d)
  /\ Forall (fun r => updated_at r <= now) (sessions d).

(** Every stored message sequence has at most [MAX_MESSAGES] entries. *)
Definition window_bounded (d : Db) : Prop :=
  Forall (fun r => (length (messages r) <= MAX_MESSAGES)%nat) (sessions d).

(** The databases the services can produce from an empty [sessions] table,
    with the time of the last operation. *)
Inductive reachable : Db -> Z -> Prop :=
| reach_start d t : sessions d = [] -> reachable d t
| reach_wait d t t' : reachable d t -> t <= t' -> reachable d t'
| reach_create d t p m :
    reachable d t -> reachable (createSession d p m t).2 t
| reach_update d t p m r :
    reachable d t -> reachable (updateSession d p m r t) t
| reach_location d t p la lo :
    reachable d t -> reachable (saveLocation d p la lo t) t
| reach_clear d t :
    reachable d t -> reachable (clearExpiredSessions d t) t
| reach_ledger d t u txs :
    reachable d t -> reachable (set_transactions (set_users d u) txs) t.

(** The row of the phone number that [latest_session] returns, described by
    its position: no row before it is newer, every row after it is older. *)
Definition is_latest (rows : list Session) (p : jsstring) (s : Session)
  : Prop :=
  exists l1 l2,
    rows = l1 ++ s :: l2 /\ phone_number s = p
    /\ Forall (fun x => phone_number x = p -> updated_at x <= updated_at s) l1
    /\ Forall (fun x => phone_number x = p -> updated_at x < updated_at s) l2.

(** A run of four appends and one call without message, one second apart. *)
Definition sample_run : list Append :=
  [ {| at_time := 1000; user_message := Some (js "b"); ai_reply := js "B" |};
    {| at_time := 2000; user_message := None; ai_reply := js "B+" |};
    {| at_time := 3000; user_message := Some (js "c"); ai_reply := js "C" |};
    {| at_time := 4000; user_message := Some (js "d"); ai_reply := js "D" |} ].

Definition first_append : Append :=
  {| at_time := 0; user_message := Some (js "a"); ai_reply := js "A" |}.

(** ** Texts without digits *)

Definition is_digit (c : N) : bool := ((48 <=? c) && (c <=? 57))%N.

(** Every match of the expression consumes a decimal digit. *)
Fixpoint needs_digit (r : regex) : bool :=
  match r with
  | RSet ranges =>
      forallb (fun r => (48 <=? r.1) && (r.2 <=? 57))%N ranges
  | RSeq a b => needs_digit a || needs_digit b
  | RAlt a b => needs_digit a && needs_digit b
  | RGroup _ a => needs_digit a
  | _ => false
  end.

(** ** Texts of the MORE command *)

(** The characters of the three MORE phrases, and white space. *)
Definition more_alphabet (c : N) : bool :=
  is_js_space c || bool_decide (c ∈ js "moreinftl").

(** ** SMS route *)

Definition sms (to : jsstring) (body : SmsBody) (l : Lang) : Sms :=
  {| sms_to := to; sms_body := body; sms_language := l |}.

(** The balance of an identity, when it has an account. *)
Definition balance (d : Db) (p : jsstring) : option Z :=
  credits_remaining <$> getUser d p.

(** Collaborators that answer every call: no weather query is detected, the
    AI answers [ok], the map search finds one result list. *)
Definition demo_services : Services :=
  {| POISearchResult := unit;
     handleWeatherQuery := fun _ => Some None;
     generateResponse := fun _ _ _ _ _ => Some (js "ok");
     generateResponseWithCustomPrompt := fun _ _ _ _ _ => Some (js "ok");
     expandResponse := fun _ _ _ => Some (js "more ok");
     analyzeImage := fun _ _ _ _ => Some (js "an image");
     getWeatherByCoordinates := fun _ _ _ => js "sunny";
     formatNearestResponse := fun _ _ _ => js "nearest";
     searchNearby := fun _ _ _ => Some tt;
     formatSearchResult := fun _ _ => js "Sjukhus (inom 10 km):" |}.

(** [alice], active with the given balance, with no session and nothing sent
    so far. *)
Definition world_with_balance (credits : Z) : World :=
  {| db := db_with_balance credits; outbox := [];
     rateLimiter := newRateLimiter 5 30 200 |}.

(** [alice], active with the given balance, with one session row (a first
    message at time 0, answered) and nothing in the outbox. *)
Definition world_with_session (credits : Z) : World :=
  {| db := updateSession (db_with_balance credits) alice (Some (js "hello"))
             (js "hi") 0;
     outbox := []; rateLimiter := newRateLimiter 5 30 200 |}.

(** A message with a map link and a place word. *)
Definition link_and_hospital : jsstring :=
  js "https://maps.google.com/?q=59.3293,18.0686 hospital".

(** Consecutive [checkLimits] calls of one identity at the given times: the
    answers and the limiter after the last call. *)
Fixpoint checks (rl : RateLimiter) (phone : jsstring) (times : list Z)
  : list LimitResult * RateLimiter :=
  match times with
  | [] => ([], rl)
  | t :: ts =>
      let '(res, rl1) := checkLimits rl phone t in
      let '(ress, rl2) := checks rl1 phone ts in
      (res :: ress, rl2)
  end.

(** The webhook request of a text message. *)
Definition text_request (from to body : jsstring) : Request :=
  {| From := Str from; To := Str to; Body := Str body;
     NumMedia := Str (js "0"); MediaUrl0 := Missing;
     MediaContentType0 := Missing |}.

(** ** Further notions for the rate limiter *)

(** The entry a caller at time [now] still sees: an entry whose reset time
    has passed counts as absent. *)
Definition live_entry (now : Z) (o : option RateLimitEntry)
  : option RateLimitEntry :=
  match o with
  | Some e => if resetAt e <? now then None else Some e
  | None => None
  end.

(** Two limiters that a caller at time [now] cannot tell apart. *)
Definition live_agree (now : Z) (rl rl' : RateLimiter) : Prop :=
  (forall w, getMaxLimit rl w = getMaxLimit rl' w)
  /\ forall k, live_entry now (limits rl !! k) = live_entry now (limits rl' !! k).

(** [checkLimits] calls of several identities, in the order given. *)
Fixpoint run_checks (rl : RateLimiter) (calls : list (list N * Z))
  : RateLimiter :=
  match calls with
  | [] => rl
  | (phone, t) :: rest => run_checks (checkLimits rl phone t).2 rest
  end.

(** Every stored counter is at least 1 and at most the maximum of its
    window (at most 1 when the maximum is below 1). *)
Definition counters_bounded (rl : RateLimiter) : Prop :=
  forall phone w e,
    limits rl !! limit_key phone w = Some e ->
    1 <= count e <= Z.max 1 (getMaxLimit rl w).

Definition bob : jsstring := js "+46709876543".

(** ** Further notions for the ledger *)

(** Successive debits of one credit at the given times: the number that
    succeeded and the database after the last. *)
Fixpoint spend (d : Db) (p : jsstring) (times : list Z) : Z * Db :=
  match times with
  | [] => (0, d)
  | t :: times' =>
      let '(ok, d1) := deductCredits d p 1 t in
      let '(n, d2) := spend d1 p times' in
      ((if ok then 1 else 0) + n, d2)
  end.

(** ** Further sample data for the session store *)

(** [alice] with one session row, created at time 0 by a first message. *)
Definition db_with_session : Db :=
  updateSession (db_with_balance 3) alice (Some (js "hello")) (js "hi") 0.


(** ** Further notions for the classifier *)

(** How many of the five command classifiers accept a message. *)
Definition command_count (m : jsstring) : nat :=
  Nat.b2n (isYesConfirmation m) + Nat.b2n (isStopCommand m)
  + Nat.b2n (isHelpCommand m) + Nat.b2n (isMoreCommand m)
  + Nat.b2n (isLocationQueryCommand m).

(** A message is one of the five commands. *)
Definition is_command (m : jsstring) : bool :=
  isYesConfirmation m || isStopCommand m || isHelpCommand m
  || isMoreCommand m || isLocationQueryCommand m.

(** Newline or printable ASCII: the characters [normalizeSmsText] lets
    through. *)
Definition sms_safe (c : N) : Prop := c = 10%N \/ (32 <= c <= 126)%N.

(** ** Notions for the ledger of a request *)

(** Balances and the transaction log are as before. *)
Definition ledger_same (d d' : Db) : Prop :=
  transactions d' = transactions d /\ forall q, balance d' q = balance d q.

(** One credit went from the balance of [p] into one usage entry of the
    transaction log; the balances of the others are as before. *)
Definition charged_once (p : jsstring) (now : Z) (d d' : Db) : Prop :=
  exists b descr,
    balance d p = Some b /\ 1 <= b /\ balance d' p = Some (b - 1)
    /\ (forall q, q <> p -> balance d' q = balance d q)
    /\ transactions d' = transactions d ++
         [{| tx_phone_number := p; tx_type := usage; credits_delta := -1;
             description := Some descr; stripe_payment_id := None;
             tx_created_at := now |}].

(** The replies that tell the sender that the request failed as a whole. *)
Definition is_failure (b : SmsBody) : Prop :=
  b = GenericErrorText \/ exists l, b = ImageErrorText l.

(** Exactly one message was sent, to [p], with body [body]. *)
Definition replied (p : jsstring) (w w' : World) (body : SmsBody) : Prop :=
  exists l, outbox w' = outbox w ++
              [{| sms_to := p; sms_body := body; sms_language := l |}].

(** A request was answered by one message: either the ledger is as before
    (and after a failure reply the whole database is), or one credit was
    charged, which no failure reply goes with. *)
Definition answered (p : jsstring) (now : Z) (w w' : World) : Prop :=
  rateLimiter w' = rateLimiter w
  /\ exists body, replied p w w' body
       /\ ((ledger_same (db w) (db w')
            /\ (is_failure body -> db w' = db w))
           \/ (charged_once p now (db w) (db w') /\ ~ is_failure body)).

Definition request_effect (p : jsstring) (now : Z) (w w' : World) : Prop :=
  w' = w \/ answered p now w w'.

(** Collaborators that reject every call. *)
Definition failing_services : Services :=
  {| POISearchResult := unit;
     handleWeatherQuery := fun _ => None;
     generateResponse := fun _ _ _ _ _ => None;
     generateResponseWithCustomPrompt := fun _ _ _ _ _ => None;
     expandResponse := fun _ _ _ => None;
     analyzeImage := fun _ _ _ _ => None;
     getWeatherByCoordinates := fun _ _ _ => [];
     formatNearestResponse := fun _ _ _ => [];
     searchNearby := fun _ _ _ => None;
     formatSearchResult := fun _ _ => [] |}.

(** [alice] with 3 credits writes [hello] while every collaborator is
    down. *)
Definition hello_while_down : option unit * World :=
  handleActiveUserMessage failing_services alice (js "hello") Missing
    Missing sv 0 (world_with_balance 3).

(** ** Notions for the webhook *)

(** The message text the webhook works with: [None] when reading it
    throws (a truthy [Body] that is not a string). *)
Definition message_of (req : Request) : option jsstring :=
  if field_truthy (Body req) then sanitizeInput <$> as_string (Body req)
  else Some [].

(** Whether the webhook takes the request to carry media: [None] when
    reading [NumMedia] throws. *)
Definition has_media (req : Request) : option bool :=
  (fun t => match parseInt t with
            | Some n => 0 <? n
            | None => false
            end)
    <$> (if field_truthy (NumMedia req) then to_text (NumMedia req)
         else Some (js "0")).

Definition media_url_of (req : Request) (media : bool) : Field :=
  if media then MediaUrl0 req else Missing.

Definition media_type_of (req : Request) (media : bool) : Field :=
  if media then MediaContentType0 req else Missing.

(** The webhook reads the request without throwing: the sender [from] and
    the receiving number [to] are strings that are not empty, the message is
    [m] and [media] tells whether media are attached. *)
Definition readable (req : Request) (from to m : jsstring) (media : bool)
  : Prop :=
  From req = Str from /\ from <> [] /\ To req = Str to /\ to <> []
  /\ message_of req = Some m /\ has_media req = Some media.

(** The webhook throws while it reads the request: the sender and the
    receiving number are truthy, and one of them or a truthy [Body] is not
    a string, or [NumMedia] has no conversion to a string. *)
Definition unreadable (req : Request) : Prop :=
  field_truthy (From req) = true /\ field_truthy (To req) = true
  /\ (as_string (From req) = None \/ as_string (To req) = None
      \/ message_of req = None \/ has_media req = None).

Definition language_of (twilioNumber : jsstring) : Lang :=
  if startsWith twilioNumber (js "+46") then sv else en.

(** The part of the webhook that follows the update of the stored Twilio
    number and language of a known identity: the opt-in gate, the rate
    limit, the route of an active identity. *)
Definition known_identity_gate (svc : Services)
    (phoneNumber messageBody : jsstring)
    (mediaUrl mediaType : Field) (detectedLanguage : Lang)
    (now : Z) : M Z :=
  do isPending <- read_db (fun d => isUserPending d phoneNumber);
  do isActive <- read_db (fun d => isUserActive d phoneNumber);
  if negb isActive then
    (if isYesConfirmation messageBody then
       write_db (fun d => activateUser d phoneNumber now) ;;
       write_db (fun d => logConsent d phoneNumber now) ;;
       (if (isPending : bool) then
          write_db (fun d =>
            addCredits d phoneNumber FREE_TRIAL_CREDITS now) ;;
          write_db (fun d =>
            logTransaction d phoneNumber purchase FREE_TRIAL_CREDITS
              (Some (js "Free trial credits")) None now)
        else ret tt) ;;
       sendSMS phoneNumber (ActivationText detectedLanguage) detectedLanguage
     else
       sendSMS phoneNumber (OptInText detectedLanguage) detectedLanguage) ;;
    ret 200
  else
    do rateLimit <- check_rate_limit phoneNumber now;
    if negb (allowed rateLimit) then
      match reason rateLimit with
      | Some (w, n) => sendSMS phoneNumber (LimitText w n) detectedLanguage
      | None => sendSMS phoneNumber (Text []) detectedLanguage
      end ;;
      ret 200
    else
      handleActiveUserMessage svc phoneNumber messageBody mediaUrl mediaType
        detectedLanguage now ;;
      ret 200.

(** An update of the row of [p] that keeps all but the stored Twilio number
    and language. *)
Definition sync_rel (p : jsstring) (d d1 : Db) : Prop :=
  exists f, d1 = update_user d p f
    /\ forall u, status (f u) = status u
         /\ credits_remaining (f u) = credits_remaining u
         /\ selected_categories (f u) = selected_categories u
         /\ active_agent_id (f u) = active_agent_id u
         /\ consent_timestamp (f u) = consent_timestamp u.

(** The credits that the rows of the log give to [q], or take from it. *)
Definition log_total (rows : list Transaction) (q : jsstring) : Z :=
  foldr (fun tx acc =>
           if str_eq (tx_phone_number tx) q then credits_delta tx + acc
           else acc) 0 rows.

(** Every change of a balance is in the rows appended to the log. *)
Definition accounted (d d' : Db) : Prop :=
  exists rows, transactions d' = transactions d ++ rows
    /\ forall q, credits_or_zero d' q = credits_or_zero d q + log_total rows q.

(** The database after the YES of an identity that is not active: the
    account is active, the consent is dated, and an account that was
    pending gets the trial credits with their entry in the log. *)
Definition activated (d : Db) (p : jsstring) (now : Z) : Db :=
  let d1 := logConsent (activateUser d p now) p now in
  if isUserPending d p
  then logTransaction (addCredits d1 p FREE_TRIAL_CREDITS now) p purchase
         FREE_TRIAL_CREDITS (Some (js "Free trial credits")) None now
  else d1.

(** The trial credits a message brings to an account that is not active. *)
Definition trial_bonus (u : User) (m : jsstring) : Z :=
  if isYesConfirmation m
  then match status u with pending => FREE_TRIAL_CREDITS | _ => 0 end
  else 0.

Definition trial_entry (p : jsstring) (now : Z) : Transaction :=
  {| tx_phone_number := p; tx_type := purchase;
     credits_delta := FREE_TRIAL_CREDITS;
     description := Some (js "Free trial credits");
     stripe_payment_id := None; tx_created_at := now |}.

(** The entry of the transaction log that goes with [trial_bonus]. *)
Definition trial_rows (u : User) (m p : jsstring) (now : Z)
  : list Transaction :=
  if isYesConfirmation m
  then match status u with pending => [trial_entry p now] | _ => [] end
  else [].

(** ** Sample data for the webhook *)

Definition swedish_number : jsstring := js "+46760000000".

(** [alice], who had stopped the service with 2 credits left. *)
Definition world_after_stop : World :=
  {| db := set_users empty_db {[ alice := sample_user inactive 2 ]};
     outbox := []; rateLimiter := newRateLimiter 5 30 200 |}.


(** Nobody has an account. *)
Definition empty_world : World :=
  {| db := empty_db; outbox := []; rateLimiter := newRateLimiter 5 30 200 |}.

(** ** Sample data for the custom agents *)

Definition fishing_agent : CustomAgent :=
  {| agent_phone_number := alice; agent_name := js "Fishing";
     system_prompt := js "You are a fishing guide."; agent_active := false |}.

Definition hunting_agent : CustomAgent :=
  {| agent_phone_number := alice; agent_name := js "Hunting";
     system_prompt := js "You are a hunting guide."; agent_active := true |}.

(** [alice] with two agents of her own, the second one active. *)
Definition db_with_agents : Db :=
  set_custom_agents
    (update_user (db_with_balance 3) alice
       (fun u => set_active_agent_id u (Some 2)))
    {[ 1 := fishing_agent; 2 := hunting_agent ]}.

(** The webhook after it has read the request: the registration of an
    unknown sender, or the update of the stored Twilio number and language
    followed by [known_identity_gate]. *)
Definition webhook_route (svc : Services)
    (phoneNumber twilioNumber messageBody : jsstring)
    (mediaUrl mediaType : Field) (now : Z) : M Z :=
  let detectedLanguage := language_of twilioNumber in
  do known <- read_db (fun d => userExists d phoneNumber);
  if negb known then
    write_db (fun d =>
      createUser d phoneNumber detectedLanguage twilioNumber now) ;;
    sendSMS phoneNumber (OptInText detectedLanguage) detectedLanguage ;;
    ret 200
  else
    do user <- read_db (fun d => getUser d phoneNumber);
    match user with
    | Some u =>
        (if bool_decide (twilio_number u = Some twilioNumber)
         then ret tt
         else write_db (fun d =>
                setTwilioNumber d phoneNumber twilioNumber now)) ;;
        (if bool_decide (language u = Some detectedLanguage)
         then ret tt
         else write_db (fun d =>
                setLanguage d phoneNumber detectedLanguage now))
    | None => ret tt
    end ;;
    known_identity_gate svc phoneNumber messageBody mediaUrl mediaType
      detectedLanguage now.
(** * Properties *)

(** ** Command classifier *)

Lemma orb_true_or (a b : bool) : a || b = true <-> a = true \/ b = true.
Proof. destruct a, b; simpl; intuition congruence. Qed.

Lemma str_eq_true (a b : jsstring) : str_eq a b = true <-> a = b.
Proof. unfold str_eq. apply bool_decide_eq_true. Qed.

(** C8, as stated, fails: [my location] and [min position] are phrases of the
    command set, yet followed by a question mark they are not recognized. *)
Lemma location_query_question_mark_rejected :
  In (js "my location") location_query_phrases
  /\ isLocationQueryCommand (js "my location" ++ js "?") = false
  /\ In (js "min position") location_query_phrases
  /\ isLocationQueryCommand (js "min position" ++ js "?") = false.
Proof. vm_compute. tauto. Qed.

(** C8 (amended): a message is the location-query command exactly when its
    trimmed, lower-cased text is one of six texts: the four phrases, and
    [where am i?] and [var ar jag?] (with a-umlaut) with the question mark. *)
Theorem location_query_recognized (message : jsstring) :
  isLocationQueryCommand message = true
  <-> In (toLowerCase (trim message)) recognized_location_queries.
Proof.
  unfold isLocationQueryCommand, recognized_location_queries.
  cbv zeta. rewrite !orb_true_or, !str_eq_true. cbn [In].
  intuition congruence.
Qed.

(** ** GPS parsing *)

(** C7: the Swedish decimal-comma text and the decimal-point text parse to
    the same coordinates, latitude 59.3293 and longitude 18.0686; the text
    [91,200] matches the plain pattern as latitude 91 and longitude 200, is
    refused by the range check, and parses to no location. *)
Theorem parse_swedish_and_invalid :
  coordinates <$> parseLocation (js "59,3293, 18,0686")
    = Some {| lat := 593293 # 10000; lon := 180686 # 10000 |}
  /\ coordinates <$> parseLocation (js "59.3293,18.0686")
    = coordinates <$> parseLocation (js "59,3293, 18,0686")
  /\ (str_match false simple_pattern (js "91,200") ≫= match_coordinates)
    = Some (91 # 1, 200 # 1)
  /\ isValidCoordinate (91 # 1) (200 # 1) = false
  /\ parseLocation (js "91,200") = None.
Proof. vm_compute. repeat split; reflexivity. Qed.

(** ** Credit ledger *)

Lemma getUser_update_user d phone f :
  getUser (update_user d phone f) phone = f <$> getUser d phone.
Proof.
  unfold getUser, update_user, set_users. simpl.
  rewrite lookup_alter. case_decide; [reflexivity | congruence].
Qed.

(** C4: a debit of [n] from a balance [b] is refused without any change when
    [b < n], and otherwise succeeds and leaves [b - n]; a balance that is not
    negative stays so. *)
Theorem deductCredits_spec (d : Db) (phone : jsstring) (u : User)
    (n now : Z) :
  getUser d phone = Some u ->
  let b := credits_remaining u in
  let r := deductCredits d phone n now in
  (b < n -> r = (false, d))
  /\ (n <= b ->
      r.1 = true
      /\ credits_remaining <$> getUser r.2 phone = Some (b - n))
  /\ (0 <= b ->
      forall u', getUser r.2 phone = Some u' -> 0 <= credits_remaining u').
Proof.
  intros Hu b r. subst b r. unfold deductCredits. rewrite Hu.
  destruct (Z.ltb_spec (credits_remaining u) n) as [Hlt | Hge].
  - split; [reflexivity |]. split; [lia |].
    intros Hb u' Hu'. simpl in Hu'. rewrite Hu in Hu'.
    inversion Hu'; subst; exact Hb.
  - split; [lia |]. split.
    + intros _. simpl. rewrite getUser_update_user, Hu. done.
    + intros Hb u'. simpl. rewrite getUser_update_user, Hu. simpl.
      intros [= <-]. simpl. lia.
Qed.

Lemma deductCredits_spec_witness :
  (deductCredits (db_with_balance 3) alice 1 0).1 = true
  /\ credits_remaining
       <$> getUser (deductCredits (db_with_balance 3) alice 1 0).2 alice
     = Some (3 - 1).
Proof.
  apply (deductCredits_spec (db_with_balance 3) alice (sample_user active 3) 1
           0 eq_refl).
  simpl. lia.
Defined.

(** C10: for an identity without an account, [hasCredits] is false for every
    amount and [deductCredits] is refused leaving the whole database, balance
    and transaction log included, as it was. *)
Theorem credits_unknown_identity (d : Db) (phone : jsstring) :
  getUser d phone = None ->
  forall n now, hasCredits d phone n = false
                /\ deductCredits d phone n now = (false, d).
Proof.
  intros Hu n now. unfold hasCredits, deductCredits. rewrite Hu. done.
Qed.

Lemma credits_unknown_identity_witness :
  hasCredits empty_db alice 1 = false
  /\ deductCredits empty_db alice 1 0 = (false, empty_db).
Proof. exact (credits_unknown_identity empty_db alice eq_refl 1 0). Defined.

(** ** Rate limiter *)

Lemma limit_key_inj phone w w' :
  limit_key phone w = limit_key phone w' -> w = w'.
Proof.
  unfold limit_key. intros H. apply app_inv_head in H.
  destruct w, w'; try reflexivity; vm_compute in H; discriminate.
Qed.

Lemma getWindowDuration_pos w : 0 < getWindowDuration w.
Proof. destruct w; simpl; lia. Qed.

Lemma isAllowed_closed rl phone w now :
  window_closed rl phone w now ->
  isAllowed rl phone w now
  = (true, set_limits rl
             (<[limit_key phone w :=
                  {| count := 1; resetAt := now + getWindowDuration w |}]>
                (limits rl))).
Proof.
  unfold window_closed, isAllowed.
  destruct (limits rl !! limit_key phone w) as [e|]; [|reflexivity].
  intros H. apply Z.ltb_lt in H. rewrite H. reflexivity.
Qed.

Lemma isAllowed_below rl phone w now e :
  limits rl !! limit_key phone w = Some e ->
  now <= resetAt e -> count e < getMaxLimit rl w ->
  isAllowed rl phone w now
  = (true, set_limits rl
             (<[limit_key phone w :=
                  {| count := count e + 1; resetAt := resetAt e |}]>
                (limits rl))).
Proof.
  intros He Hnow Hc. unfold isAllowed. rewrite He.
  destruct (Z.ltb_spec (resetAt e) now); [lia|].
  destruct (Z.leb_spec (getMaxLimit rl w) (count e)); [lia|]. reflexivity.
Qed.

Lemma isAllowed_full rl phone w now e :
  limits rl !! limit_key phone w = Some e ->
  now <= resetAt e -> getMaxLimit rl w <= count e ->
  isAllowed rl phone w now = (false, rl).
Proof.
  intros He Hnow Hc. unfold isAllowed. rewrite He.
  destruct (Z.ltb_spec (resetAt e) now); [lia|].
  destruct (Z.leb_spec (getMaxLimit rl w) (count e)); [|lia]. reflexivity.
Qed.

(** Calls inside a running window that stay below the maximum are all
    allowed and each adds one to the counter. *)
Lemma calls_in_window phone w ts : forall rl e,
  limits rl !! limit_key phone w = Some e ->
  Forall (fun t => t <= resetAt e) ts ->
  count e + Z.of_nat (length ts) <= getMaxLimit rl w ->
  let r := calls rl phone w ts in
  Forall (eq true) r.1
  /\ limits r.2 !! limit_key phone w
     = Some {| count := count e + Z.of_nat (length ts);
               resetAt := resetAt e |}
  /\ getMaxLimit r.2 w = getMaxLimit rl w.
Proof.
  induction ts as [|t ts IH]; intros rl e He Hts Hc.
  - simpl. rewrite Z.add_0_r. destruct e; auto.
  - inversion Hts as [|? ? Ht Hts']; subst.
    rewrite length_cons, Nat2Z.inj_succ in Hc. cbn [calls].
    rewrite (isAllowed_below rl phone w t e) by (auto; lia).
    set (rl1 := set_limits rl _).
    assert (Hm1 : getMaxLimit rl1 w = getMaxLimit rl w)
      by (subst rl1; by destruct w).
    specialize (IH rl1 {| count := count e + 1; resetAt := resetAt e |}).
    destruct (calls rl1 phone w ts) as [oks rl2] eqn:Hcalls.
    cbn [fst snd count resetAt] in IH |- *.
    destruct IH as (Hoks & Hl & Hm).
    + subst rl1. cbn [limits set_limits]. apply lookup_insert_eq.
    + exact Hts'.
    + rewrite Hm1. lia.
    + repeat split.
      * constructor; auto.
      * rewrite Hl, length_cons, Nat2Z.inj_succ. f_equal. f_equal. lia.
      * rewrite Hm. exact Hm1.
Qed.

Lemma isAllowed_true rl phone w now rl' :
  isAllowed rl phone w now = (true, rl') ->
  getCount rl' phone w now = getCount rl phone w now + 1
  /\ (forall k, k <> limit_key phone w -> limits rl' !! k = limits rl !! k)
  /\ (forall w', getMaxLimit rl' w' = getMaxLimit rl w').
Proof.
  unfold isAllowed, getCount.
  pose proof (getWindowDuration_pos w) as Hd.
  assert (Hframe : forall e' : RateLimitEntry,
    (forall k, k <> limit_key phone w ->
       limits (set_limits rl (<[limit_key phone w := e']> (limits rl))) !! k
       = limits rl !! k)
    /\ (forall w', getMaxLimit
                    (set_limits rl (<[limit_key phone w := e']> (limits rl))) w'
                  = getMaxLimit rl w')).
  { intros e'. split; [intros k Hk; by apply lookup_insert_ne | by intros []]. }
  destruct (limits rl !! limit_key phone w) as [e|] eqn:He.
  - destruct (Z.ltb_spec (resetAt e) now).
    + intros [= <-]. split; [|apply Hframe].
      cbn [limits set_limits]. rewrite lookup_insert_eq. cbn [count resetAt].
      destruct (Z.leb_spec now (now + getWindowDuration w)); [|lia].
      destruct (Z.leb_spec now (resetAt e)); [lia|]. reflexivity.
    + destruct (Z.leb_spec (getMaxLimit rl w) (count e)); [discriminate|].
      intros [= <-]. split; [|apply Hframe].
      cbn [limits set_limits]. rewrite lookup_insert_eq. cbn [count resetAt].
      destruct (Z.leb_spec now (resetAt e)); [|lia]. reflexivity.
  - intros [= <-]. split; [|apply Hframe].
    cbn [limits set_limits]. rewrite lookup_insert_eq. cbn [count resetAt].
    destruct (Z.leb_spec now (now + getWindowDuration w)); [|lia]. reflexivity.
Qed.

Lemma isAllowed_false rl phone w now rl' :
  isAllowed rl phone w now = (false, rl') -> rl' = rl.
Proof.
  unfold isAllowed.
  destruct (limits rl !! limit_key phone w) as [e|]; [|discriminate].
  destruct (resetAt e <? now); [discriminate|].
  destruct (getMaxLimit rl w <=? count e); [|discriminate].
  by intros [= <-].
Qed.

Lemma limit_key_inj_phone p q w w' :
  limit_key p w = limit_key q w' -> p = q /\ w = w'.
Proof.
  unfold limit_key. intros H.
  assert (Hw : w = w').
  { apply (f_equal last) in H. rewrite !last_app in H.
    destruct w, w'; try reflexivity; vm_compute in H; discriminate. }
  subst w'. split; [|reflexivity]. by apply app_inv_tail in H.
Qed.

Lemma isAllowed_other_keys rl p w now k :
  k <> limit_key p w ->
  limits (isAllowed rl p w now).2 !! k = limits rl !! k.
Proof.
  intros Hk. destruct (isAllowed rl p w now) as [[] rl'] eqn:E; cbn [snd].
  - by apply (isAllowed_true _ _ _ _ _ E).
  - by rewrite (isAllowed_false _ _ _ _ _ E).
Qed.

Lemma isAllowed_max rl p w now w' :
  getMaxLimit (isAllowed rl p w now).2 w' = getMaxLimit rl w'.
Proof.
  destruct (isAllowed rl p w now) as [[] rl'] eqn:E; cbn [snd].
  - by apply (isAllowed_true _ _ _ _ _ E).
  - by rewrite (isAllowed_false _ _ _ _ _ E).
Qed.

Lemma checkLimits_other_keys rl p now k :
  (forall w, k <> limit_key p w) ->
  limits (checkLimits rl p now).2 !! k = limits rl !! k.
Proof.
  intros Hk. unfold checkLimits.
  pose proof (isAllowed_other_keys rl p minute now k (Hk minute)) as H1.
  destruct (isAllowed rl p minute now) as [ok1 rl1]. cbn [snd] in H1.
  destruct ok1; cbn [negb]; [|exact H1].
  pose proof (isAllowed_other_keys rl1 p hour now k (Hk hour)) as H2.
  destruct (isAllowed rl1 p hour now) as [ok2 rl2]. cbn [snd] in H2.
  destruct ok2; cbn [negb]; [|cbn [snd]; congruence].
  pose proof (isAllowed_other_keys rl2 p day now k (Hk day)) as H3.
  destruct (isAllowed rl2 p day now) as [ok3 rl3]. cbn [snd] in H3.
  destruct ok3; cbn [negb snd]; congruence.
Qed.

Lemma checkLimits_max rl p now w :
  getMaxLimit (checkLimits rl p now).2 w = getMaxLimit rl w.
Proof.
  unfold checkLimits.
  pose proof (isAllowed_max rl p minute now w) as H1.
  destruct (isAllowed rl p minute now) as [ok1 rl1]. cbn [snd] in H1.
  destruct ok1; cbn [negb]; [|exact H1].
  pose proof (isAllowed_max rl1 p hour now w) as H2.
  destruct (isAllowed rl1 p hour now) as [ok2 rl2]. cbn [snd] in H2.
  destruct ok2; cbn [negb]; [|cbn [snd]; congruence].
  pose proof (isAllowed_max rl2 p day now w) as H3.
  destruct (isAllowed rl2 p day now) as [ok3 rl3]. cbn [snd] in H3.
  destruct ok3; cbn [negb snd]; congruence.
Qed.

(** C9: when [checkLimits] denies at a window, every window consulted before
    it (minute before hour before day) has had one message counted by this
    call, and the counter of the denying window and of the windows after it
    are as they were. *)
Theorem denied_check_counts_earlier_windows (rl : RateLimiter)
    (phone : jsstring) (now : Z) :
  let r := checkLimits rl phone now in
  allowed r.1 = false ->
  exists w,
    fst <$> reason r.1 = Some w
    /\ (forall w', (window_index w' < window_index w)%nat ->
          getCount r.2 phone w' now = getCount rl phone w' now + 1)
    /\ (forall w', (window_index w <= window_index w')%nat ->
          limits r.2 !! limit_key phone w' = limits rl !! limit_key phone w').
Proof.
  intros r. subst r. unfold checkLimits.
  destruct (isAllowed rl phone minute now) as [[] rl1] eqn:H1; cbn [negb].
  - destruct (isAllowed rl1 phone hour now) as [[] rl2] eqn:H2; cbn [negb].
    + destruct (isAllowed rl2 phone day now) as [[] rl3] eqn:H3; cbn [negb];
        [discriminate|].
      intros _. exists day. split; [reflexivity|].
      apply isAllowed_false in H3. subst rl3.
      apply isAllowed_true in H1 as (Hc1 & Hf1 & _).
      apply isAllowed_true in H2 as (Hc2 & Hf2 & _).
      cbn [fst snd]. split.
      * intros [] Hw; cbn in Hw; try lia.
        -- rewrite <- Hc1. unfold getCount. rewrite Hf2; [reflexivity|].
           intros Hk. apply limit_key_inj in Hk. discriminate.
        -- rewrite Hc2. unfold getCount. rewrite Hf1; [reflexivity|].
           intros Hk. apply limit_key_inj in Hk. discriminate.
      * intros [] Hw; cbn in Hw; try lia.
        rewrite Hf2, Hf1; [reflexivity| |];
          intros Hk; apply limit_key_inj in Hk; discriminate.
    + intros _. exists hour. split; [reflexivity|].
      apply isAllowed_false in H2. subst rl2.
      apply isAllowed_true in H1 as (Hc1 & Hf1 & _).
      cbn [fst snd]. split.
      * intros [] Hw; cbn in Hw; try lia; exact Hc1.
      * intros [] Hw; cbn in Hw; try lia;
          (rewrite Hf1; [reflexivity|]);
          intros Hk; apply limit_key_inj in Hk; discriminate.
  - intros _. exists minute. split; [reflexivity|].
    apply isAllowed_false in H1. subst rl1. cbn [fst snd]. split.
    + intros w' Hw. destruct w'; cbn in Hw; lia.
    + reflexivity.
Qed.

Lemma denied_check_counts_earlier_windows_witness :
  getCount (checkLimits hourly_limiter_used alice 1).2 alice minute 1
  = getCount hourly_limiter_used alice minute 1 + 1
  /\ limits (checkLimits hourly_limiter_used alice 1).2 !! limit_key alice day
     = limits hourly_limiter_used !! limit_key alice day.
Proof.
  destruct (denied_check_counts_earlier_windows hourly_limiter_used alice 1)
    as (w & Hw & Hbefore & Hafter).
  - vm_compute. reflexivity.
  - assert (w = hour) as -> by (vm_compute in Hw; congruence).
    split; [apply Hbefore | apply Hafter]; simpl; lia.
Defined.

(** The same call in numbers: blocked at the hour level, the message still
    takes the minute counter from 1 to 2. *)
Example blocked_at_hour_consumes_minute :
  let r := checkLimits hourly_limiter_used alice 1 in
  r.1 = {| allowed := false; reason := Some (hour, 1) |}
  /\ getCount hourly_limiter_used alice minute 1 = 1
  /\ getCount r.2 alice minute 1 = 2
  /\ getCount r.2 alice hour 1 = 1
  /\ getCount r.2 alice day 1 = 1.
Proof. vm_compute. repeat split; reflexivity. Qed.

(** The limiter of the route (5 a minute, 30 an hour, 200 a day): the sixth
    message of a minute is denied at the minute window; after the reset time
    of that window the identity is allowed again. *)
Example sixth_message_in_a_minute :
  let r := checks (newRateLimiter 5 30 200) alice [0; 1; 2; 3; 4; 5; 60001] in
  allowed <$> r.1 = [true; true; true; true; true; false; true]
  /\ reason <$> r.1
     = [None; None; None; None; None; Some (minute, 5); None]
  /\ getCount r.2 alice minute 60001 = 1
  /\ getCount r.2 alice hour 60001 = 6.
Proof. vm_compute. repeat split; reflexivity. Qed.

(** What [isAllowed] answers, and what it leaves under its own key, depends
    on the entry under that key and on the maximum of the window only. *)
Lemma isAllowed_local rl rl' p w now :
  limits rl !! limit_key p w = limits rl' !! limit_key p w ->
  getMaxLimit rl w = getMaxLimit rl' w ->
  (isAllowed rl p w now).1 = (isAllowed rl' p w now).1
  /\ limits (isAllowed rl p w now).2 !! limit_key p w
     = limits (isAllowed rl' p w now).2 !! limit_key p w.
Proof.
  intros He Hm. unfold isAllowed. cbv zeta. rewrite <- He, <- Hm.
  destruct (limits rl !! limit_key p w) as [e|] eqn:Hrl.
  - destruct (resetAt e <? now);
      [cbn [fst snd limits set_limits]; by rewrite !lookup_insert_eq|].
    destruct (getMaxLimit rl w <=? count e); cbn [fst snd].
    + split; [reflexivity | by rewrite Hrl, <- He].
    + cbn [limits set_limits]. by rewrite !lookup_insert_eq.
  - cbn [fst snd limits set_limits]. by rewrite !lookup_insert_eq.
Qed.

(** [checkLimits] and the window [w] of its identity: the check allows only
    if the window allows; the entry of the window is left as it was, or as
    an allowing [isAllowed] leaves it, and the latter whenever the check
    allows. *)
Lemma checkLimits_window rl p now w :
  (allowed (checkLimits rl p now).1 = true ->
   (isAllowed rl p w now).1 = true
   /\ limits (checkLimits rl p now).2 !! limit_key p w
      = limits (isAllowed rl p w now).2 !! limit_key p w)
  /\ (limits (checkLimits rl p now).2 !! limit_key p w
      = limits rl !! limit_key p w
      \/ ((isAllowed rl p w now).1 = true
          /\ limits (checkLimits rl p now).2 !! limit_key p w
             = limits (isAllowed rl p w now).2 !! limit_key p w)).
Proof.
  assert (Hne : forall w1 w2, w1 <> w2 -> limit_key p w2 <> limit_key p w1).
  { intros w1 w2 Hw Hk. apply limit_key_inj in Hk. congruence. }
  unfold checkLimits.
  pose proof (isAllowed_other_keys rl p minute now) as Hk1.
  pose proof (isAllowed_max rl p minute now) as Hm1.
  destruct (isAllowed rl p minute now) as [ok1 rl1] eqn:E1.
  cbn [snd] in Hk1, Hm1.
  pose proof (isAllowed_other_keys rl1 p hour now) as Hk2.
  pose proof (isAllowed_max rl1 p hour now) as Hm2.
  pose proof (isAllowed_local rl1 rl p hour now
                (Hk1 _ (Hne minute hour ltac:(discriminate))) (Hm1 hour))
    as [Ha2 He2].
  destruct (isAllowed rl1 p hour now) as [ok2 rl2] eqn:E2.
  cbn [fst snd] in Hk2, Hm2, Ha2, He2.
  pose proof (isAllowed_other_keys rl2 p day now) as Hk3.
  assert (Hd : limits rl2 !! limit_key p day = limits rl !! limit_key p day).
  { rewrite Hk2 by (apply Hne; discriminate).
    apply Hk1, Hne. discriminate. }
  pose proof (isAllowed_local rl2 rl p day now Hd
                ltac:(by rewrite Hm2, Hm1)) as [Ha3 He3].
  destruct (isAllowed rl2 p day now) as [ok3 rl3] eqn:E3.
  cbn [fst snd] in Hk3, Ha3, He3.
  assert (Hf1 : ok1 = false -> rl1 = rl)
    by (intros ->; by apply isAllowed_false in E1).
  assert (Hf2 : ok2 = false -> rl2 = rl1)
    by (intros ->; by apply isAllowed_false in E2).
  assert (Hf3 : ok3 = false -> rl3 = rl2)
    by (intros ->; by apply isAllowed_false in E3).
  destruct ok1; cbn [negb fst snd allowed];
    [|rewrite (Hf1 eq_refl); split; [discriminate | by left]].
  destruct ok2; cbn [negb fst snd allowed].
  2:{ rewrite (Hf2 eq_refl). split; [discriminate|].
      destruct w.
      - right. by rewrite E1.
      - left. apply Hk1, Hne. discriminate.
      - left. apply Hk1, Hne. discriminate. }
  destruct ok3; cbn [negb fst snd allowed].
  2:{ rewrite (Hf3 eq_refl). split; [discriminate|].
      destruct w.
      - right. rewrite E1. split; [reflexivity|].
        apply Hk2, Hne. discriminate.
      - right. by rewrite <- Ha2, <- He2.
      - left. exact Hd. }
  assert (H : (isAllowed rl p w now).1 = true
              /\ limits rl3 !! limit_key p w
                 = limits (isAllowed rl p w now).2 !! limit_key p w).
  { destruct w.
    - rewrite E1. split; [reflexivity|].
      rewrite Hk3 by (apply Hne; discriminate).
      apply Hk2, Hne. discriminate.
    - rewrite <- Ha2, <- He2. split; [reflexivity|].
      apply Hk3, Hne. discriminate.
    - by rewrite <- Ha3, <- He3. }
  split; [intros _; exact H | right; exact H].
Qed.

(** [checkLimits] allows exactly when each of the three windows, asked on
    its own, allows. *)
Lemma checkLimits_allowed_iff rl p now :
  allowed (checkLimits rl p now).1 = true
  <-> forall w, (isAllowed rl p w now).1 = true.
Proof.
  split.
  - intros H w. by apply (checkLimits_window rl p now w).
  - intros H.
    assert (Hne : forall w1 w2, w1 <> w2 -> limit_key p w2 <> limit_key p w1).
    { intros w1 w2 Hw Hk. apply limit_key_inj in Hk. congruence. }
    unfold checkLimits.
    pose proof (H minute) as H1.
    pose proof (isAllowed_other_keys rl p minute now) as Hk1.
    pose proof (isAllowed_max rl p minute now) as Hm1.
    destruct (isAllowed rl p minute now) as [ok1 rl1]. cbn [fst snd] in *.
    subst ok1. cbn [negb].
    pose proof (isAllowed_local rl1 rl p hour now
                  (Hk1 _ (Hne minute hour ltac:(discriminate))) (Hm1 hour))
      as [Ha2 _].
    pose proof (isAllowed_other_keys rl1 p hour now) as Hk2.
    pose proof (isAllowed_max rl1 p hour now) as Hm2.
    destruct (isAllowed rl1 p hour now) as [ok2 rl2]. cbn [fst snd] in *.
    rewrite (H hour) in Ha2. subst ok2. cbn [negb].
    assert (Hd : limits rl2 !! limit_key p day = limits rl !! limit_key p day).
    { rewrite Hk2 by (apply Hne; discriminate).
      apply Hk1, Hne. discriminate. }
    pose proof (isAllowed_local rl2 rl p day now Hd
                  ltac:(by rewrite Hm2, Hm1)) as [Ha3 _].
    destruct (isAllowed rl2 p day now) as [ok3 rl3]. cbn [fst snd] in *.
    rewrite (H day) in Ha3. by subst ok3.
Qed.

(** An allowing call inside a running window finds the counter below the
    maximum and adds one to it. *)
Lemma isAllowed_running rl p w now e :
  limits rl !! limit_key p w = Some e -> now <= resetAt e ->
  (isAllowed rl p w now).1 = true ->
  count e < getMaxLimit rl w
  /\ limits (isAllowed rl p w now).2 !! limit_key p w
     = Some {| count := count e + 1; resetAt := resetAt e |}.
Proof.
  intros He Hnow. unfold isAllowed. rewrite He.
  destruct (Z.ltb_spec (resetAt e) now); [lia|].
  destruct (Z.leb_spec (getMaxLimit rl w) (count e)); [discriminate|].
  intros _. split; [lia|]. cbn [snd limits set_limits].
  by rewrite lookup_insert_eq.
Qed.

(** Allowed checks inside a running window each add one to its counter. *)
Lemma checks_in_window p w ts : forall rl e,
  limits rl !! limit_key p w = Some e ->
  Forall (fun t => t <= resetAt e) ts ->
  Forall (fun res => allowed res = true) (checks rl p ts).1 ->
  limits (checks rl p ts).2 !! limit_key p w
  = Some {| count := count e + Z.of_nat (length ts); resetAt := resetAt e |}
  /\ getMaxLimit (checks rl p ts).2 w = getMaxLimit rl w.
Proof.
  induction ts as [|t ts IH]; intros rl e He Hts Hall.
  - cbn. rewrite Z.add_0_r. by destruct e.
  - cbn [checks] in *.
    pose proof (checkLimits_window rl p t w) as [Hw _].
    pose proof (checkLimits_max rl p t w) as Hmax.
    destruct (checkLimits rl p t) as [res rl1]. cbn [fst snd] in *.
    destruct (checks rl1 p ts) as [ress rl2] eqn:Hrest. cbn [fst snd] in *.
    inversion Hts as [|? ? Ht Hts']; subst.
    inversion Hall as [|? ? Hres Hall']; subst.
    destruct (Hw Hres) as [Hok Hentry].
    destruct (isAllowed_running rl p w t e He Ht Hok) as [_ Hstep].
    rewrite Hstep in Hentry.
    specialize (IH rl1 _ Hentry). rewrite Hrest in IH. cbn [fst snd] in IH.
    destruct (IH Hts' Hall') as [Hl Hm]. cbn [count resetAt] in Hl.
    split; [|congruence].
    rewrite Hl, length_cons, Nat2Z.inj_succ. f_equal. f_equal. lia.
Qed.

Lemma checks_other_identities p q w ts : forall rl,
  q <> p ->
  limits (checks rl p ts).2 !! limit_key q w = limits rl !! limit_key q w.
Proof.
  induction ts as [|t ts IH]; intros rl Hq; [reflexivity|].
  cbn [checks].
  pose proof (checkLimits_other_keys rl p t (limit_key q w)) as Hk.
  destruct (checkLimits rl p t) as [res rl1]. cbn [snd] in Hk.
  specialize (IH rl1 Hq).
  destruct (checks rl1 p ts) as [ress rl2]. cbn [snd] in *.
  rewrite IH. apply Hk. intros w' Heq.
  apply limit_key_inj_phone in Heq as [Heq _]. congruence.
Qed.

(** C6, as stated, fails for a maximum of 0: the call that opens a window is
    allowed whatever the maximum, so with a maximum of 0 the first call of a
    period, which the claim has denied, is allowed, by [isAllowed] and by
    [checkLimits]; the limit bites from the second call of the period on. *)
Lemma opening_call_allowed_with_zero_limit :
  getMaxLimit (newRateLimiter 0 30 200) minute = 0
  /\ (isAllowed (newRateLimiter 0 30 200) alice minute 0).1 = true
  /\ allowed (checkLimits (newRateLimiter 0 30 200) alice 0).1 = true
  /\ getCount (checkLimits (newRateLimiter 0 30 200) alice 0).2 alice minute 0
     = 1
  /\ allowed
       (checkLimits (checkLimits (newRateLimiter 0 30 200) alice 0).2 alice
          1).1 = false.
Proof. vm_compute. repeat split; reflexivity. Qed.

(** C6 (amended): for a window with a maximum of at least 1. Starting where
    the window [w] of the identity is not running, let [max] checks, the
    first at [t0] and all inside the period that it opens, be allowed. Then
    the counter of the window stands at [max], and the counters of the other
    identities are as they were. Every further check inside the period is
    refused and leaves the counter at [max], and so does [isAllowed] for the
    window. After the reset time the window allows again, storing a fresh
    counter of 1: [isAllowed] always, and [checkLimits] exactly when the two
    other windows allow as well. *)
Theorem rate_limit_window (rl : RateLimiter) (phone : jsstring) (w : Window)
    (t0 : Z) (ts : list Z) :
  window_closed rl phone w t0 ->
  Forall (fun t => t <= t0 + getWindowDuration w) ts ->
  Z.of_nat (length (t0 :: ts)) = getMaxLimit rl w ->
  Forall (fun res => allowed res = true) (checks rl phone (t0 :: ts)).1 ->
  let rl' := (checks rl phone (t0 :: ts)).2 in
  let key := limit_key phone w in
  let full := {| count := getMaxLimit rl w;
                 resetAt := t0 + getWindowDuration w |} in
  1 <= getMaxLimit rl w
  /\ limits rl' !! key = Some full
  /\ (forall phone' w', phone' <> phone ->
        limits rl' !! limit_key phone' w' = limits rl !! limit_key phone' w')
  /\ (forall t, t <= t0 + getWindowDuration w ->
        allowed (checkLimits rl' phone t).1 = false
        /\ limits (checkLimits rl' phone t).2 !! key = Some full
        /\ isAllowed rl' phone w t = (false, rl'))
  /\ (forall t, t0 + getWindowDuration w < t ->
        let fresh := {| count := 1; resetAt := t + getWindowDuration w |} in
        isAllowed rl' phone w t
        = (true, set_limits rl' (<[key := fresh]> (limits rl')))
        /\ (allowed (checkLimits rl' phone t).1 = true
            <-> forall w', w' <> w -> (isAllowed rl' phone w' t).1 = true)
        /\ (allowed (checkLimits rl' phone t).1 = true ->
            limits (checkLimits rl' phone t).2 !! key = Some fresh)).
Proof.
  intros Hclosed Hts Hlen Hall rl' key full. subst key.
  assert (Hpos : 1 <= getMaxLimit rl w)
    by (rewrite <- Hlen, length_cons, Nat2Z.inj_succ; lia).
  assert (Hothers : forall phone' w', phone' <> phone ->
            limits rl' !! limit_key phone' w'
            = limits rl !! limit_key phone' w')
    by (intros phone' w' Hp; by apply checks_other_identities).
  assert (Hfull : limits rl' !! limit_key phone w = Some full
                  /\ getMaxLimit rl' w = getMaxLimit rl w).
  { subst rl' full. cbn [checks] in *.
    pose proof (checkLimits_window rl phone t0 w) as [Hw _].
    pose proof (checkLimits_max rl phone t0 w) as Hmax.
    destruct (checkLimits rl phone t0) as [res rl1]. cbn [fst snd] in *.
    pose proof (checks_in_window phone w ts rl1) as Hrun.
    destruct (checks rl1 phone ts) as [ress rl2]. cbn [fst snd] in *.
    inversion Hall as [|? ? Hres Hall']; subst.
    destruct (Hw Hres) as [_ Hentry].
    rewrite (isAllowed_closed _ _ _ _ Hclosed) in Hentry.
    cbn [snd limits set_limits] in Hentry.
    rewrite lookup_insert_eq in Hentry.
    destruct (Hrun _ Hentry Hts Hall') as [Hl Hm].
    cbn [count resetAt] in Hl. split; [|congruence].
    rewrite Hl. f_equal. f_equal.
    rewrite length_cons, Nat2Z.inj_succ in Hlen. lia. }
  destruct Hfull as [Hfull Hmax].
  split; [exact Hpos|]. split; [exact Hfull|]. split; [exact Hothers|].
  split.
  - intros t Ht.
    assert (Hdeny : isAllowed rl' phone w t = (false, rl')).
    { apply (isAllowed_full _ _ _ _ _ Hfull); subst full;
        cbn [count resetAt]; lia. }
    destruct (checkLimits_window rl' phone t w) as [Hyes Hkeep].
    repeat split; [| |exact Hdeny].
    + destruct (allowed (checkLimits rl' phone t).1); [|reflexivity].
      destruct (Hyes eq_refl) as [Hok _]. rewrite Hdeny in Hok. discriminate.
    + destruct Hkeep as [-> | [Hok _]]; [exact Hfull|].
      rewrite Hdeny in Hok. discriminate.
  - intros t Ht fresh.
    assert (Hopen : isAllowed rl' phone w t
                    = (true, set_limits rl'
                               (<[limit_key phone w := fresh]> (limits rl')))).
    { apply isAllowed_closed. unfold window_closed.
      rewrite Hfull. exact Ht. }
    split; [exact Hopen|]. split.
    + rewrite checkLimits_allowed_iff. split; [by intros H w' _|].
      intros H w'. destruct (decide (w' = w)) as [->|Hw]; [|by apply H].
      by rewrite Hopen.
    + intros Hok. destruct (checkLimits_window rl' phone t w) as [Hyes _].
      destruct (Hyes Hok) as [_ ->]. rewrite Hopen.
      cbn [snd limits set_limits]. by rewrite lookup_insert_eq.
Qed.

Lemma rate_limit_window_witness :
  limits (checks (newRateLimiter 5 30 200) alice [0; 10; 20; 30; 40]).2
    !! limit_key alice minute
  = Some {| count := 5; resetAt := 60000 |}
  /\ allowed
       (checkLimits
          (checks (newRateLimiter 5 30 200) alice [0; 10; 20; 30; 40]).2
          alice 50).1 = false
  /\ limits
       (checkLimits
          (checks (newRateLimiter 5 30 200) alice [0; 10; 20; 30; 40]).2
          alice 50).2 !! limit_key alice minute
     = Some {| count := 5; resetAt := 60000 |}
  /\ allowed
       (checkLimits
          (checks (newRateLimiter 5 30 200) alice [0; 10; 20; 30; 40]).2
          alice 60001).1 = true
  /\ limits
       (checkLimits
          (checks (newRateLimiter 5 30 200) alice [0; 10; 20; 30; 40]).2
          alice 60001).2 !! limit_key alice minute
     = Some {| count := 1; resetAt := 120001 |}
  /\ limits (checks (newRateLimiter 5 3 200) alice [0; 10; 20]).2
       !! limit_key alice hour
     = Some {| count := 3; resetAt := 3600000 |}
  /\ allowed
       (checkLimits (checks (newRateLimiter 5 3 200) alice [0; 10; 20]).2
          alice 30).1 = false.
Proof.
  destruct (rate_limit_window (newRateLimiter 5 30 200) alice minute 0
              [10; 20; 30; 40])
    as (_ & Hfull & _ & Hdeny & Hagain);
    [exact I | repeat constructor; simpl; lia | reflexivity
    | repeat constructor |].
  destruct (rate_limit_window (newRateLimiter 5 3 200) alice hour 0 [10; 20])
    as (_ & Hfull' & _ & Hdeny' & _);
    [exact I | repeat constructor; simpl; lia | reflexivity
    | repeat constructor |].
  destruct (Hdeny 50 ltac:(simpl; lia)) as (Hno & Hkeep & _).
  destruct (Hagain 60001 ltac:(simpl; lia)) as (_ & Hiff & Hfresh).
  destruct (Hdeny' 30 ltac:(simpl; lia)) as (Hno' & _).
  assert (Hyes : allowed
                   (checkLimits
                      (checks (newRateLimiter 5 30 200) alice
                         [0; 10; 20; 30; 40]).2 alice 60001).1 = true).
  { apply Hiff. intros [] Hw; [done | reflexivity | reflexivity]. }
  split; [exact Hfull|]. split; [exact Hno|]. split; [exact Hkeep|].
  split; [exact Hyes|]. split; [exact (Hfresh Hyes)|].
  split; [exact Hfull' | exact Hno'].
Defined.

(** ** Session store *)

Lemma latest_session_phone rows p s :
  latest_session rows p = Some s -> s ∈ rows /\ phone_number s = p.
Proof.
  induction rows as [|r rows IH]; [discriminate|]. cbn [latest_session].
  destruct (latest_session rows p) as [b|].
  - destruct (str_eq (phone_number r) p && (updated_at b <? updated_at r))
      eqn:Hc.
    + intros [= <-]. apply andb_true_iff in Hc as [Hp _].
      apply str_eq_true in Hp. split; [left | exact Hp].
    + intros [= <-]. destruct (IH eq_refl) as [Hin Hp].
      split; [by right | exact Hp].
  - destruct (str_eq (phone_number r) p) eqn:Hp; [|discriminate].
    intros [= <-]. apply str_eq_true in Hp. split; [left | exact Hp].
Qed.

Lemma latest_session_none rows p :
  latest_session rows p = None <-> Forall (fun r => phone_number r <> p) rows.
Proof.
  induction rows as [|r rows IH]; cbn [latest_session].
  - split; [constructor | reflexivity].
  - destruct (latest_session rows p) as [b|].
    + split.
      * destruct (_ && _); discriminate.
      * intros H. inversion H as [|? ? _ H']; subst.
        apply IH in H'. discriminate.
    + destruct (str_eq (phone_number r) p) eqn:Hp.
      * apply str_eq_true in Hp. split; [discriminate|].
        intros H. inversion H; subst. congruence.
      * split; [|reflexivity]. intros _. constructor.
        -- intros Heq. apply str_eq_true in Heq. congruence.
        -- by apply IH.
Qed.

(** A change of the rows that keeps phone number and update time keeps the
    choice of the latest row. *)
Lemma latest_session_fmap (f : Session -> Session) rows p :
  (forall r, phone_number (f r) = phone_number r) ->
  (forall r, updated_at (f r) = updated_at r) ->
  latest_session (f <$> rows) p = f <$> latest_session rows p.
Proof.
  intros Hp Hu. induction rows as [|r rows IH]; [reflexivity|].
  rewrite fmap_cons. cbn [latest_session]. rewrite IH.
  destruct (latest_session rows p) as [b|]; cbn [fmap option_fmap option_map].
  - rewrite Hp, !Hu. by destruct (_ && _).
  - rewrite Hp. by destruct (str_eq _ _).
Qed.

Lemma set_location_row_phone p loc r :
  phone_number (set_location_row p loc r) = phone_number r.
Proof. unfold set_location_row. by destruct (str_eq _ _). Qed.

Lemma set_location_row_updated p loc r :
  updated_at (set_location_row p loc r) = updated_at r.
Proof. unfold set_location_row. by destruct (str_eq _ _). Qed.

(** With a session row for the identity, whether expired or not, the saved
    fix is read back during the next 24 hours. *)
Lemma saveLocation_read_back d p la lo now now' s :
  latest_session (sessions d) p = Some s ->
  now' - now <= 24 * (1000 * 60 * 60) ->
  getLastLocation (saveLocation d p la lo now) p now' = Some (la, lo).
Proof.
  intros Hs Ht. unfold getLastLocation, saveLocation. cbn [sessions set_sessions].
  rewrite (latest_session_fmap _ _ _ (set_location_row_phone p _)
             (set_location_row_updated p _)).
  rewrite Hs. cbn [fmap option_fmap option_map].
  apply latest_session_phone in Hs as [_ Hp].
  unfold set_location_row. apply str_eq_true in Hp. rewrite Hp.
  cbn [last_location fix_timestamp fix_lat fix_lon].
  destruct (Z.ltb_spec (24 * (1000 * 60 * 60)) (now' - now)); [lia|reflexivity].
Qed.

(** C3 at the failing input: when the identity has no session row the
    [UPDATE] of [saveLocation] matches nothing, the database is unchanged and
    the fix just saved cannot be read back, at any later time. *)
Theorem saveLocation_without_session_row (d : Db) (p : jsstring) (la lo : Q)
    (now : Z) :
  latest_session (sessions d) p = None ->
  sessions (saveLocation d p la lo now) = sessions d
  /\ forall now', getLastLocation (saveLocation d p la lo now) p now' = None.
Proof.
  intros Hnone.
  assert (Hsame : sessions (saveLocation d p la lo now) = sessions d).
  { unfold saveLocation. cbn [sessions set_sessions].
    apply latest_session_none in Hnone.
    induction Hnone as [|r rows Hr _ IH]; [reflexivity|].
    rewrite fmap_cons, IH. f_equal. unfold set_location_row.
    destruct (str_eq (phone_number r) p) eqn:E; [|reflexivity].
    apply str_eq_true in E. congruence. }
  split; [exact Hsame|].
  intros now'. unfold getLastLocation. rewrite Hsame, Hnone. reflexivity.
Qed.

Lemma saveLocation_without_session_row_witness :
  sessions (saveLocation (db_with_balance 3) alice (593293 # 10000)
              (180686 # 10000) 0)
  = sessions (db_with_balance 3)
  /\ getLastLocation
       (saveLocation (db_with_balance 3) alice (593293 # 10000)
          (180686 # 10000) 0) alice 0 = None.
Proof.
  destruct (saveLocation_without_session_row (db_with_balance 3) alice
              (593293 # 10000) (180686 # 10000) 0 eq_refl) as [Hsame Hread].
  split; [exact Hsame | exact (Hread 0)].
Defined.

Lemma latest_session_intro rows p s :
  is_latest rows p s -> latest_session rows p = Some s.
Proof.
  intros (l1 & l2 & -> & Hp & H1 & H2).
  induction l1 as [|x l1 IH].
  - cbn [app latest_session].
    assert (Hs : str_eq (phone_number s) p = true) by by apply str_eq_true.
    destruct (latest_session l2 p) as [b|] eqn:Hb; rewrite Hs; [|reflexivity].
    apply latest_session_phone in Hb as [Hin Hbp].
    rewrite Forall_forall in H2. specialize (H2 b Hin Hbp).
    apply Z.ltb_lt in H2. rewrite H2. reflexivity.
  - inversion H1 as [|? ? Hx H1']; subst.
    cbn [app latest_session]. rewrite (IH H1').
    destruct (str_eq (phone_number x) (phone_number s)) eqn:Hxp;
      [|reflexivity].
    apply str_eq_true in Hxp. specialize (Hx Hxp).
    destruct (Z.ltb_spec (updated_at s) (updated_at x)); [lia|reflexivity].
Qed.

Lemma latest_session_elim rows p s :
  latest_session rows p = Some s -> is_latest rows p s.
Proof.
  revert s. induction rows as [|r rows IH]; intros s; [discriminate|].
  cbn [latest_session].
  destruct (latest_session rows p) as [b|] eqn:Hb.
  - destruct (IH b eq_refl) as (l1 & l2 & -> & Hp & H1 & H2).
    destruct (str_eq (phone_number r) p) eqn:Hrp; cbn [andb].
    + apply str_eq_true in Hrp.
      destruct (Z.ltb_spec (updated_at b) (updated_at r)); intros [= <-].
      * exists [], (l1 ++ b :: l2). repeat split; [exact Hrp | constructor |].
        apply Forall_app. split.
        -- eapply Forall_impl; [exact H1|]. cbn. intros x Hx Hxp.
           specialize (Hx Hxp). lia.
        -- constructor; [intros _; lia|].
           eapply Forall_impl; [exact H2|]. cbn. intros x Hx Hxp.
           specialize (Hx Hxp). lia.
      * exists (r :: l1), l2. repeat split; [exact Hp | | exact H2].
        constructor; [intros _; lia | exact H1].
    + intros [= <-]. exists (r :: l1), l2.
      repeat split; [exact Hp | | exact H2].
      constructor; [|exact H1].
      intros Hc. apply str_eq_true in Hc. congruence.
  - destruct (str_eq (phone_number r) p) eqn:Hrp; [|discriminate].
    intros [= <-]. apply str_eq_true in Hrp.
    exists [], rows. repeat split; [exact Hrp | constructor |].
    apply latest_session_none in Hb.
    eapply Forall_impl; [exact Hb|]. cbn. intros x Hx Hxp. congruence.
Qed.

Lemma update_session_row_other sid msgs resp now (l : list Session) :
  sid ∉ id <$> l ->
  update_session_row sid msgs resp now <$> l = l.
Proof.
  induction l as [|x l IH]; [reflexivity|].
  rewrite !fmap_cons, not_elem_of_cons. intros [Hx Hl].
  rewrite (IH Hl). f_equal. unfold update_session_row.
  destruct (Z.eqb_spec (id x) sid); [congruence | reflexivity].
Qed.

(** After the [UPDATE] of [updateSession] the updated row is still the one
    [getSession] selects. *)
Lemma latest_session_updated rows p s msgs resp now :
  NoDup (id <$> rows) ->
  Forall (fun r => updated_at r <= now) rows ->
  latest_session rows p = Some s ->
  latest_session (update_session_row (id s) msgs resp now <$> rows) p
  = Some (update_session_row (id s) msgs resp now s).
Proof.
  intros Hnd Hle Hs.
  destruct (latest_session_elim _ _ _ Hs) as (l1 & l2 & -> & Hp & H1 & H2).
  rewrite fmap_app, fmap_cons in Hnd. rewrite fmap_app, fmap_cons.
  apply NoDup_app in Hnd as (Hnd1 & Hdisj & Hnd2).
  apply NoDup_cons in Hnd2 as [Hs2 _].
  assert (Hs1 : id s ∉ id <$> l1).
  { intros Hin. apply (Hdisj _ Hin). left. }
  rewrite (update_session_row_other _ _ _ _ l1 Hs1).
  rewrite (update_session_row_other _ _ _ _ l2 Hs2).
  apply Forall_app in Hle as [Hle1 Hle2].
  inversion Hle2 as [|? ? Hsle Hle2']; subst.
  assert (Hself : update_session_row (id s) msgs resp now s
                  = {| id := id s; phone_number := phone_number s;
                       messages := msgs; last_ai_response := Some resp;
                       last_location := last_location s;
                       created_at := created_at s; updated_at := now |}).
  { unfold update_session_row. by rewrite Z.eqb_refl. }
  rewrite Hself.
  apply latest_session_intro. exists l1, l2.
  cbn [phone_number updated_at].
  repeat split.
  - eapply Forall_impl; [exact Hle1|]. cbn. intros x Hx _. exact Hx.
  - eapply Forall_impl; [exact H2|]. cbn. intros x Hx Hxp.
    specialize (Hx Hxp). lia.
Qed.

Lemma slice_last_short n (l : list (list N)) :
  (length l <= n)%nat -> slice_last n l = l.
Proof.
  intros H. unfold slice_last.
  replace (length l - n)%nat with 0%nat by lia. reflexivity.
Qed.

Lemma slice_last_length n (l : list (list N)) :
  length (slice_last n l) = Nat.min (length l) n.
Proof. unfold slice_last. rewrite length_drop. lia. Qed.

Lemma slice_last_app n (l k : list (list N)) :
  slice_last n (slice_last n l ++ k) = slice_last n (l ++ k).
Proof.
  unfold slice_last.
  destruct (Nat.le_gt_cases (length l) n) as [Hle | Hgt].
  - replace (length l - n)%nat with 0%nat by lia. reflexivity.
  - rewrite <- (drop_app_le l k (length l - n)) by lia.
    rewrite drop_drop. f_equal.
    rewrite length_drop, !length_app. lia.
Qed.

(** The message sequence written by [updateSession] for a truthy message. *)
Lemma pushed_messages (old : list (list N)) (m : list N) :
  (if (MAX_MESSAGES <? length (old ++ [m]))%nat
   then slice_last MAX_MESSAGES (old ++ [m]) else old ++ [m])
  = slice_last MAX_MESSAGES (old ++ [m]).
Proof.
  destruct (Nat.ltb_spec MAX_MESSAGES (length (old ++ [m])));
    [reflexivity|]. symmetry. by apply slice_last_short.
Qed.

Lemma getSession_fresh d p s now now' :
  latest_session (sessions d) p = Some s ->
  updated_at s = now -> now' - now <= SESSION_TIMEOUT_MS ->
  getSession d p now' = Some s.
Proof.
  intros Hs Hu Ht. unfold getSession, isSessionExpired. rewrite Hs, Hu.
  unfold SESSION_TIMEOUT_MS in Ht.
  destruct (Z.ltb_spec (SESSION_TIMEOUT_MINUTES * (1000 * 60)) (now' - now));
    [lia | reflexivity].
Qed.

Lemma getSession_elem d p t s : getSession d p t = Some s -> s ∈ sessions d.
Proof.
  unfold getSession.
  destruct (latest_session (sessions d) p) as [s0|] eqn:Hs; [|discriminate].
  destruct (isSessionExpired s0 t); [discriminate|]. intros [= <-].
  by apply latest_session_phone in Hs as [? _].
Qed.

Lemma getSession_none_later d p now now' :
  getSession d p now = None -> now <= now' -> getSession d p now' = None.
Proof.
  unfold getSession, isSessionExpired.
  destruct (latest_session (sessions d) p) as [s|]; [|reflexivity].
  destruct (Z.ltb_spec (SESSION_TIMEOUT_MINUTES * (1000 * 60))
              (now - updated_at s)); [|discriminate].
  intros _ Ht.
  destruct (Z.ltb_spec (SESSION_TIMEOUT_MINUTES * (1000 * 60))
              (now' - updated_at s)); [reflexivity | lia].
Qed.

(** One call of [updateSession], read back before the session expires: the
    stored sequence is the one before followed by the message of the call
    when it has one, cut to the last three. *)
Lemma updateSession_context d p m resp now now' :
  sessions_wf d now -> window_bounded d ->
  now <= now' -> now' - now <= SESSION_TIMEOUT_MS ->
  ctx_messages (getContext (updateSession d p m resp now) p now')
  = slice_last MAX_MESSAGES
      (ctx_messages (getContext d p now) ++ option_list (truthy m)).
Proof.
  intros (Hnd & Hid & Hle) Hb Hnow Ht.
  unfold getContext at 2. unfold updateSession.
  destruct (getSession d p now) as [s|] eqn:Hget.
  - pose proof (getSession_elem _ _ _ _ Hget) as Hin.
    unfold getSession in Hget.
    destruct (latest_session (sessions d) p) as [s0|] eqn:Hs; [|discriminate].
    destruct (isSessionExpired s0 now); [discriminate|].
    injection Hget as ->.
    set (msgs := match truthy m with Some _ => _ | None => _ end).
    assert (Hmsgs : msgs = slice_last MAX_MESSAGES
                             (messages s ++ option_list (truthy m))).
    { subst msgs. destruct (truthy m) as [m'|]; cbn [option_list].
      - cbv zeta. apply pushed_messages.
      - rewrite app_nil_r. symmetry. apply slice_last_short.
        unfold window_bounded in Hb. rewrite Forall_forall in Hb.
        by apply Hb. }
    clearbody msgs.
    pose proof (latest_session_updated _ _ _ msgs resp now Hnd Hle Hs) as Hnew.
    unfold getContext.
    erewrite getSession_fresh; [| exact Hnew | | exact Ht].
    + unfold update_session_row. rewrite Z.eqb_refl. exact Hmsgs.
    + unfold update_session_row. rewrite Z.eqb_refl. reflexivity.
  - destruct (truthy m) as [m'|]; cbn [ctx_messages option_list app].
    + unfold createSession. cbn [snd].
      set (row := {| id := next_session_id d; phone_number := p;
                     messages := [m']; last_ai_response := None;
                     last_location := None; created_at := now;
                     updated_at := now |}).
      unfold getContext.
      erewrite (getSession_fresh _ p row now now');
        [reflexivity | | reflexivity | exact Ht].
      cbn [sessions]. apply latest_session_intro.
      exists (sessions d), []. repeat split; [| constructor].
      eapply Forall_impl; [exact Hle|]. cbn. intros x Hx _. exact Hx.
    + unfold getContext.
      by rewrite (getSession_none_later _ _ _ _ Hget Hnow).
Qed.

Lemma update_session_row_id sid msgs resp now r :
  id (update_session_row sid msgs resp now r) = id r.
Proof. unfold update_session_row. by destruct (_ =? _). Qed.

Lemma set_location_row_id p loc r : id (set_location_row p loc r) = id r.
Proof. unfold set_location_row. by destruct (str_eq _ _). Qed.

Lemma fmap_id_preserved (f : Session -> Session) (rows : list Session) :
  (forall r, id (f r) = id r) -> id <$> (f <$> rows) = id <$> rows.
Proof.
  intros H. rewrite <- list_fmap_compose. apply list_fmap_ext.
  intros i x _. apply H.
Qed.

Lemma sessions_wf_later d t t' : sessions_wf d t -> t <= t' -> sessions_wf d t'.
Proof.
  intros (Hnd & Hid & Hle) Ht. repeat split; [exact Hnd | exact Hid |].
  eapply Forall_impl; [exact Hle|]. cbn. intros; lia.
Qed.

Lemma createSession_wf d p m t :
  sessions_wf d t -> sessions_wf (createSession d p m t).2 t.
Proof.
  intros (Hnd & Hid & Hle). unfold createSession, sessions_wf.
  cbn [snd sessions next_session_id].
  rewrite fmap_app, !Forall_app. cbn [fmap list_fmap]. repeat split.
  - apply NoDup_app. repeat split; [exact Hnd | | apply NoDup_singleton].
    intros x Hx Hin. apply list_elem_of_singleton in Hin. subst x.
    apply list_elem_of_fmap in Hx as (r & Hr & Hin).
    rewrite Forall_forall in Hid. specialize (Hid r Hin).
    cbn [id] in Hr. lia.
  - eapply Forall_impl; [exact Hid|]. cbn. intros; lia.
  - repeat constructor. cbn [id]. lia.
  - exact Hle.
  - repeat constructor. cbn [updated_at]. lia.
Qed.

Lemma updateSession_wf d p m resp t :
  sessions_wf d t -> sessions_wf (updateSession d p m resp t) t.
Proof.
  intros Hwf. unfold updateSession.
  destruct (getSession d p t) as [s|].
  - destruct Hwf as (Hnd & Hid & Hle). unfold sessions_wf.
    cbn [sessions set_sessions next_session_id].
    rewrite (fmap_id_preserved _ _ (update_session_row_id _ _ _ _)).
    repeat split; [exact Hnd | |].
    + apply Forall_fmap. eapply Forall_impl; [exact Hid|]. cbn.
      intros x Hx. by rewrite update_session_row_id.
    + apply Forall_fmap. eapply Forall_impl; [exact Hle|]. cbn.
      intros x Hx. unfold update_session_row.
      destruct (_ =? _); cbn [updated_at]; lia.
  - destruct (truthy m); [by apply createSession_wf | exact Hwf].
Qed.

Lemma createSession_bounded d p m t :
  window_bounded d -> window_bounded (createSession d p m t).2.
Proof.
  intros H. unfold window_bounded, createSession. cbn [snd sessions].
  apply Forall_app. split; [exact H|]. repeat constructor.
Qed.

Lemma updateSession_bounded d p m resp t :
  window_bounded d -> window_bounded (updateSession d p m resp t).
Proof.
  intros H. unfold updateSession.
  destruct (getSession d p t) as [s|] eqn:Hget.
  - pose proof H as Hall. unfold window_bounded in Hall.
    rewrite Forall_forall in Hall.
    specialize (Hall s (getSession_elem _ _ _ _ Hget)). cbn beta in Hall.
    set (msgs := match truthy m with Some _ => _ | None => _ end).
    assert (Hmsgs : (length msgs <= MAX_MESSAGES)%nat).
    { subst msgs. destruct (truthy m) as [m'|]; [|exact Hall].
      cbv zeta. rewrite pushed_messages, slice_last_length. lia. }
    clearbody msgs. unfold window_bounded in *. cbn [sessions set_sessions].
    apply Forall_fmap. eapply Forall_impl; [exact H|]. cbn beta.
    intros x Hx. unfold compose, update_session_row.
    destruct (_ =? _); [exact Hmsgs | exact Hx].
  - destruct (truthy m); [by apply createSession_bounded | exact H].
Qed.

Lemma Forall_filter_keep {A} (P Q : A -> Prop) `{!forall x, Decision (Q x)}
    (l : list A) :
  Forall P l -> Forall P (filter Q l).
Proof.
  rewrite !Forall_forall. intros Hall x Hx.
  apply list_elem_of_filter in Hx as [_ Hx]. by apply Hall.
Qed.

(** In every database the services can produce, [sessions] is well formed
    and no stored message sequence is longer than three. *)
Lemma reachable_invariant d t :
  reachable d t -> sessions_wf d t /\ window_bounded d.
Proof.
  induction 1 as [d t Hempty | d t t' _ [Hwf Hb] Ht | d t p m _ [Hwf Hb]
                  | d t p m r _ [Hwf Hb] | d t p la lo _ [Hwf Hb]
                  | d t _ [Hwf Hb] | d t u txs _ [Hwf Hb]].
  - unfold sessions_wf, window_bounded. rewrite Hempty.
    repeat split; constructor.
  - split; [by eapply sessions_wf_later | exact Hb].
  - split; [by apply createSession_wf | by apply createSession_bounded].
  - split; [by apply updateSession_wf | by apply updateSession_bounded].
  - destruct Hwf as (Hnd & Hid & Hle). unfold sessions_wf, window_bounded.
    unfold saveLocation. cbn [sessions set_sessions next_session_id].
    rewrite (fmap_id_preserved _ _ (set_location_row_id _ _)).
    unfold window_bounded in Hb.
    repeat split; [exact Hnd | | |]; apply Forall_fmap;
      [eapply Forall_impl; [exact Hid|]
      |eapply Forall_impl; [exact Hle|]
      |eapply Forall_impl; [exact Hb|]];
      cbn beta; intros x Hx; unfold compose, set_location_row;
      by destruct (str_eq _ _).
  - destruct Hwf as (Hnd & Hid & Hle). unfold sessions_wf, window_bounded.
    unfold clearExpiredSessions. cbn [sessions set_sessions next_session_id].
    repeat split.
    + eapply sublist_NoDup; [exact Hnd|].
      apply fmap_sublist, sublist_filter.
    + by apply Forall_filter_keep.
    + by apply Forall_filter_keep.
    + by apply Forall_filter_keep.
  - exact (conj Hwf Hb).
Qed.

Lemma appendAll_bounded p evs : forall d,
  window_bounded d -> window_bounded (appendAll d p evs).
Proof.
  induction evs as [|ev evs IH]; intros d Hb; [exact Hb|].
  cbn [appendAll]. apply IH. by apply updateSession_bounded.
Qed.

Lemma last_time_cons t ev evs :
  last_time t (ev :: evs) = last_time (at_time ev) evs.
Proof.
  unfold last_time. destruct evs as [|e2 evs]; [reflexivity|].
  rewrite last_cons_cons.
  destruct (last (e2 :: evs)) eqn:E; [reflexivity|].
  rewrite last_cons in E. destruct (last evs); discriminate.
Qed.

(** A run of calls that keeps the session alive, read back at the time of
    the last call: the stored sequence is the one found at the first call
    followed by the appended messages, cut to the last three. *)
Lemma appendAll_context p evs : forall d ev,
  sessions_wf d (at_time ev) -> window_bounded d ->
  unexpired_run (at_time ev) evs ->
  ctx_messages
    (getContext (appendAll d p (ev :: evs)) p (last_time (at_time ev) evs))
  = slice_last MAX_MESSAGES
      (ctx_messages (getContext d p (at_time ev)) ++ appended (ev :: evs)).
Proof.
  induction evs as [|e2 evs IH]; intros d ev Hwf Hb Hrun.
  - cbn [appendAll]. unfold last_time, appended. cbn [last omap list_omap].
    rewrite (updateSession_context d p _ _ (at_time ev) (at_time ev) Hwf Hb);
      [| lia | unfold SESSION_TIMEOUT_MS, SESSION_TIMEOUT_MINUTES; lia].
    by destruct (truthy (user_message ev)).
  - destruct Hrun as (Hle & Hgap & Hrun).
    rewrite last_time_cons.
    change (appendAll d p (ev :: e2 :: evs))
      with (appendAll (updateSession d p (user_message ev) (ai_reply ev)
                         (at_time ev)) p (e2 :: evs)).
    rewrite IH; [| | | exact Hrun].
    + rewrite (updateSession_context d p _ _ (at_time ev) (at_time e2) Hwf Hb
                 Hle Hgap).
      rewrite slice_last_app, <- app_assoc. f_equal. f_equal.
      unfold appended. cbn [omap list_omap].
      by destruct (truthy (user_message ev)).
    + eapply sessions_wf_later; [by apply updateSession_wf | exact Hle].
    + by apply updateSession_bounded.
Qed.

(** C5: in every database the services can produce, for every identity
    without a current session, a run of [updateSession] calls that keeps the
    session alive leaves no stored sequence longer than three and, as the
    sequence of the identity, exactly the last [min N 3] of the [N] messages
    the calls appended, in the order of arrival. *)
Theorem session_window_fifo (d : Db) (p : jsstring) (ev : Append)
    (evs : list Append) :
  reachable d (at_time ev) ->
  getSession d p (at_time ev) = None ->
  unexpired_run (at_time ev) evs ->
  let d' := appendAll d p (ev :: evs) in
  let stored :=
    ctx_messages (getContext d' p (last_time (at_time ev) evs)) in
  let msgs := appended (ev :: evs) in
  let n := length msgs in
  window_bounded d'
  /\ (length stored <= 3)%nat
  /\ length stored = Nat.min n 3
  /\ stored = drop (n - Nat.min n 3) msgs.
Proof.
  intros Hreach Hnone Hrun d' stored msgs n.
  destruct (reachable_invariant _ _ Hreach) as [Hwf Hb].
  assert (Hstored : stored = slice_last MAX_MESSAGES msgs).
  { subst stored d' msgs. rewrite (appendAll_context p evs d ev Hwf Hb Hrun).
    unfold getContext. rewrite Hnone. reflexivity. }
  split; [by apply appendAll_bounded|].
  rewrite Hstored, slice_last_length. fold n. unfold MAX_MESSAGES.
  repeat split; [lia|].
  unfold slice_last. fold n. f_equal. lia.
Qed.

Lemma session_window_fifo_witness :
  window_bounded (appendAll empty_db alice (first_append :: sample_run))
  /\ ctx_messages
       (getContext (appendAll empty_db alice (first_append :: sample_run))
          alice 4000)
     = [js "b"; js "c"; js "d"].
Proof.
  destruct (session_window_fifo empty_db alice first_append sample_run)
    as (Hb & _ & _ & Hstored).
  - apply reach_start. reflexivity.
  - reflexivity.
  - cbn. unfold SESSION_TIMEOUT_MS, SESSION_TIMEOUT_MINUTES.
    repeat split; lia.
  - split; [exact Hb | exact Hstored].
Defined.

Lemma latest_session_skip l1 x l2 p :
  phone_number x <> p ->
  latest_session (l1 ++ x :: l2) p = latest_session (l1 ++ l2) p.
Proof.
  intros Hx. induction l1 as [|y l1 IH]; cbn [app latest_session].
  - assert (Hne : str_eq (phone_number x) p = false).
    { destruct (str_eq (phone_number x) p) eqn:E; [|reflexivity].
      apply str_eq_true in E. congruence. }
    rewrite Hne. by destruct (latest_session l2 p).
  - by rewrite IH.
Qed.

(** A call of [updateSession] for one identity leaves the current session
    row of every other identity as it was. *)
Lemma updateSession_frame d p q m resp now :
  sessions_wf d now -> q <> p ->
  latest_session (sessions (updateSession d q m resp now)) p
  = latest_session (sessions d) p.
Proof.
  intros (Hnd & _ & _) Hqp. unfold updateSession.
  destruct (getSession d q now) as [s|] eqn:Hget.
  - cbn [sessions set_sessions].
    unfold getSession in Hget.
    destruct (latest_session (sessions d) q) as [s0|] eqn:Hs; [|discriminate].
    destruct (isSessionExpired s0 now); [discriminate|]. injection Hget as ->.
    destruct (latest_session_elim _ _ _ Hs) as (l1 & l2 & Hrows & Hp & _ & _).
    rewrite Hrows in Hnd |- *.
    rewrite fmap_app, fmap_cons in Hnd. rewrite fmap_app, fmap_cons.
    apply NoDup_app in Hnd as (_ & Hdisj & Hnd2).
    apply NoDup_cons in Hnd2 as [Hs2 _].
    rewrite (update_session_row_other _ _ _ _ l1)
      by (intros Hin; apply (Hdisj _ Hin); left).
    rewrite (update_session_row_other _ _ _ _ l2 Hs2).
    rewrite !latest_session_skip; [reflexivity | congruence |].
    unfold update_session_row. rewrite Z.eqb_refl. cbn [phone_number].
    congruence.
  - destruct (truthy m) as [m'|]; [|reflexivity].
    unfold createSession. cbn [snd sessions].
    rewrite latest_session_skip by (cbn [phone_number]; exact Hqp).
    by rewrite app_nil_r.
Qed.

(** ** Texts without digits never hold a location *)

Lemma is_digit_false c : is_digit c = false <-> (c < 48 \/ 57 < c)%N.
Proof.
  unfold is_digit. rewrite andb_false_iff, !N.leb_gt. reflexivity.
Qed.

Lemma non_digit_case c :
  is_digit c = false ->
  is_digit (upper_unit c) = false /\ is_digit (lower_unit c) = false.
Proof.
  rewrite !is_digit_false. unfold upper_unit, lower_unit. intros H.
  destruct (N.leb_spec 97 c), (N.leb_spec c 122), (N.leb_spec 224 c),
    (N.leb_spec c 254), (N.eqb_spec c 247), (N.leb_spec 65 c),
    (N.leb_spec c 90), (N.leb_spec 192 c), (N.leb_spec c 222),
    (N.eqb_spec c 215); cbn [andb negb]; lia.
Qed.

(** When the continuation fails on every text made of characters [Q], so
    does the match on such a text: the continuation only sees its suffixes. *)
Lemma rmatch_none_cont (Q : N -> Prop) ci total r :
  forall k s c,
    Forall Q s ->
    (forall s' c', Forall Q s' -> k s' c' = None) ->
    rmatch ci total r k s c = None.
Proof.
  induction r as [a | ranges | | | a IHa b IHb | a IHa b IHb | a IHa
                 | i a IHa | | |]; intros k s c Hs Hk; cbn [rmatch].
  - destruct s as [|b s]; [reflexivity|]. inversion Hs; subst.
    destruct (char_eq ci a b); [by apply Hk | reflexivity].
  - destruct s as [|b s]; [reflexivity|]. inversion Hs; subst.
    destruct (set_match ci ranges b); [by apply Hk | reflexivity].
  - destruct s as [|b s]; [reflexivity|]. inversion Hs; subst.
    destruct (is_line_terminator b); [reflexivity | by apply Hk].
  - destruct s as [|b s]; [reflexivity|]. inversion Hs; subst.
    destruct (is_js_space b); [by apply Hk | reflexivity].
  - apply IHa; [exact Hs|]. intros s' c' Hs'. by apply IHb.
  - rewrite (IHa k s c Hs Hk). by apply IHb.
  - generalize (length s) at 1. intros fuel. revert s c Hs.
    induction fuel as [|fuel IHfuel]; intros s c Hs; [by apply Hk|].
    rewrite IHa; [by apply Hk | exact Hs |].
    intros s' c' Hs'. destruct (_ <? _)%nat; [by apply IHfuel | reflexivity].
  - apply IHa; [exact Hs|]. intros s' c' Hs'. by apply Hk.
  - destruct (_ =? _)%nat; [by apply Hk | reflexivity].
  - destruct s; [by apply Hk | reflexivity].
  - by apply Hk.
Qed.

Lemma in_ranges_digits ranges x :
  forallb (fun r => (48 <=? r.1) && (r.2 <=? 57))%N ranges = true ->
  is_digit x = false -> in_ranges ranges x = false.
Proof.
  rewrite is_digit_false. intros Hall Hx. unfold in_ranges.
  induction ranges as [|[lo hi] ranges IH]; [reflexivity|].
  cbn [forallb existsb fst snd] in *.
  apply andb_true_iff in Hall as [Hr Hall].
  apply andb_true_iff in Hr as [Hlo Hhi].
  apply N.leb_le in Hlo, Hhi. rewrite (IH Hall), orb_false_r.
  apply andb_false_iff. rewrite !N.leb_gt. lia.
Qed.

Lemma rmatch_needs_digit ci total r :
  needs_digit r = true ->
  forall k s c, Forall (fun x => is_digit x = false) s ->
                rmatch ci total r k s c = None.
Proof.
  induction r as [a | ranges | | | a IHa b IHb | a IHa b IHb | a IHa
                 | i a IHa | | |]; cbn [needs_digit]; try discriminate;
    intros Hneed k s c Hs; cbn [rmatch].
  - destruct s as [|b s]; [reflexivity|]. inversion Hs as [|? ? Hb _]; subst.
    destruct (non_digit_case b Hb) as [Hup Hlow].
    unfold set_match.
    rewrite !(in_ranges_digits ranges) by assumption.
    by destruct ci.
  - apply orb_true_iff in Hneed as [Ha | Hb].
    + by apply IHa.
    + apply (rmatch_none_cont (fun x => is_digit x = false)); [exact Hs|].
      intros s' c' Hs'. by apply IHb.
  - apply andb_true_iff in Hneed as [Ha Hb].
    rewrite (IHa Ha k s c Hs). by apply IHb.
  - by apply IHa.
Qed.

Lemma str_match_needs_digit ci r text :
  needs_digit r = true ->
  Forall (fun x => is_digit x = false) text ->
  str_match ci r text = None.
Proof.
  intros Hneed. unfold str_match. generalize (length text).
  intros total Htext. induction text as [|x text IH]; cbn [rsearch].
  - by rewrite rmatch_needs_digit.
  - rewrite rmatch_needs_digit by assumption.
    apply IH. by inversion Htext.
Qed.

(** A message whose trimmed text holds no digit is not a location. *)
Lemma parseLocation_no_digit message :
  Forall (fun x => is_digit x = false) (trim message) ->
  parseLocation message = None.
Proof.
  intros H. unfold parseLocation, first_match.
  rewrite !(str_match_needs_digit true) by (assumption || reflexivity).
  unfold coordPatterns, parse_raw.
  rewrite (str_match_needs_digit false simple_pattern) by
    (assumption || reflexivity).
  rewrite !(str_match_needs_digit true) by (assumption || reflexivity).
  reflexivity.
Qed.

(** ** Trimming *)

Lemma trimStart_split s :
  exists ws, s = ws ++ trimStart s /\ Forall (fun c => is_js_space c = true) ws.
Proof.
  induction s as [|c s (ws & Hs & Hws)]; [by exists []|].
  cbn [trimStart]. destruct (is_js_space c) eqn:Hc.
  - exists (c :: ws). split; [cbn; congruence | by constructor].
  - by exists [].
Qed.

(** A text is its trimmed text between two runs of white space. *)
Lemma trim_split s :
  exists ws1 ws2,
    s = ws1 ++ trim s ++ ws2
    /\ Forall (fun c => is_js_space c = true) ws1
    /\ Forall (fun c => is_js_space c = true) ws2.
Proof.
  destruct (trimStart_split s) as (ws1 & Hs & Hws1).
  destruct (trimStart_split (reverse (trimStart s))) as (ws2 & Hr & Hws2).
  exists ws1, (reverse ws2). repeat split; [| exact Hws1 |].
  - rewrite Hs at 1. f_equal. unfold trim, trimEnd.
    rewrite <- reverse_app, <- Hr. by rewrite reverse_involutive.
  - rewrite Forall_forall in Hws2 |- *. intros c Hc.
    apply Hws2. by apply elem_of_reverse.
Qed.

Lemma js_space_lower c : is_js_space c = true -> lower_unit c = c.
Proof.
  unfold is_js_space, lower_unit. intros H.
  apply orb_true_iff in H as [H | H].
  - apply bool_decide_eq_true in H.
    repeat (apply elem_of_cons in H as [-> | H]; [reflexivity|]).
    by apply elem_of_nil in H.
  - apply andb_true_iff in H as [H1 H2]. apply N.leb_le in H1, H2.
    destruct (N.leb_spec 65 c), (N.leb_spec c 90), (N.leb_spec 192 c),
      (N.leb_spec c 222); cbn [andb]; try reflexivity; lia.
Qed.

Lemma lower_digit c : is_digit (lower_unit c) = false -> is_digit c = false.
Proof.
  rewrite !is_digit_false. unfold lower_unit.
  destruct (N.leb_spec 65 c), (N.leb_spec c 90), (N.leb_spec 192 c),
    (N.leb_spec c 222), (N.eqb_spec c 215); cbn [andb negb]; lia.
Qed.

(** A message that normalizes to a phrase without digits is not a
    location. *)
Lemma command_is_no_location message phrase :
  toLowerCase (trim message) = phrase ->
  forallb (fun c => negb (is_digit c)) phrase = true ->
  parseLocation message = None.
Proof.
  intros Hn Hphrase. apply parseLocation_no_digit.
  rewrite forallb_forall in Hphrase. rewrite Forall_forall. intros c Hc.
  apply lower_digit. apply negb_true_iff, Hphrase.
  rewrite <- Hn. apply list_elem_of_In. unfold toLowerCase.
  by apply list_elem_of_fmap_2.
Qed.

Lemma includes_elem s p :
  includes s p = true -> forall c, c ∈ p -> c ∈ s.
Proof.
  assert (Hsw : forall p s, startsWith s p = true -> forall c, c ∈ p -> c ∈ s).
  { clear. induction p as [|a p IH]; intros s H c Hc; [by apply elem_of_nil in Hc|].
    destruct s as [|b s]; [discriminate|]. cbn [startsWith] in H.
    apply andb_true_iff in H as [Hab H]. apply N.eqb_eq in Hab. subst b.
    apply elem_of_cons in Hc as [-> | Hc]; [left | right; by apply (IH s)]. }
  induction s as [|b s IH]; cbn [includes]; intros H c Hc.
  - rewrite orb_false_r in H. by apply (Hsw p).
  - apply orb_true_iff in H as [H | H]; [by apply (Hsw p)|].
    right. by apply IH.
Qed.

(** A keyword holding a character that the text cannot contain is not in
    the text. *)
Lemma includes_outside (ok : N -> bool) s p :
  Forall (fun c => ok c = true) s ->
  existsb (fun c => negb (ok c)) p = true ->
  includes s p = false.
Proof.
  intros Hs Hp. destruct (includes s p) eqn:Hinc; [|reflexivity].
  apply existsb_exists in Hp as (c & Hc & Hnok).
  apply list_elem_of_In in Hc.
  pose proof (includes_elem _ _ Hinc c Hc) as Hin.
  rewrite Forall_forall in Hs. rewrite (Hs c Hin) in Hnok. discriminate.
Qed.

(** The normalized text of a MORE command. *)
Lemma isMoreCommand_phrase m :
  isMoreCommand m = true ->
  toLowerCase (trim m) = js "more"
  \/ toLowerCase (trim m) = js "more info"
  \/ toLowerCase (trim m) = js "tell me more".
Proof.
  unfold isMoreCommand. cbv zeta. rewrite !orb_true_or, !str_eq_true. tauto.
Qed.

Lemma more_text_alphabet m :
  isMoreCommand m = true ->
  Forall (fun c => more_alphabet c = true) (toLowerCase m).
Proof.
  intros Hm. destruct (trim_split m) as (ws1 & ws2 & Hsplit & H1 & H2).
  assert (Hws : forall ws, Forall (fun c => is_js_space c = true) ws ->
                Forall (fun c => more_alphabet c = true) (toLowerCase ws)).
  { intros ws Hws. unfold toLowerCase. apply Forall_fmap.
    eapply Forall_impl; [exact Hws|]. cbn. intros c Hc.
    rewrite (js_space_lower c Hc). unfold more_alphabet. by rewrite Hc. }
  rewrite Hsplit. unfold toLowerCase. rewrite !fmap_app.
  repeat apply Forall_app_2; [by apply Hws | | by apply Hws].
  fold (toLowerCase (trim m)).
  destruct (isMoreCommand_phrase m Hm) as [-> | [-> | ->]];
    apply Forall_forall; intros c Hc; apply list_elem_of_In in Hc;
    revert c Hc; apply forallb_forall; vm_compute; reflexivity.
Qed.

(** A MORE command reaches its branch of the route: it is no other command,
    holds no location and no place-search keyword. *)
Lemma more_command_route m :
  isMoreCommand m = true ->
  (length (trim m) =? 0)%nat = false
  /\ isStopCommand m = false /\ isHelpCommand m = false
  /\ parseLocation m = None
  /\ existsb (fun keyword => includes (toLowerCase m) keyword) placeKeywords
     = false
  /\ isLocationQueryCommand m = false.
Proof.
  intros Hm. pose proof (more_text_alphabet m Hm) as Halpha.
  assert (Hkw : existsb (fun keyword => includes (toLowerCase m) keyword)
                  placeKeywords = false).
  { unfold placeKeywords. cbn [existsb].
    rewrite !(includes_outside more_alphabet (toLowerCase m))
      by (assumption || (vm_compute; reflexivity)).
    reflexivity. }
  assert (Hlen : length (trim m) = length (toLowerCase (trim m)))
    by (unfold toLowerCase; by rewrite length_fmap).
  unfold isStopCommand, isHelpCommand, isLocationQueryCommand. cbv zeta.
  destruct (isMoreCommand_phrase m Hm) as [Hn | [Hn | Hn]];
    rewrite (command_is_no_location m _ Hn eq_refl), Hlen, Hn;
    repeat split; try exact Hkw; vm_compute; reflexivity.
Qed.

(** ** SMS route *)

Lemma bind_run {A B} (m : M A) (k : A -> M B) w :
  bind m k w = match m w with
               | (Some a, w') => k a w'
               | (None, w') => (None, w')
               end.
Proof. reflexivity. Qed.

Lemma try_catch_run {A} (m h : M A) w :
  try_catch m h w = match m w with
                    | (Some a, w') => (Some a, w')
                    | (None, w') => h w'
                    end.
Proof. reflexivity. Qed.

Lemma read_db_run {A} (f : Db -> A) w : read_db f w = (Some (f (db w)), w).
Proof. reflexivity. Qed.

Lemma call_run {A} (o : option A) w : call o w = (o, w).
Proof. reflexivity. Qed.

Lemma handlePlaceSearch_no_keyword svc p m now w :
  existsb (fun keyword => includes (toLowerCase m) keyword) placeKeywords
  = false ->
  handlePlaceSearch svc p m now w = (Some false, w).
Proof.
  intros H. unfold handlePlaceSearch, try_catch. rewrite H. reflexivity.
Qed.

(** The route on a MORE command without image attachment: the credit gate,
    then [handleMoreCommand], then the debit and the usage entry. *)
Lemma handleActiveUserMessage_more svc p m mediaUrl mediaType l now w :
  is_image mediaUrl mediaType = Some NoImage ->
  isMoreCommand m = true ->
  handleActiveUserMessage svc p m mediaUrl mediaType l now w
  = try_catch
      (do enough <- read_db (fun d => hasCredits d p 1);
       if negb enough then handleNoCredits p l
       else
         handleMoreCommand svc p l now ;;
         write_db (fun d => (deductCredits d p 1 now).2) ;;
         write_db (fun d =>
           logTransaction d p usage (-1)
             (Some (js "Expanded response (MORE)")) None now))
      (sendSMS p GenericErrorText sv) w.
Proof.
  intros Himg Hm.
  destruct (more_command_route m Hm) as (Hlen & Hstop & Hhelp & Hloc & Hkw & Hq).
  unfold handleActiveUserMessage.
  rewrite !try_catch_run, bind_run, call_run, Himg.
  rewrite Hlen, Hstop, Hhelp, Hloc, Hq, Hm.
  rewrite bind_run, (handlePlaceSearch_no_keyword svc p m now w Hkw).
  reflexivity.
Qed.

(** C1, as stated, fails: [alice] has no session, hence no last AI reply.
    With a balance of 0 her MORE command is answered by the no-credits
    message, not by the corrective message. With a balance of 5 it is
    answered by the corrective message, and her balance drops to 4 with a
    usage entry in the transaction log. *)
Lemma more_without_reply_not_free :
  lastAiResponse (getContext (db (world_with_balance 0)) alice 0) = None
  /\ lastAiResponse (getContext (db (world_with_balance 5)) alice 0) = None
  /\ isMoreCommand (js "MORE") = true
  /\ sms_body
       <$> outbox (handleActiveUserMessage demo_services alice (js "MORE")
                     Missing Missing sv 0 (world_with_balance 0)).2
     = [NoCreditsText sv 0]
  /\ sms_body
       <$> outbox (handleActiveUserMessage demo_services alice (js "MORE")
                     Missing Missing sv 0 (world_with_balance 5)).2
     = [NoPreviousResponseText]
  /\ balance (db (world_with_balance 5)) alice = Some 5
  /\ balance
       (db (handleActiveUserMessage demo_services alice (js "MORE") Missing Missing
              sv 0 (world_with_balance 5)).2) alice = Some 4
  /\ (fun tx => (tx_type tx, credits_delta tx))
       <$> transactions
             (db (handleActiveUserMessage demo_services alice (js "MORE")
                    Missing Missing sv 0 (world_with_balance 5)).2)
     = [(usage, -1)].
Proof. vm_compute. repeat split; reflexivity. Qed.

(** C1 (amended): for an identity whose session holds no last AI reply, a
    MORE command is answered by one message and nothing is expanded. With at
    least one credit the message is the corrective one and the session rows
    are left as they were; with less than one credit, or without account, it
    is the no-credits message and the database is left as it was: no debit,
    no transaction. *)
Theorem more_without_reply (svc : Services) (w : World) (p m : jsstring)
    (mediaUrl mediaType : Field) (l : Lang) (now : Z) :
  is_image mediaUrl mediaType = Some NoImage ->
  isMoreCommand m = true ->
  lastAiResponse (getContext (db w) p now) = None ->
  let w' := (handleActiveUserMessage svc p m mediaUrl mediaType l now w).2 in
  if hasCredits (db w) p 1
  then outbox w' = outbox w ++ [sms p NoPreviousResponseText sv]
       /\ sessions (db w') = sessions (db w)
  else outbox w' = outbox w ++ [sms p (NoCreditsText l
                                         (credits_or_zero (db w) p)) l]
       /\ db w' = db w.
Proof.
  intros Himg Hm Hreply w'. subst w'.
  rewrite (handleActiveUserMessage_more svc p m _ _ l now w Himg Hm).
  cbv [try_catch bind read_db write_db sendSMS ret call handleNoCredits
       handleMoreCommand].
  destruct (hasCredits (db w) p 1) eqn:Hc; cbn [negb].
  - rewrite Hreply. cbn. split; [reflexivity|].
    unfold deductCredits. destruct (getUser (db w) p) as [u|]; [|reflexivity].
    by destruct (_ <? _).
  - cbn. split; [reflexivity | by destruct w].
Qed.

Lemma more_without_reply_witness :
  outbox (handleActiveUserMessage demo_services alice (js "MORE") Missing Missing
            sv 0 (world_with_balance 5)).2
  = outbox (world_with_balance 5) ++ [sms alice NoPreviousResponseText sv]
  /\ sessions
       (db (handleActiveUserMessage demo_services alice (js "MORE") Missing Missing
              sv 0 (world_with_balance 5)).2)
     = sessions (db (world_with_balance 5)).
Proof.
  exact (more_without_reply demo_services (world_with_balance 5) alice
           (js "MORE") Missing Missing sv 0 eq_refl eq_refl eq_refl).
Defined.

(** What the amended C1 leaves open: in the funded case the route goes on
    after [handleMoreCommand] has sent the corrective message, debits one
    credit and logs a usage entry. *)
Lemma more_without_reply_is_charged (svc : Services) (w : World)
    (p m : jsstring) (mediaUrl mediaType : Field) (l : Lang)
    (now : Z) (u : User) :
  is_image mediaUrl mediaType = Some NoImage ->
  isMoreCommand m = true ->
  lastAiResponse (getContext (db w) p now) = None ->
  getUser (db w) p = Some u -> 1 <= credits_remaining u ->
  let w' := (handleActiveUserMessage svc p m mediaUrl mediaType l now w).2 in
  balance (db w') p = Some (credits_remaining u - 1)
  /\ transactions (db w')
     = transactions (db w)
       ++ [{| tx_phone_number := p; tx_type := usage; credits_delta := -1;
              description := Some (js "Expanded response (MORE)");
              stripe_payment_id := None; tx_created_at := now |}].
Proof.
  intros Himg Hm Hreply Hu Hc w'. subst w'.
  rewrite (handleActiveUserMessage_more svc p m _ _ l now w Himg Hm).
  cbv [try_catch bind read_db write_db sendSMS ret call handleNoCredits
       handleMoreCommand].
  assert (Hhas : hasCredits (db w) p 1 = true).
  { unfold hasCredits. rewrite Hu. by apply Z.leb_le. }
  rewrite Hhas. cbn [negb]. rewrite Hreply. cbn [negb snd db set_db].
  unfold deductCredits. cbn [db]. rewrite Hu.
  destruct (Z.ltb_spec (credits_remaining u) 1); [lia|].
  cbn [snd]. unfold balance, logTransaction, set_transactions.
  split.
  - unfold getUser, update_user, set_users in *. cbn [users].
    rewrite lookup_alter_eq, Hu. reflexivity.
  - reflexivity.
Qed.

Lemma parseLocation_not_command m loc :
  parseLocation m = Some loc ->
  (length (trim m) =? 0)%nat = false
  /\ isStopCommand m = false /\ isHelpCommand m = false.
Proof.
  intros Hloc. repeat split.
  - destruct (trim m) as [|c t] eqn:Ht; [|reflexivity].
    rewrite parseLocation_no_digit in Hloc; [discriminate|].
    rewrite Ht. constructor.
  - destruct (isStopCommand m) eqn:Hc; [|reflexivity].
    unfold isStopCommand in Hc. cbv zeta in Hc.
    rewrite !orb_true_or, !str_eq_true in Hc.
    destruct Hc as [[Hn | Hn] | Hn];
      rewrite (command_is_no_location m _ Hn eq_refl) in Hloc; discriminate.
  - destruct (isHelpCommand m) eqn:Hc; [|reflexivity].
    unfold isHelpCommand in Hc. cbv zeta in Hc.
    rewrite !orb_true_or, !str_eq_true in Hc.
    destruct Hc as [[Hn | Hn] | Hn];
      rewrite (command_is_no_location m _ Hn eq_refl) in Hloc; discriminate.
Qed.

(** The route on a text message that holds a location. *)
Lemma handleActiveUserMessage_gps svc p m mediaUrl mediaType l now w loc :
  is_image mediaUrl mediaType = Some NoImage ->
  parseLocation m = Some loc ->
  handleActiveUserMessage svc p m mediaUrl mediaType l now w
  = try_catch (handleGPSMessage svc p loc m now)
      (sendSMS p GenericErrorText sv) w.
Proof.
  intros Himg Hloc.
  destruct (parseLocation_not_command m loc Hloc) as (Hlen & Hstop & Hhelp).
  unfold handleActiveUserMessage.
  rewrite !try_catch_run, bind_run, call_run, Himg.
  by rewrite Hlen, Hstop, Hhelp, Hloc.
Qed.

(** Without session row of the identity [saveLocation] changes nothing. *)
Lemma saveLocation_no_row d p la lo now :
  latest_session (sessions d) p = None -> saveLocation d p la lo now = d.
Proof.
  intros Hnone. unfold saveLocation, set_sessions.
  assert (Hsame : set_location_row p
                    {| fix_lat := la; fix_lon := lo; fix_timestamp := now |}
                  <$> sessions d = sessions d).
  { apply latest_session_none in Hnone.
    induction Hnone as [|r rows Hr _ IH]; [reflexivity|].
    rewrite fmap_cons, IH. f_equal. unfold set_location_row.
    destruct (str_eq (phone_number r) p) eqn:E; [|reflexivity].
    apply str_eq_true in E. congruence. }
  rewrite Hsame. by destruct d.
Qed.

(** C2 at the failing inputs: a text message that holds coordinates and
    resolves a place-search category is answered without any credit gate,
    whatever the balance of the sender and also without account. The
    nearby search is made and its result sent (the location-error text when
    the search fails); no no-credits message is sent, every balance and the
    transaction log are as they were. The only statement run on the
    database is that of [saveLocation]: it stores the fix when the sender
    has a session row and changes nothing otherwise. *)
Theorem gps_place_search_not_gated (svc : Services) (w : World)
    (p m : jsstring) (mediaUrl mediaType : Field) (l : Lang)
    (now : Z) (loc : ParsedLocation) (category : POICategory) :
  is_image mediaUrl mediaType = Some NoImage ->
  parseLocation m = Some loc ->
  parseCategoryFromQuery (toLowerCase m) = Some category ->
  let w' := (handleActiveUserMessage svc p m mediaUrl mediaType l now w).2 in
  let reply :=
    match searchNearby svc (coordinates loc) category
            (parseRadiusFromQuery (toLowerCase m)) with
    | Some result =>
        Text (formatSearchResult svc result
                (if includes (toLowerCase m) kw_vader
                    || includes (toLowerCase m) kw_narmaste
                 then sv else en))
    | None => GpsErrorText
    end in
  outbox w' = outbox w ++ [sms p reply sv]
  /\ db w' = saveLocation (db w) p (lat (coordinates loc))
               (lon (coordinates loc)) now
  /\ users (db w') = users (db w)
  /\ (forall q, balance (db w') q = balance (db w) q)
  /\ transactions (db w') = transactions (db w)
  /\ match latest_session (sessions (db w)) p with
     | Some _ =>
         getLastLocation (db w') p now
         = Some (lat (coordinates loc), lon (coordinates loc))
     | None => db w' = db w
     end.
Proof.
  intros Himg Hloc Hcat w' reply. subst w' reply.
  rewrite (handleActiveUserMessage_gps svc p m _ _ l now w loc Himg Hloc).
  cbv [try_catch bind read_db write_db sendSMS ret call handleGPSMessage].
  rewrite Hcat.
  assert (Hfix :
    match latest_session (sessions (db w)) p with
    | Some _ =>
        getLastLocation
          (saveLocation (db w) p (lat (coordinates loc))
             (lon (coordinates loc)) now) p now
        = Some (lat (coordinates loc), lon (coordinates loc))
    | None =>
        saveLocation (db w) p (lat (coordinates loc))
          (lon (coordinates loc)) now = db w
    end).
  { destruct (latest_session (sessions (db w)) p) as [s|] eqn:Hs.
    - apply (saveLocation_read_back _ _ _ _ _ _ s Hs). lia.
    - by apply saveLocation_no_row. }
  destruct (searchNearby svc (coordinates loc) category
              (parseRadiusFromQuery (toLowerCase m))) as [result|];
    cbn [snd outbox db set_db]; repeat split; try reflexivity; exact Hfix.
Qed.

Lemma gps_place_search_not_gated_witness :
  (coordinates <$> parseLocation link_and_hospital)
  = Some {| lat := 593293 # 10000; lon := 180686 # 10000 |}
  /\ parseCategoryFromQuery (toLowerCase link_and_hospital) = Some hospital
  /\ hasCredits (db (world_with_session 0)) alice 1 = false
  /\ outbox (handleActiveUserMessage demo_services alice link_and_hospital
               Missing Missing sv 0 (world_with_session 0)).2
     = [sms alice (Text (js "Sjukhus (inom 10 km):")) sv]
  /\ balance
       (db (handleActiveUserMessage demo_services alice link_and_hospital
              Missing Missing sv 0 (world_with_session 0)).2) alice = Some 0
  /\ transactions
       (db (handleActiveUserMessage demo_services alice link_and_hospital
              Missing Missing sv 0 (world_with_session 0)).2) = []
  /\ getLastLocation
       (db (handleActiveUserMessage demo_services alice link_and_hospital
              Missing Missing sv 0 (world_with_session 0)).2) alice 0
     = Some (593293 # 10000, 180686 # 10000)
  /\ balance
       (db (handleActiveUserMessage demo_services alice link_and_hospital
              Missing Missing sv 0 (world_with_session 5)).2) alice = Some 5
  /\ transactions
       (db (handleActiveUserMessage demo_services alice link_and_hospital
              Missing Missing sv 0 (world_with_session 5)).2) = [].
Proof.
  destruct (gps_place_search_not_gated demo_services (world_with_session 0)
              alice link_and_hospital Missing Missing sv 0
              (located link_and_hospital google_maps
                 (593293 # 10000, 180686 # 10000)) hospital)
    as (Hout & _ & _ & Hbal & Htx & Hfix);
    [reflexivity | vm_compute; reflexivity | vm_compute; reflexivity |].
  destruct (gps_place_search_not_gated demo_services (world_with_session 5)
              alice link_and_hospital Missing Missing sv 0
              (located link_and_hospital google_maps
                 (593293 # 10000, 180686 # 10000)) hospital)
    as (_ & _ & _ & Hbal5 & Htx5 & _);
    [reflexivity | vm_compute; reflexivity | vm_compute; reflexivity |].
  split; [vm_compute; reflexivity|].
  split; [vm_compute; reflexivity|].
  split; [reflexivity|].
  split; [exact Hout|].
  split; [rewrite Hbal; reflexivity|].
  split; [exact Htx|].
  split; [exact Hfix|].
  split; [rewrite Hbal5; reflexivity | exact Htx5].
Defined.

(** The same message through the webhook: [alice] is active with a balance
    of 0 and within her limits; the search reply is sent, her balance and
    the transaction log are as before. *)
Example gps_place_search_through_webhook :
  let r := incoming demo_services
             (text_request alice (js "+46700000000") link_and_hospital) 0
             (world_with_balance 0) in
  r.1 = Some 200
  /\ sms_body <$> outbox r.2 = [Text (js "Sjukhus (inom 10 km):")]
  /\ balance (db r.2) alice = Some 0
  /\ transactions (db r.2) = [].
Proof. vm_compute. repeat split; reflexivity. Qed.

(** * Further properties *)

(** ** Rate limiter: sweep, isolation, reset, bounds *)

Lemma live_entry_later now now' o o' :
  now <= now' -> live_entry now o = live_entry now o' ->
  live_entry now' o = live_entry now' o'.
Proof.
  unfold live_entry. intros Ht.
  destruct o as [e|], o' as [e'|];
    repeat match goal with
           | |- context [?a <? ?b] => destruct (Z.ltb_spec a b)
           end; try congruence; try lia; intros [= ->]; lia.
Qed.

Lemma live_agree_later now now' rl rl' :
  now <= now' -> live_agree now rl rl' -> live_agree now' rl rl'.
Proof.
  intros Ht [Hm Hl]. split; [exact Hm|].
  intros k. eapply live_entry_later; [exact Ht | apply Hl].
Qed.

Lemma cleanup_live_agree rl ts now :
  ts <= now -> live_agree now (cleanup rl ts) rl.
Proof.
  intros Ht. split; [by intros []|]. intros k.
  unfold cleanup. cbn [limits set_limits]. rewrite map_lookup_filter.
  destruct (limits rl !! k) as [e|]; [|reflexivity]. cbn.
  case_guard as Hg; cbn; [reflexivity|].
  cbn in Hg. assert (resetAt e < ts) by (destruct (decide (resetAt e < ts)); tauto).
  destruct (Z.ltb_spec (resetAt e) now); [reflexivity | lia].
Qed.

Lemma isAllowed_live_agree now rl rl' p w :
  live_agree now rl rl' ->
  (isAllowed rl p w now).1 = (isAllowed rl' p w now).1
  /\ live_agree now (isAllowed rl p w now).2 (isAllowed rl' p w now).2.
Proof.
  intros [Hm Hl]. pose proof (Hl (limit_key p w)) as Hk.
  pose proof (getWindowDuration_pos w) as Hd.
  assert (Hins : forall e (a b : gmap (list N) RateLimitEntry),
    (forall k, k <> limit_key p w ->
               live_entry now (a !! k) = live_entry now (b !! k)) ->
    live_agree now (set_limits rl (<[limit_key p w := e]> a))
                   (set_limits rl' (<[limit_key p w := e]> b))).
  { intros e a b Hab.
    split; [intros w0; destruct w0;
            [apply (Hm minute) | apply (Hm hour) | apply (Hm day)]|].
    intros k. cbn [limits set_limits].
    destruct (decide (k = limit_key p w)) as [->|Hne].
    - by rewrite !lookup_insert_eq.
    - rewrite !lookup_insert_ne by congruence. by apply Hab. }
  unfold isAllowed. rewrite <- (Hm w).
  unfold live_entry in Hk.
  destruct (limits rl !! limit_key p w) as [e|],
           (limits rl' !! limit_key p w) as [e'|];
    repeat match type of Hk with
           | context [?a <? ?b] => destruct (Z.ltb_spec a b)
           end; try discriminate;
    try (injection Hk as <-);
    try (destruct (Z.ltb_spec (resetAt e) now); [lia|]);
    try (destruct (getMaxLimit rl w <=? count e));
    cbn [fst snd]; (split; [reflexivity|]);
    try (apply Hins; intros k _; apply Hl);
    try (split; [exact Hm | exact Hl]).
Qed.

Lemma checkLimits_live_agree now rl rl' p :
  live_agree now rl rl' ->
  (checkLimits rl p now).1 = (checkLimits rl' p now).1
  /\ live_agree now (checkLimits rl p now).2 (checkLimits rl' p now).2.
Proof.
  intros H0. unfold checkLimits.
  destruct (isAllowed_live_agree now rl rl' p minute H0) as [E1 H1].
  destruct (isAllowed rl p minute now) as [ok1 rl1],
           (isAllowed rl' p minute now) as [ok1' rl1'].
  cbn [fst snd] in E1, H1. subst ok1'.
  destruct ok1; cbn [negb].
  2:{ cbn [fst snd]. split; [|exact H1]. f_equal. f_equal. f_equal.
      apply (proj1 H1 minute). }
  destruct (isAllowed_live_agree now rl1 rl1' p hour H1) as [E2 H2].
  destruct (isAllowed rl1 p hour now) as [ok2 rl2],
           (isAllowed rl1' p hour now) as [ok2' rl2'].
  cbn [fst snd] in E2, H2. subst ok2'.
  destruct ok2; cbn [negb].
  2:{ cbn [fst snd]. split; [|exact H2]. f_equal. f_equal. f_equal.
      apply (proj1 H2 hour). }
  destruct (isAllowed_live_agree now rl2 rl2' p day H2) as [E3 H3].
  destruct (isAllowed rl2 p day now) as [ok3 rl3],
           (isAllowed rl2' p day now) as [ok3' rl3'].
  cbn [fst snd] in E3, H3. subst ok3'.
  destruct ok3; cbn [negb fst snd]; (split; [|exact H3]); [reflexivity|].
  f_equal. f_equal. f_equal. apply (proj1 H3 day).
Qed.

Lemma getCount_live now rl p w :
  getCount rl p w now
  = match live_entry now (limits rl !! limit_key p w) with
    | Some e => count e
    | None => 0
    end.
Proof.
  unfold getCount, live_entry.
  destruct (limits rl !! limit_key p w) as [e|]; [|reflexivity].
  destruct (Z.leb_spec now (resetAt e)), (Z.ltb_spec (resetAt e) now);
    try reflexivity; lia.
Qed.

Lemma getUsage_live_agree now rl rl' q :
  live_agree now rl rl' -> getUsage rl q now = getUsage rl' q now.
Proof.
  intros [_ Hl]. unfold getUsage. rewrite !getCount_live, !Hl. reflexivity.
Qed.

(** X1: the periodic sweep cannot be observed. After [cleanup] at any
    earlier time, [checkLimits] gives the same answer as without it, and
    the usage of every identity reads the same from then on. *)
Theorem sweep_is_unobservable (rl : RateLimiter) (ts now : Z)
    (p : jsstring) :
  ts <= now ->
  (checkLimits (cleanup rl ts) p now).1 = (checkLimits rl p now).1
  /\ forall q now', now <= now' ->
       getUsage (checkLimits (cleanup rl ts) p now).2 q now'
       = getUsage (checkLimits rl p now).2 q now'.
Proof.
  intros Ht.
  destruct (checkLimits_live_agree now (cleanup rl ts) rl p
              (cleanup_live_agree rl ts now Ht)) as [Hans Hagree].
  split; [exact Hans|]. intros q now' Hnow'.
  apply getUsage_live_agree. by eapply live_agree_later.
Qed.

Lemma sweep_is_unobservable_witness :
  (checkLimits (cleanup hourly_limiter_used 4000000) alice 4000001).1
  = (checkLimits hourly_limiter_used alice 4000001).1
  /\ getUsage (checkLimits (cleanup hourly_limiter_used 4000000) alice
                 4000001).2 alice 4000002
     = getUsage (checkLimits hourly_limiter_used alice 4000001).2 alice
         4000002.
Proof.
  destruct (sweep_is_unobservable hourly_limiter_used 4000000 4000001 alice)
    as [Hans Huse]; [lia|].
  split; [exact Hans | apply Huse; lia].
Defined.

(** X2: the counters of one identity are out of reach of another: a
    [checkLimits] call for [p] leaves the usage of every other identity as
    it was, at every time. *)
Theorem check_leaves_other_identities (rl : RateLimiter) (p q : jsstring)
    (now : Z) :
  p <> q ->
  forall t, getUsage (checkLimits rl p now).2 q t = getUsage rl q t.
Proof.
  intros Hpq t. unfold getUsage, getCount.
  rewrite !checkLimits_other_keys; [reflexivity | | |];
    intros w Hk; apply limit_key_inj_phone in Hk as [? _]; congruence.
Qed.

Lemma check_leaves_other_identities_witness :
  getUsage (checkLimits hourly_limiter_used bob 1).2 alice 1
  = getUsage hourly_limiter_used alice 1.
Proof.
  apply (check_leaves_other_identities hourly_limiter_used bob alice 1).
  vm_compute. discriminate.
Defined.

(** X3: an allowed [checkLimits] call counts the message once in each of
    the three windows. *)
Theorem allowed_check_counts_every_window (rl : RateLimiter) (p : jsstring)
    (now : Z) :
  allowed (checkLimits rl p now).1 = true ->
  forall w, getCount (checkLimits rl p now).2 p w now
            = getCount rl p w now + 1.
Proof.
  unfold checkLimits.
  destruct (isAllowed rl p minute now) as [[] rl1] eqn:H1; cbn [negb];
    [|discriminate].
  destruct (isAllowed rl1 p hour now) as [[] rl2] eqn:H2; cbn [negb];
    [|discriminate].
  destruct (isAllowed rl2 p day now) as [[] rl3] eqn:H3; cbn [negb];
    [|discriminate].
  intros _ w. cbn [snd].
  apply isAllowed_true in H1 as (Hc1 & Hf1 & _).
  apply isAllowed_true in H2 as (Hc2 & Hf2 & _).
  apply isAllowed_true in H3 as (Hc3 & Hf3 & _).
  assert (Hne : forall a b, a <> b -> limit_key p a <> limit_key p b).
  { intros a b Hab Hk. by apply limit_key_inj in Hk. }
  destruct w.
  - rewrite <- Hc1. unfold getCount. rewrite Hf3, Hf2 by by apply Hne.
    reflexivity.
  - transitivity (getCount rl2 p hour now).
    + unfold getCount. by rewrite Hf3 by by apply Hne.
    + rewrite Hc2. unfold getCount. by rewrite Hf1 by by apply Hne.
  - rewrite Hc3. unfold getCount. rewrite Hf2, Hf1 by by apply Hne.
    reflexivity.
Qed.

Lemma allowed_check_counts_every_window_witness :
  getCount (checkLimits (newRateLimiter 5 30 200) alice 7).2 alice hour 7
  = getCount (newRateLimiter 5 30 200) alice hour 7 + 1.
Proof.
  apply (allowed_check_counts_every_window (newRateLimiter 5 30 200) alice 7).
  reflexivity.
Defined.

Lemma reset_lookup_own rl p w : limits (reset rl p) !! limit_key p w = None.
Proof.
  unfold reset. cbn [limits set_limits]. destruct w.
  - rewrite (lookup_delete_ne _ (limit_key p day)),
      (lookup_delete_ne _ (limit_key p hour)), lookup_delete_eq;
      [reflexivity | |]; intros Hk; apply limit_key_inj in Hk; discriminate.
  - rewrite (lookup_delete_ne _ (limit_key p day)), lookup_delete_eq;
      [reflexivity |]; intros Hk; apply limit_key_inj in Hk; discriminate.
  - by rewrite lookup_delete_eq.
Qed.

(** X4: after [reset] the identity has no usage in any window and its next
    message is allowed whatever the limits; the usage of every other
    identity is as before. *)
Theorem reset_clears_identity (rl : RateLimiter) (p : jsstring) (now : Z) :
  getUsage (reset rl p) p now
  = {| usage_minute := 0; usage_hour := 0; usage_day := 0 |}
  /\ (checkLimits (reset rl p) p now).1 = {| allowed := true; reason := None |}
  /\ forall q, q <> p -> getUsage (reset rl p) q now = getUsage rl q now.
Proof.
  repeat split.
  - unfold getUsage, getCount. by rewrite !reset_lookup_own.
  - unfold checkLimits.
    rewrite (isAllowed_closed (reset rl p) p minute now)
      by (unfold window_closed; by rewrite reset_lookup_own).
    cbn [negb]. set (rl1 := set_limits _ _).
    rewrite (isAllowed_closed rl1 p hour now).
    2:{ unfold window_closed. subst rl1. cbn [limits set_limits].
        rewrite lookup_insert_ne, reset_lookup_own; [exact I|].
        intros Hk. apply limit_key_inj in Hk. discriminate. }
    cbn [negb]. set (rl2 := set_limits rl1 _).
    rewrite (isAllowed_closed rl2 p day now); [reflexivity|].
    unfold window_closed. subst rl2 rl1. cbn [limits set_limits].
    rewrite !lookup_insert_ne, reset_lookup_own; [exact I | |];
      intros Hk; apply limit_key_inj in Hk; discriminate.
  - intros q Hq. unfold getUsage, getCount, reset. cbn [limits set_limits].
    rewrite !lookup_delete_ne; [reflexivity | | | | | | | | |];
      intros Hk; apply limit_key_inj_phone in Hk as [? _]; congruence.
Qed.

Lemma reset_clears_identity_witness :
  getUsage (reset hourly_limiter_used alice) alice 1
  = {| usage_minute := 0; usage_hour := 0; usage_day := 0 |}
  /\ (checkLimits hourly_limiter_used alice 1).1
     = {| allowed := false; reason := Some (hour, 1) |}
  /\ (checkLimits (reset hourly_limiter_used alice) alice 1).1
     = {| allowed := true; reason := None |}.
Proof.
  destruct (reset_clears_identity hourly_limiter_used alice 1)
    as (Huse & Hok & _).
  split; [exact Huse | split; [reflexivity | exact Hok]].
Defined.

Lemma isAllowed_bounded rl p w now :
  counters_bounded rl -> counters_bounded (isAllowed rl p w now).2.
Proof.
  intros Hb p0 w0 e0.
  destruct (decide (limit_key p0 w0 = limit_key p w)) as [Hk | Hk].
  - apply limit_key_inj_phone in Hk as [-> ->].
    rewrite isAllowed_max. unfold isAllowed.
    destruct (limits rl !! limit_key p w) as [e|] eqn:He.
    + destruct (resetAt e <? now).
      * cbn [snd limits set_limits]. rewrite lookup_insert_eq.
        intros [= <-]. cbn [count]. lia.
      * destruct (Z.leb_spec (getMaxLimit rl w) (count e)).
        -- cbn [snd]. rewrite He. intros [= <-]. by apply (Hb p w).
        -- cbn [snd limits set_limits]. rewrite lookup_insert_eq.
           intros [= <-]. cbn [count]. specialize (Hb p w e He). lia.
    + cbn [snd limits set_limits]. rewrite lookup_insert_eq.
      intros [= <-]. cbn [count]. lia.
  - rewrite isAllowed_other_keys by exact Hk. rewrite isAllowed_max.
    apply Hb.
Qed.

Lemma checkLimits_bounded rl p now :
  counters_bounded rl -> counters_bounded (checkLimits rl p now).2.
Proof.
  intros Hb. unfold checkLimits.
  pose proof (isAllowed_bounded rl p minute now Hb) as H1.
  destruct (isAllowed rl p minute now) as [ok1 rl1]. cbn [snd] in H1.
  destruct ok1; cbn [negb]; [|exact H1].
  pose proof (isAllowed_bounded rl1 p hour now H1) as H2.
  destruct (isAllowed rl1 p hour now) as [ok2 rl2]. cbn [snd] in H2.
  destruct ok2; cbn [negb]; [|exact H2].
  pose proof (isAllowed_bounded rl2 p day now H2) as H3.
  destruct (isAllowed rl2 p day now) as [ok3 rl3]. cbn [snd] in H3.
  by destruct ok3.
Qed.

Lemma run_checks_invariant calls : forall rl,
  counters_bounded rl ->
  counters_bounded (run_checks rl calls)
  /\ forall w, getMaxLimit (run_checks rl calls) w = getMaxLimit rl w.
Proof.
  induction calls as [|[p t] calls IH]; intros rl Hb; [by split|].
  cbn [run_checks].
  destruct (IH _ (checkLimits_bounded rl p t Hb)) as [Hb' Hm].
  split; [exact Hb'|]. intros w. by rewrite Hm, checkLimits_max.
Qed.

(** X5: whatever messages arrive, of whatever identities and at whatever
    times, the usage the limiter reports for a window never exceeds the
    maximum of that window (1 when the maximum is below 1). *)
Theorem usage_never_exceeds_limit (perMinute perHour perDay : Z)
    (calls : list (list N * Z)) (p : jsstring) (w : Window) (now : Z) :
  let rl := newRateLimiter perMinute perHour perDay in
  0 <= getCount (run_checks rl calls) p w now <= Z.max 1 (getMaxLimit rl w).
Proof.
  intros rl.
  destruct (run_checks_invariant calls rl) as [Hb Hm].
  { intros p0 w0 e0. subst rl. cbn [limits newRateLimiter].
    by rewrite lookup_empty. }
  unfold getCount.
  destruct (limits (run_checks rl calls) !! limit_key p w) as [e|] eqn:He;
    [|lia].
  specialize (Hb p w e He). rewrite Hm in Hb.
  destruct (now <=? resetAt e); lia.
Qed.

(** ** Ledger: repeated debits, refund round trip, frame *)

Lemma balance_update_user d p f :
  balance (update_user d p f) p
  = (fun u => credits_remaining (f u)) <$> getUser d p.
Proof.
  unfold balance. rewrite getUser_update_user.
  by destruct (getUser d p).
Qed.

Lemma spend_balance times : forall d p b,
  balance d p = Some b -> 0 <= b ->
  (spend d p times).1 = Z.min (Z.of_nat (length times)) b
  /\ balance (spend d p times).2 p
     = Some (b - Z.min (Z.of_nat (length times)) b).
Proof.
  induction times as [|t times IH]; intros d p b Hb Hpos.
  - cbn [spend fst snd length]. rewrite Hb. split; [lia | f_equal; lia].
  - cbn [spend]. rewrite length_cons, Nat2Z.inj_succ.
    unfold deductCredits. pose proof Hb as Hb0.
    unfold balance in Hb. destruct (getUser d p) as [u|] eqn:Hu;
      [|discriminate]. cbn in Hb. injection Hb as Hb.
    destruct (Z.ltb_spec (credits_remaining u) 1).
    + destruct (IH d p b Hb0 Hpos) as [H1 H2].
      destruct (spend d p times) as [n d2]. cbn [fst snd] in *.
      split; [lia|]. rewrite H2. f_equal. lia.
    + set (d1 := update_user d p _).
      destruct (IH d1 p (b - 1)) as [H1 H2].
      { subst d1. rewrite balance_update_user, Hu. cbn. f_equal. lia. }
      { lia. }
      destruct (spend d1 p times) as [n d2]. cbn [fst snd] in *.
      split; [lia|]. rewrite H2. f_equal. lia.
Qed.

(** X6: credits are spent one per debit and never overdrawn: of [k] debits
    of one credit from a balance [b >= 0], at whatever times, exactly
    [min k b] succeed and the balance ends at [b - min k b]; before each
    debit [hasCredits] tells whether it will succeed. *)
Theorem debits_stop_at_zero (d : Db) (p : jsstring) (b : Z)
    (times : list Z) :
  balance d p = Some b -> 0 <= b ->
  (spend d p times).1 = Z.min (Z.of_nat (length times)) b
  /\ balance (spend d p times).2 p
     = Some (b - Z.min (Z.of_nat (length times)) b)
  /\ forall d' n now, hasCredits d' p n = (deductCredits d' p n now).1.
Proof.
  intros Hb Hpos.
  destruct (spend_balance times d p b Hb Hpos) as [H1 H2].
  repeat split; [exact H1 | exact H2 |].
  intros d' n now. unfold hasCredits, deductCredits.
  destruct (getUser d' p) as [u|]; [|reflexivity].
  destruct (Z.ltb_spec (credits_remaining u) n),
           (Z.leb_spec n (credits_remaining u)); try reflexivity; lia.
Qed.

Lemma debits_stop_at_zero_witness :
  (spend (db_with_balance 3) alice [10; 20; 30; 40; 50]).1 = 3
  /\ balance (spend (db_with_balance 3) alice [10; 20; 30; 40; 50]).2 alice
     = Some 0.
Proof.
  destruct (debits_stop_at_zero (db_with_balance 3) alice 3
              [10; 20; 30; 40; 50])
    as (H1 & H2 & _); [reflexivity | lia |].
  split; [exact H1 | exact H2].
Defined.

(** X7: adding [n] credits and debiting them again gives back the account
    with its balance and every other column as before, except [updated_at],
    which holds the time of the debit; the other accounts and tables are
    untouched. This holds for an account whose balance is not negative. *)
Theorem add_then_deduct (d : Db) (p : jsstring) (u : User) (n t1 t2 : Z) :
  getUser d p = Some u -> 0 <= credits_remaining u ->
  deductCredits (addCredits d p n t1) p n t2
  = (true, update_user d p (touch t2)).
Proof.
  intros Hu Hpos. unfold deductCredits, addCredits.
  rewrite getUser_update_user, Hu. cbn [fmap option_fmap option_map].
  cbn [credits_remaining set_credits touch].
  destruct (Z.ltb_spec (credits_remaining u + n) n); [lia|].
  f_equal. unfold update_user, set_users. cbn [users sessions
    next_session_id transactions custom_agents].
  f_equal. rewrite alter_alter_eq. apply map_eq. intros k.
  rewrite !lookup_alter.
  case_decide as Hk; [|reflexivity]. subst k.
  unfold getUser in Hu. rewrite Hu.
  cbn [fmap option_fmap option_map compose]. f_equal.
  unfold touch, set_credits. cbn. f_equal. lia.
Qed.

Lemma add_then_deduct_witness :
  deductCredits (addCredits (db_with_balance 3) alice 30 100) alice 30 200
  = (true, update_user (db_with_balance 3) alice (touch 200))
  /\ (user_updated_at
        <$> getUser (update_user (db_with_balance 3) alice (touch 200)) alice)
     = Some 200
  /\ balance (update_user (db_with_balance 3) alice (touch 200)) alice
     = Some 3.
Proof.
  split; [|split; reflexivity].
  exact (add_then_deduct (db_with_balance 3) alice (sample_user active 3) 30
           100 200 eq_refl ltac:(simpl; lia)).
Defined.

Lemma update_user_frame d p f :
  (forall u, status (f u) = status u) ->
  (forall u, selected_categories (f u) = selected_categories u) ->
  sessions (update_user d p f) = sessions d
  /\ transactions (update_user d p f) = transactions d
  /\ custom_agents (update_user d p f) = custom_agents d
  /\ (forall q, q <> p -> getUser (update_user d p f) q = getUser d q)
  /\ (status <$> getUser (update_user d p f) p) = (status <$> getUser d p)
  /\ (selected_categories <$> getUser (update_user d p f) p)
     = (selected_categories <$> getUser d p).
Proof.
  intros Hs Hc. repeat split.
  - intros q Hq. unfold getUser, update_user, set_users. cbn [users].
    by rewrite lookup_alter_ne.
  - rewrite getUser_update_user. destruct (getUser d p); cbn; [|done].
    by rewrite Hs.
  - rewrite getUser_update_user. destruct (getUser d p); cbn; [|done].
    by rewrite Hc.
Qed.

(** X8: a debit or a credit touches one balance only: the accounts of all
    other identities, the sessions, the transaction log and the custom
    agents are as before, and so are the status and the categories of the
    account itself. *)
Theorem credit_operations_frame (d d' : Db) (p : jsstring) (n now : Z) :
  d' = (deductCredits d p n now).2 \/ d' = addCredits d p n now ->
  sessions d' = sessions d
  /\ transactions d' = transactions d
  /\ custom_agents d' = custom_agents d
  /\ (forall q, q <> p -> getUser d' q = getUser d q)
  /\ (status <$> getUser d' p) = (status <$> getUser d p)
  /\ (selected_categories <$> getUser d' p)
     = (selected_categories <$> getUser d p).
Proof.
  intros [-> | ->].
  - unfold deductCredits.
    destruct (getUser d p) as [u|] eqn:Hu; cbn [snd];
      [|repeat split; by rewrite ?Hu].
    destruct (_ <? _); cbn [snd]; [repeat split; by rewrite ?Hu|].
    rewrite <- Hu. by apply update_user_frame.
  - unfold addCredits. by apply update_user_frame.
Qed.

Lemma credit_operations_frame_witness :
  sessions (deductCredits (db_with_balance 3) alice 1 0).2
  = sessions (db_with_balance 3)
  /\ transactions (deductCredits (db_with_balance 3) alice 1 0).2
     = transactions (db_with_balance 3)
  /\ (status <$> getUser (deductCredits (db_with_balance 3) alice 1 0).2 alice)
     = (status <$> getUser (db_with_balance 3) alice).
Proof.
  destruct (credit_operations_frame (db_with_balance 3)
              (deductCredits (db_with_balance 3) alice 1 0).2 alice 1 0)
    as (Hs & Ht & _ & _ & Hst & _); [by left|].
  split; [exact Hs | split; [exact Ht | exact Hst]].
Defined.

(** ** Session store: expiry of the fix, isolation, creation, sweep *)



Lemma saveLocation_frame d p q la lo now :
  q <> p ->
  latest_session (sessions (saveLocation d q la lo now)) p
  = latest_session (sessions d) p.
Proof.
  intros Hqp. unfold saveLocation. cbn [sessions set_sessions].
  rewrite (latest_session_fmap _ _ _ (set_location_row_phone q _)
             (set_location_row_updated q _)).
  destruct (latest_session (sessions d) p) as [s|] eqn:Hs; [|reflexivity].
  cbn. f_equal. apply latest_session_phone in Hs as [_ Hp].
  unfold set_location_row.
  destruct (str_eq (phone_number s) q) eqn:E; [|reflexivity].
  apply str_eq_true in E. congruence.
Qed.

(** X10: sessions of different identities do not interfere: after
    [updateSession] or [saveLocation] for [q], the context and the saved
    position of every other identity [p] read as before, at every time. *)
Theorem session_operations_frame (d d' : Db) (p q : jsstring)
    (m : option jsstring) (resp : jsstring) (la lo : Q) (now : Z) :
  sessions_wf d now -> q <> p ->
  d' = updateSession d q m resp now \/ d' = saveLocation d q la lo now ->
  forall t, getContext d' p t = getContext d p t
            /\ getLastLocation d' p t = getLastLocation d p t.
Proof.
  intros Hwf Hqp Hd' t.
  assert (Hl : latest_session (sessions d') p = latest_session (sessions d) p).
  { destruct Hd' as [-> | ->];
      [by apply updateSession_frame | by apply saveLocation_frame]. }
  unfold getContext, getSession, getLastLocation. by rewrite Hl.
Qed.

Lemma session_operations_frame_witness :
  getContext (updateSession db_with_session bob (Some (js "hej")) (js "svar")
                5) alice 6
  = getContext db_with_session alice 6.
Proof.
  destruct (session_operations_frame db_with_session
              (updateSession db_with_session bob (Some (js "hej"))
                 (js "svar") 5)
              alice bob (Some (js "hej")) (js "svar") 0 0 5) with (t := 6)
    as [Hc _].
  - apply reachable_invariant. eapply reach_wait with (t := 0); [|lia].
    apply reach_update. apply reach_start. reflexivity.
  - vm_compute. discriminate.
  - by left.
  - exact Hc.
Defined.

(** X11: when [updateSession] has to create the session (none exists or the
    last one has expired), the new session holds the user message but not
    the AI reply: the context read back has no last reply, and the saved
    position of the identity is no longer found. *)
Theorem created_session_has_no_reply (d : Db) (p m : jsstring) (o : option jsstring)
    (resp : jsstring) (now now' : Z) :
  sessions_wf d now ->
  getSession d p now = None ->
  truthy o = Some m ->
  now' - now <= SESSION_TIMEOUT_MS ->
  getContext (updateSession d p o resp now) p now'
  = {| ctx_messages := [m]; lastAiResponse := None |}
  /\ getLastLocation (updateSession d p o resp now) p now' = None.
Proof.
  intros (Hnd & Hid & Hle) Hget Hm Ht.
  unfold updateSession. rewrite Hget, Hm. unfold createSession. cbn [snd].
  set (row := {| id := next_session_id d; phone_number := p;
                 messages := [m]; last_ai_response := None;
                 last_location := None; created_at := now;
                 updated_at := now |}).
  assert (Hrow : latest_session (sessions d ++ [row]) p = Some row).
  { apply latest_session_intro. exists (sessions d), [].
    repeat split; [| constructor].
    eapply Forall_impl; [exact Hle|]. cbn. intros x Hx _. exact Hx. }
  split.
  - unfold getContext.
    by erewrite (getSession_fresh _ p row now now');
      [ | exact Hrow | reflexivity | exact Ht].
  - unfold getLastLocation. cbn [sessions]. by rewrite Hrow.
Qed.

Lemma created_session_has_no_reply_witness :
  getContext (updateSession (db_with_balance 3) alice (Some (js "hello"))
                (js "hi") 0) alice 1
  = {| ctx_messages := [js "hello"]; lastAiResponse := None |}
  /\ getLastLocation (updateSession (db_with_balance 3) alice
                        (Some (js "hello")) (js "hi") 0) alice 1 = None.
Proof.
  apply (created_session_has_no_reply (db_with_balance 3) alice (js "hello")
           (Some (js "hello")) (js "hi") 0 1).
  - apply reachable_invariant, reach_start. reflexivity.
  - reflexivity.
  - reflexivity.
  - unfold SESSION_TIMEOUT_MS, SESSION_TIMEOUT_MINUTES. lia.
Defined.

(** X12: [updateSession] without user message ([null] or empty, as on the
    MORE path) replaces the last reply and leaves the message sequence of
    the current session as it is; without current session it changes
    nothing. *)
Theorem update_without_message (d : Db) (p : jsstring) (o : option jsstring)
    (resp : jsstring) (now now' : Z) :
  sessions_wf d now -> truthy o = None ->
  now' - now <= SESSION_TIMEOUT_MS ->
  match getSession d p now with
  | Some s =>
      getContext (updateSession d p o resp now) p now'
      = {| ctx_messages := messages s;
           lastAiResponse := truthy (Some resp) |}
  | None => updateSession d p o resp now = d
  end.
Proof.
  intros (Hnd & Hid & Hle) Ho Ht. unfold updateSession. rewrite Ho.
  destruct (getSession d p now) as [s|] eqn:Hget; [|reflexivity].
  unfold getSession in Hget.
  destruct (latest_session (sessions d) p) as [s0|] eqn:Hs; [|discriminate].
  destruct (isSessionExpired s0 now); [discriminate|]. injection Hget as ->.
  pose proof (latest_session_updated _ _ _ (messages s) resp now Hnd Hle Hs)
    as Hnew.
  unfold getContext.
  erewrite getSession_fresh; [| exact Hnew | | exact Ht];
    unfold update_session_row; rewrite Z.eqb_refl; reflexivity.
Qed.

Lemma update_without_message_witness :
  getContext (updateSession db_with_session alice None (js "more") 5) alice 6
  = {| ctx_messages := [js "hello"]; lastAiResponse := Some (js "more") |}.
Proof.
  apply (update_without_message db_with_session alice None (js "more") 5 6).
  - apply reachable_invariant. eapply reach_wait with (t := 0); [|lia].
    apply reach_update. apply reach_start. reflexivity.
  - reflexivity.
  - unfold SESSION_TIMEOUT_MS, SESSION_TIMEOUT_MINUTES. lia.
Defined.




(** ** Classifier and parsers *)

Lemma no_digit_check (s : jsstring) :
  forallb (fun c => negb (is_digit c)) s = true ->
  Forall (fun c => is_digit c = false) s.
Proof.
  rewrite forallb_forall, Forall_forall. intros H c Hc.
  apply negb_true_iff, H. by apply list_elem_of_In.
Qed.

(** X14: a message whose trimmed text holds no decimal digit is never a
    location, whatever else it holds (link, degree sign, keywords). *)
Theorem no_digit_no_location (m : jsstring) :
  Forall (fun c => is_digit c = false) (trim m) ->
  parseLocation m = None /\ hasLocation m = false.
Proof.
  intros H. unfold hasLocation. by rewrite (parseLocation_no_digit m H).
Qed.

Lemma no_digit_no_location_witness :
  parseLocation (js "https://maps.google.com/?q=north,east") = None
  /\ hasLocation (js "https://maps.google.com/?q=north,east") = false.
Proof.
  apply (no_digit_no_location (js "https://maps.google.com/?q=north,east")).
  apply no_digit_check. vm_compute. reflexivity.
Defined.

(** X15: the five commands (confirm, stop, help, more, location query) are
    pairwise exclusive, and none of them is ever taken for coordinates, so
    the order in which the route tests them against the location parser
    does not matter. *)
Theorem commands_are_exclusive (m : jsstring) :
  (command_count m <= 1)%nat
  /\ (is_command m = true -> parseLocation m = None).
Proof.
  split.
  - unfold command_count, isYesConfirmation, isStopCommand, isHelpCommand,
      isMoreCommand, isLocationQueryCommand. cbv zeta.
    generalize (toLowerCase (trim m)). intros n.
    repeat match goal with
           | |- context [str_eq n ?lit] =>
               let E := fresh "E" in
               destruct (str_eq n lit) eqn:E;
               [apply str_eq_true in E; subst n; vm_compute; lia|]
           end.
    cbn. lia.
  - unfold is_command, isYesConfirmation, isStopCommand, isHelpCommand,
      isMoreCommand, isLocationQueryCommand. cbv zeta.
    rewrite !orb_true_or, !str_eq_true. intros H.
    repeat match type of H with
           | _ \/ _ => destruct H as [H | H]
           end;
      exact (command_is_no_location m _ H eq_refl).
Qed.

Lemma commands_are_exclusive_witness :
  (command_count (js " Help ") <= 1)%nat
  /\ parseLocation (js " Help ") = None.
Proof.
  destruct (commands_are_exclusive (js " Help ")) as [Hc Hl].
  split; [exact Hc | apply Hl; reflexivity].
Defined.

Lemma parse_raw_valid text patterns loc :
  parse_raw text patterns = Some loc ->
  source loc = raw_coords /\ originalText loc = text
  /\ isValidCoordinate (lat (coordinates loc)) (lon (coordinates loc)) = true.
Proof.
  induction patterns as [|[ci pattern] rest IH]; cbn [parse_raw];
    [discriminate|].
  destruct (str_match ci pattern text) as [mt|]; [|exact IH].
  destruct (match_coordinates mt) as [ll|]; [|exact IH].
  destruct (isValidCoordinate ll.1 ll.2) eqn:Hv; [|exact IH].
  intros [= <-]. cbn. auto.
Qed.

(** X16: a location parsed from plain coordinates (not from a map link) is
    always within range: latitude in [-90, 90] and longitude in
    [-180, 180]; and every parsed location carries the trimmed message as
    its original text. *)
Theorem raw_coordinates_in_range (m : jsstring) (loc : ParsedLocation) :
  parseLocation m = Some loc ->
  originalText loc = trim m
  /\ (source loc = raw_coords ->
      (-90 <= lat (coordinates loc) <= 90
       /\ -180 <= lon (coordinates loc) <= 180)%Q).
Proof.
  unfold parseLocation.
  destruct (first_match true google_q_pattern google_at_pattern (trim m))
    as [g|].
  { destruct (match_coordinates g); [|discriminate].
    intros [= <-]. cbn. split; [reflexivity | discriminate]. }
  destruct (str_match true apple_pattern (trim m)) as [a|].
  { destruct (match_coordinates a); [|discriminate].
    intros [= <-]. cbn. split; [reflexivity | discriminate]. }
  intros H. apply parse_raw_valid in H as (_ & Ht & Hv).
  split; [exact Ht|]. intros _. unfold isValidCoordinate in Hv.
  rewrite !andb_true_iff in Hv. destruct Hv as [[[H1 H2] H3] H4].
  apply Qle_bool_iff in H1, H2, H3, H4. auto.
Qed.

Lemma raw_coordinates_in_range_witness :
  parseLocation (js "59,3293, 18,0686")
  = Some (located (js "59,3293, 18,0686") raw_coords
            (593293 # 10000, 180686 # 10000))
  /\ (-90 <= 593293 # 10000 <= 90 /\ -180 <= 180686 # 10000 <= 180)%Q.
Proof.
  assert (Hp : parseLocation (js "59,3293, 18,0686")
               = Some (located (js "59,3293, 18,0686") raw_coords
                         (593293 # 10000, 180686 # 10000)))
    by (vm_compute; reflexivity).
  split; [exact Hp|].
  destruct (raw_coordinates_in_range _ _ Hp) as [_ H].
  apply H. reflexivity.
Defined.

(** X17: without a number in the query the search radius is the default of
    10 kilometres. *)
Theorem radius_defaults_to_ten (query : jsstring) :
  Forall (fun c => is_digit c = false) query ->
  parseRadiusFromQuery query = 10%Q.
Proof.
  intros H. unfold parseRadiusFromQuery, radius_patterns, first_radius.
  rewrite !(str_match_needs_digit true) by (assumption || reflexivity).
  reflexivity.
Qed.

Lemma radius_defaults_to_ten_witness :
  parseRadiusFromQuery (js "nearest hospital within a few km") = 10%Q.
Proof.
  apply (radius_defaults_to_ten (js "nearest hospital within a few km")).
  apply no_digit_check. vm_compute. reflexivity.
Defined.

Lemma js_space_code c :
  is_js_space c = true -> (c <= 32 \/ c = 160 \/ 5760 <= c)%N.
Proof.
  unfold is_js_space. intros H. apply orb_true_iff in H as [H | H].
  - apply bool_decide_eq_true in H.
    repeat (apply elem_of_cons in H as [-> | H]; [lia|]).
    by apply elem_of_nil in H.
  - apply andb_true_iff in H as [H1 _]. apply N.leb_le in H1. lia.
Qed.

Lemma lower_unit_cases c :
  lower_unit c = c
  \/ (lower_unit c = (c + 32)%N
      /\ ((65 <= c <= 90)%N \/ (192 <= c <= 222)%N)).
Proof.
  unfold lower_unit.
  destruct (N.leb_spec 65 c), (N.leb_spec c 90), (N.leb_spec 192 c),
    (N.leb_spec c 222), (N.eqb_spec c 215); cbn [andb negb]; auto;
    right; split; auto; lia.
Qed.

Lemma js_space_lower_unit c : is_js_space (lower_unit c) = is_js_space c.
Proof.
  destruct (lower_unit_cases c) as [Hl | [Hl Hr]]; rewrite Hl;
    [reflexivity|].
  destruct (is_js_space c) eqn:Hc.
  - apply js_space_code in Hc. lia.
  - destruct (is_js_space (c + 32)) eqn:Hc'; [|reflexivity].
    apply js_space_code in Hc'. lia.
Qed.

Lemma lower_unit_idem c : lower_unit (lower_unit c) = lower_unit c.
Proof.
  destruct (lower_unit_cases c) as [H | [H Hr]]; rewrite H; [exact H|].
  unfold lower_unit.
  destruct (N.leb_spec 65 (c + 32)), (N.leb_spec (c + 32) 90),
    (N.leb_spec 192 (c + 32)), (N.leb_spec (c + 32) 222),
    (N.eqb_spec (c + 32) 215); cbn [andb negb]; try reflexivity; lia.
Qed.

Lemma trimStart_lower s :
  trimStart (toLowerCase s) = toLowerCase (trimStart s).
Proof.
  unfold toLowerCase. induction s as [|c s IH]; [reflexivity|].
  rewrite fmap_cons. cbn [trimStart]. rewrite js_space_lower_unit.
  destruct (is_js_space c); [exact IH | reflexivity].
Qed.

Lemma trim_lower s : trim (toLowerCase s) = toLowerCase (trim s).
Proof.
  unfold trim, trimEnd. rewrite trimStart_lower.
  unfold toLowerCase at 1. rewrite <- fmap_reverse.
  fold (toLowerCase (reverse (trimStart s))). rewrite trimStart_lower.
  unfold toLowerCase. by rewrite fmap_reverse.
Qed.

Lemma trimStart_pad ws s :
  Forall (fun c => is_js_space c = true) ws ->
  trimStart (ws ++ s) = trimStart s.
Proof.
  induction 1 as [|c ws Hc _ IH]; [reflexivity|].
  cbn [app trimStart]. by rewrite Hc.
Qed.

Lemma trimEnd_pad s ws :
  Forall (fun c => is_js_space c = true) ws ->
  trimEnd (s ++ ws) = trimEnd s.
Proof.
  intros H. unfold trimEnd. rewrite reverse_app, trimStart_pad; [reflexivity|].
  by apply Forall_reverse.
Qed.

Lemma trim_pad ws1 s ws2 :
  Forall (fun c => is_js_space c = true) ws1 ->
  Forall (fun c => is_js_space c = true) ws2 ->
  trim (ws1 ++ s ++ ws2) = trim s.
Proof.
  intros H1 H2. unfold trim. rewrite (trimStart_pad ws1 _ H1).
  induction s as [|c s IH].
  - cbn [app]. rewrite <- (app_nil_r ws2), (trimStart_pad ws2 [] H2).
    reflexivity.
  - cbn [app trimStart]. destruct (is_js_space c); [exact IH|].
    by rewrite app_comm_cons, (trimEnd_pad (c :: s) ws2 H2).
Qed.

(** X18: the classifiers look at the message through trimming and case
    folding only: padding it with white space on either side and writing
    it in lower case changes none of the five answers. *)
Theorem classifiers_ignore_case_and_padding (m ws1 ws2 : jsstring) :
  Forall (fun c => is_js_space c = true) ws1 ->
  Forall (fun c => is_js_space c = true) ws2 ->
  let m' := ws1 ++ toLowerCase m ++ ws2 in
  isYesConfirmation m' = isYesConfirmation m
  /\ isStopCommand m' = isStopCommand m
  /\ isHelpCommand m' = isHelpCommand m
  /\ isMoreCommand m' = isMoreCommand m
  /\ isLocationQueryCommand m' = isLocationQueryCommand m.
Proof.
  intros H1 H2 m'.
  assert (Hn : toLowerCase (trim m') = toLowerCase (trim m)).
  { subst m'. rewrite (trim_pad ws1 _ ws2 H1 H2), trim_lower.
    unfold toLowerCase. rewrite <- list_fmap_compose.
    apply list_fmap_ext. intros i c _. apply lower_unit_idem. }
  unfold isYesConfirmation, isStopCommand, isHelpCommand, isMoreCommand,
    isLocationQueryCommand. cbv zeta. by rewrite Hn.
Qed.

Lemma classifiers_ignore_case_and_padding_witness :
  isStopCommand (js "  " ++ toLowerCase (js "StOp") ++ js " ")
  = isStopCommand (js "StOp")
  /\ isMoreCommand (js "  " ++ toLowerCase (js "Tell Me More") ++ js " ")
     = isMoreCommand (js "Tell Me More").
Proof.
  destruct (classifiers_ignore_case_and_padding (js "StOp") (js "  ")
              (js " ")) as (_ & Hstop & _);
    [repeat constructor | repeat constructor |].
  destruct (classifiers_ignore_case_and_padding (js "Tell Me More")
              (js "  ") (js " ")) as (_ & _ & _ & Hmore & _);
    [repeat constructor | repeat constructor |].
  split; [exact Hstop | exact Hmore].
Defined.

(** ** Text utilities *)

(** X19: [truncateForSMS] returns a text that fits as it is, and for a
    longer text (and a limit that is not negative) a proper prefix of the
    text followed by three dots; the result is never longer than the
    limit, for a limit of at least 3 (below that the three dots alone are
    returned, so the result has length 3). *)
Theorem truncate_bounds (text : jsstring) (maxLength : Z) :
  let r := truncateForSMS text maxLength in
  Z.of_nat (length r) <= Z.max maxLength 3
  /\ (Z.of_nat (length text) <= maxLength -> r = text)
  /\ (0 <= maxLength < Z.of_nat (length text) ->
      exists k, (k < length text)%nat /\ r = take k text ++ js "...").
Proof.
  intros r. subst r. unfold truncateForSMS.
  destruct (Z.leb_spec (Z.of_nat (length text)) maxLength) as [Hfit | Hlong].
  - split; [lia | split; [reflexivity | lia]].
  - split; [| split; [lia |]].
    + rewrite length_app, length_take.
      change (length (js "...")) with 3%nat. lia.
    + intros [H0 _]. destruct (Z.le_gt_cases maxLength 3).
      * exists 0%nat. split; [lia|].
        replace (Z.to_nat (maxLength - 3)) with 0%nat by lia. reflexivity.
      * exists (Z.to_nat (maxLength - 3)). split; [lia | reflexivity].
Qed.

Lemma truncate_bounds_witness :
  truncateForSMS (js "No previous response") 10 = js "No prev..."
  /\ truncateForSMS (js "short") 10 = js "short".
Proof.
  destruct (truncate_bounds (js "short") 10) as (_ & Hfit & _).
  split; [reflexivity | apply Hfit; simpl; lia].
Defined.

(** X20: the segment estimate is 1 for a text of at most 160 characters
    and otherwise the least number of 153-character parts that hold the
    text: the four thresholds of the function agree with its general
    formula. *)
Theorem segments_cover_text (text : jsstring) :
  let len := Z.of_nat (length text) in
  let n := estimateSmsSegments text in
  (len <= 160 -> n = 1)
  /\ (160 < len -> 153 * (n - 1) < len <= 153 * n).
Proof.
  intros len n. subst n. unfold estimateSmsSegments. fold len.
  destruct (Z.leb_spec len 160); [split; [reflexivity | lia]|].
  split; [lia|]. intros _.
  destruct (Z.leb_spec len 306); [lia|].
  destruct (Z.leb_spec len 459); [lia|].
  destruct (Z.leb_spec len 612); [lia|].
  pose proof (Z.div_mod (len + 152) 153 ltac:(lia)).
  pose proof (Z.mod_pos_bound (len + 152) 153 ltac:(lia)). lia.
Qed.

Lemma segments_cover_text_witness :
  estimateSmsSegments (replicate 160 97%N) = 1
  /\ 153 * (estimateSmsSegments (replicate 700 97%N) - 1) < 700
     <= 153 * estimateSmsSegments (replicate 700 97%N).
Proof.
  destruct (segments_cover_text (replicate 160 97%N)) as [H1 _].
  destruct (segments_cover_text (replicate 700 97%N)) as [_ H2].
  split; [apply H1 | apply H2]; rewrite length_replicate; lia.
Defined.

Lemma collapse_newlines_safe s :
  Forall sms_safe s -> Forall sms_safe (collapse_newlines s).
Proof.
  induction 1 as [|c s Hc Hs IH]; [constructor|].
  cbn [collapse_newlines]. destruct (c =? 10)%N.
  - destruct s as [|d s]; [constructor; [exact Hc | constructor]|].
    destruct (d =? 10)%N; [exact IH | by constructor].
  - by constructor.
Qed.

Lemma trim_safe (P : N -> Prop) s : Forall P s -> Forall P (trim s).
Proof.
  intros H. destruct (trim_split s) as (ws1 & ws2 & Hs & _ & _).
  rewrite Hs in H. apply Forall_app in H as [_ H].
  by apply Forall_app in H as [H _].
Qed.

Lemma split_lines_safe s :
  Forall sms_safe s ->
  Forall sms_safe (split_lines s).1
  /\ Forall (Forall sms_safe) (split_lines s).2.
Proof.
  induction 1 as [|c s Hc Hs [IH1 IH2]]; [by split; constructor|].
  cbn [split_lines]. destruct (split_lines s) as [line lines].
  cbn [fst snd] in *. destruct (c =? 10)%N; cbn [fst snd].
  - split; [constructor | by constructor].
  - split; [by constructor | exact IH2].
Qed.

Lemma join_lines_safe lines : forall first,
  Forall sms_safe first -> Forall (Forall sms_safe) lines ->
  Forall sms_safe (join_lines first lines).
Proof.
  induction lines as [|l lines IH]; intros first Hf Hl; [exact Hf|].
  cbn [join_lines]. inversion Hl; subst.
  apply Forall_app. split; [exact Hf|].
  constructor; [by left | by apply IH].
Qed.

(** X21: whatever the input, [normalizeSmsText] returns newlines and
    printable ASCII only (code units 10 and 32 to 126): nothing else
    reaches the SMS gateway. *)
Theorem normalized_sms_is_ascii (input : jsstring) :
  Forall sms_safe (normalizeSmsText input).
Proof.
  unfold normalizeSmsText. destruct input as [|c0 input0]; [constructor|].
  cbv zeta.
  match goal with
  | |- context [remove_class ?cls ?s] =>
      assert (Hsafe : Forall sms_safe (remove_class cls s))
  end.
  { unfold remove_class. apply Forall_forall. intros x Hx.
    apply list_elem_of_filter in Hx as [Hx _].
    apply negb_false_iff, orb_true_iff in Hx as [Hx | Hx].
    - left. by apply N.eqb_eq.
    - right. apply andb_true_iff in Hx as [H1 H2].
      apply N.leb_le in H1, H2. lia. }
  apply collapse_newlines_safe, (trim_safe sms_safe), split_lines_safe
    in Hsafe as [H1 H2].
  destruct (split_lines _) as [line lines]. cbn [fst snd] in *.
  apply join_lines_safe; [by apply trim_safe|].
  apply Forall_fmap. eapply Forall_impl; [exact H2|].
  intros l Hl. by apply trim_safe.
Qed.

Lemma normalizePhoneNumber_shape phone :
  startsWith (normalizePhoneNumber phone) (js "+") = true
  /\ Forall (fun c => is_digit c = true \/ c = 43%N)
       (normalizePhoneNumber phone).
Proof.
  unfold normalizePhoneNumber.
  set (n := filter _ phone).
  assert (Hn : Forall (fun c => is_digit c = true \/ c = 43%N) n).
  { subst n. apply Forall_forall. intros c Hc.
    by apply list_elem_of_filter in Hc as [Hc _]. }
  destruct (startsWith n (js "+")) eqn:Hs; [by split|].
  change (js "+1" ++ n) with (43%N :: 49%N :: n).
  change (js "+" ++ n) with (43%N :: n).
  assert (Hp : forall k, startsWith (43%N :: k) (js "+") = true)
    by (by intros [|? ?]).
  destruct (length n =? 10)%nat.
  - split; [apply Hp|]. constructor; [by right|].
    constructor; [by left | exact Hn].
  - destruct (_ && _); (split; [apply Hp | by constructor; [right|]]).
Qed.

(** X22: [normalizePhoneNumber] always returns a text that starts with [+]
    and holds only digits and [+], and it leaves such a text as it is:
    normalizing twice is normalizing once. *)
Theorem normalizePhoneNumber_idempotent (phone : jsstring) :
  startsWith (normalizePhoneNumber phone) (js "+") = true
  /\ Forall (fun c => is_digit c = true \/ c = 43%N)
       (normalizePhoneNumber phone)
  /\ normalizePhoneNumber (normalizePhoneNumber phone)
     = normalizePhoneNumber phone.
Proof.
  destruct (normalizePhoneNumber_shape phone) as [Hs Hc].
  repeat split; [exact Hs | exact Hc |].
  generalize dependent (normalizePhoneNumber phone). intros r Hs Hc.
  unfold normalizePhoneNumber.
  assert (Hf : filter (fun c => ((48 <=? c) && (c <=? 57))%N = true
                                \/ c = 43%N) r = r).
  { clear Hs. induction Hc as [|c r Hc _ IH]; [reflexivity|].
    rewrite filter_cons, decide_True by exact Hc. by rewrite IH. }
  by rewrite Hf, Hs.
Qed.

(** ** The ledger of a request *)

Lemma updateSession_accounts d p m resp now :
  users (updateSession d p m resp now) = users d
  /\ transactions (updateSession d p m resp now) = transactions d
  /\ custom_agents (updateSession d p m resp now) = custom_agents d.
Proof.
  unfold updateSession.
  destruct (getSession d p now); [done|].
  by destruct (truthy m).
Qed.

Lemma ledger_same_accounts d d' :
  users d' = users d -> transactions d' = transactions d -> ledger_same d d'.
Proof.
  intros Hu Ht. split; [exact Ht|].
  intros q. unfold balance, getUser. by rewrite Hu.
Qed.

Lemma balance_update_user_ne d p q f :
  q <> p -> balance (update_user d p f) q = balance d q.
Proof.
  intros Hq. unfold balance, getUser, update_user, set_users. cbn [users].
  by rewrite lookup_alter_ne.
Qed.

Lemma ledger_same_update_user d p f :
  (forall u, credits_remaining (f u) = credits_remaining u) ->
  ledger_same d (update_user d p f).
Proof.
  intros Hf. split; [reflexivity|]. intros q.
  destruct (decide (q = p)) as [->|Hq].
  - rewrite balance_update_user. unfold balance.
    destruct (getUser d p); cbn; [by rewrite Hf | done].
  - by apply balance_update_user_ne.
Qed.

(** The debit and the usage entry that follow a passed credit gate. *)
Lemma charge_spec d d1 p descr now :
  users d1 = users d -> transactions d1 = transactions d ->
  hasCredits d p 1 = true -> truthy (Some descr) = Some descr ->
  charged_once p now d
    (logTransaction (deductCredits d1 p 1 now).2 p usage (-1) (Some descr)
       None now).
Proof.
  intros Hu Ht Hc Hd. unfold hasCredits in Hc.
  assert (Hg : getUser d1 p = getUser d p) by (unfold getUser; by rewrite Hu).
  destruct (getUser d p) as [u|] eqn:Hget; [|discriminate].
  apply Z.leb_le in Hc.
  exists (credits_remaining u), descr.
  unfold deductCredits. rewrite Hg.
  destruct (Z.ltb_spec (credits_remaining u) 1); [lia|]. cbn [snd].
  repeat split.
  - unfold balance. by rewrite Hget.
  - exact Hc.
  - unfold logTransaction, balance, getUser, set_transactions. cbn [users].
    fold (getUser (update_user d1 p
                     (fun u0 => touch now
                                  (set_credits u0 (credits_remaining u0 - 1))))
            p).
    rewrite getUser_update_user, Hg. reflexivity.
  - intros q Hq. unfold logTransaction, set_transactions, balance, getUser.
    cbn [users]. unfold update_user, set_users. cbn [users].
    rewrite lookup_alter_ne by congruence. by rewrite Hu.
  - unfold logTransaction, set_transactions. cbn [transactions].
    unfold update_user, set_users. cbn [transactions]. by rewrite Ht, Hd.
Qed.

Lemma charged_once_accounts p now d d1 d2 :
  users d2 = users d1 -> transactions d2 = transactions d1 ->
  charged_once p now d d1 -> charged_once p now d d2.
Proof.
  intros Hu Ht (b & descr & H1 & H2 & H3 & H4 & H5).
  exists b, descr. unfold balance, getUser in *. rewrite Hu, Ht. done.
Qed.

Ltac run_request :=
  cbv [bind ret read_db write_db sendSMS call try_catch set_db];
  cbn [db outbox rateLimiter fst snd].

(** A reply that goes with an unchanged ledger. *)
Lemma answered_same p now w d' body l :
  ledger_same (db w) d' -> (is_failure body -> d' = db w) ->
  answered p now w
    {| db := d';
       outbox := outbox w ++
         [{| sms_to := p; sms_body := body; sms_language := l |}];
       rateLimiter := rateLimiter w |}.
Proof.
  intros Hl Hf. split; [reflexivity|]. exists body.
  split; [by exists l|]. left. by split.
Qed.

(** A reply that goes with one charged credit. *)
Lemma answered_charged p now w d' body l :
  charged_once p now (db w) d' -> ~ is_failure body ->
  answered p now w
    {| db := d';
       outbox := outbox w ++
         [{| sms_to := p; sms_body := body; sms_language := l |}];
       rateLimiter := rateLimiter w |}.
Proof.
  intros Hc Hf. split; [reflexivity|]. exists body.
  split; [by exists l|]. right. by split.
Qed.

Lemma ledger_same_refl d : ledger_same d d.
Proof. by split. Qed.

Lemma text_is_no_failure s : ~ is_failure (Text s).
Proof. intros [H | [l H]]; discriminate. Qed.

Lemma handleNoCredits_effect p l now w :
  (handleNoCredits p l w).1 = Some tt
  /\ answered p now w (handleNoCredits p l w).2.
Proof.
  unfold handleNoCredits. run_request. split; [reflexivity|].
  apply answered_same; [apply ledger_same_refl | done].
Qed.

(** [handleMoreCommand] sends one message that is no failure reply, and
    leaves the accounts and the transaction log as they were. *)
Lemma handleMoreCommand_reply svc p l now w :
  let r := handleMoreCommand svc p l now w in
  r.1 = Some tt
  /\ rateLimiter r.2 = rateLimiter w
  /\ users (db r.2) = users (db w)
  /\ transactions (db r.2) = transactions (db w)
  /\ exists body, replied p w r.2 body /\ ~ is_failure body.
Proof.
  unfold handleMoreCommand. run_request.
  destruct (lastAiResponse _) as [lastReply|];
    [destruct (last _) as [lastUserMessage|]|].
  - destruct (expandResponse _ _ _ _) as [expanded|]; cbn [fst snd db outbox
      rateLimiter].
    + destruct (updateSession_accounts (db w) p None expanded now)
        as (Hu & Ht & _).
      repeat split; [exact Hu | exact Ht |].
      exists (Text expanded). split; [by eexists | apply text_is_no_failure].
    + repeat split. exists ExpandErrorText.
      split; [by eexists | intros [H | [? H]]; discriminate].
  - cbn. repeat split. exists NoPreviousResponseText.
    split; [by eexists | intros [H | [? H]]; discriminate].
  - cbn. repeat split. exists NoPreviousResponseText.
    split; [by eexists | intros [H | [? H]]; discriminate].
Qed.

Lemma handleImageAnalysis_effect svc p url question l now w :
  (handleImageAnalysis svc p url question l now w).1 = Some tt
  /\ answered p now w (handleImageAnalysis svc p url question l now w).2.
Proof.
  unfold handleImageAnalysis. run_request.
  destruct (hasCredits (db w) p 1) eqn:Hc; cbn [negb].
  - destruct (analyzeImage _ _ _ _ _) as [aiResponse|];
      cbn [fst snd db outbox rateLimiter].
    + split; [reflexivity|]. apply answered_charged;
        [|apply text_is_no_failure].
      destruct (updateSession_accounts (db w) p
                  (Some (image_prefix ++ question)) aiResponse now)
        as (Hu & Ht & _).
      by apply charge_spec.
    + split; [reflexivity|].
      apply answered_same; [apply ledger_same_refl | done].
  - apply (handleNoCredits_effect p l now w).
Qed.

Lemma handleLocationQuery_effect p now w :
  (handleLocationQuery p now w).1 = Some tt
  /\ answered p now w (handleLocationQuery p now w).2.
Proof.
  unfold handleLocationQuery. run_request.
  destruct (getLastLocation _ _ _) as [[la lo]|];
    (split; [reflexivity|]);
    (apply answered_same; [apply ledger_same_refl | done]).
Qed.

Lemma handleStopCommand_effect p l now w :
  (handleStopCommand p l now w).1 = Some tt
  /\ answered p now w (handleStopCommand p l now w).2.
Proof.
  unfold handleStopCommand. run_request. split; [reflexivity|].
  apply answered_same.
  - by apply ledger_same_update_user.
  - intros [H | [? H]]; discriminate.
Qed.

Lemma handleHelpCommand_effect p l now w :
  (handleHelpCommand p l w).1 = Some tt
  /\ answered p now w (handleHelpCommand p l w).2.
Proof.
  unfold handleHelpCommand. run_request. split; [reflexivity|].
  apply answered_same; [apply ledger_same_refl | done].
Qed.

Lemma handleGPSMessage_effect svc p location m now w :
  (handleGPSMessage svc p location m now w).1 = Some tt
  /\ answered p now w (handleGPSMessage svc p location m now w).2.
Proof.
  unfold handleGPSMessage. run_request.
  assert (Hl : ledger_same (db w)
                 (saveLocation (db w) p (lat (coordinates location))
                    (lon (coordinates location)) now))
    by (by apply ledger_same_accounts).
  destruct (parseCategoryFromQuery _) as [category|].
  - destruct (searchNearby _ _ _ _) as [result|];
      cbn [fst snd db outbox rateLimiter];
      (split; [reflexivity|]);
      (apply answered_same; [exact Hl | intros [H | [? H]]; discriminate]).
  - cbn [fst snd db outbox rateLimiter]. split; [reflexivity|].
    apply answered_same; [exact Hl|].
    intros [H | [? H]]; repeat case_match; discriminate.
Qed.

(** [handlePlaceSearch] either declines and changes nothing, or answers. *)
Lemma handlePlaceSearch_effect svc p m now w :
  handlePlaceSearch svc p m now w = (Some false, w)
  \/ ((handlePlaceSearch svc p m now w).1 = Some true
      /\ answered p now w (handlePlaceSearch svc p m now w).2).
Proof.
  unfold handlePlaceSearch. run_request.
  destruct (negb _); [by left|].
  destruct (parseCategoryFromQuery m) as [category|]; [|by left].
  destruct (getLastLocation _ _ _) as [[la lo]|].
  - destruct (searchNearby _ _ _ _) as [result|]; [|by left].
    destruct (hasCredits (db w) p 1) eqn:Hc;
      cbn [negb fst snd db outbox rateLimiter]; right.
    + split; [reflexivity|].
      apply answered_charged; [|apply text_is_no_failure].
      eapply charged_once_accounts;
        [apply updateSession_accounts | apply updateSession_accounts|].
      by apply charge_spec.
    + split; [reflexivity|].
      apply answered_same; [apply ledger_same_refl | done].
  - right. cbn [fst snd]. split; [reflexivity|].
    apply answered_same; [apply ledger_same_refl | done].
Qed.

(** A handler that never throws and answers, run under a [try]. *)
Lemma try_catch_answered (m h : M unit) p now w :
  (m w).1 = Some tt /\ answered p now w (m w).2 ->
  (try_catch m h w).1 = Some tt
  /\ request_effect p now w (try_catch m h w).2.
Proof.
  intros [H1 H2]. rewrite try_catch_run.
  destruct (m w) as [r w']. cbn [fst snd] in *. subst r.
  by split; [|right].
Qed.

(** The route of an active identity never throws; it either does nothing
    at all or answers by one message, with the ledger as before or one
    credit charged. *)
Lemma handleActiveUserMessage_effect svc p m mediaUrl mediaType l now w :
  (handleActiveUserMessage svc p m mediaUrl mediaType l now w).1 = Some tt
  /\ request_effect p now w
       (handleActiveUserMessage svc p m mediaUrl mediaType l now w).2.
Proof.
  unfold handleActiveUserMessage.
  destruct (is_image mediaUrl mediaType) as [[|url]|];
    [change (try_catch (bind (call (Some NoImage)) ?k) ?h w)
       with (try_catch (k NoImage) h w); cbv beta iota
    |apply try_catch_answered, handleImageAnalysis_effect
    |split; [reflexivity|]; right;
     apply answered_same; [apply ledger_same_refl | done]].
  destruct (length (trim m) =? 0)%nat; [by split; [|left]|].
  destruct (isStopCommand m);
    [apply try_catch_answered, handleStopCommand_effect|].
  destruct (isHelpCommand m);
    [apply try_catch_answered, handleHelpCommand_effect|].
  destruct (parseLocation m) as [parsedLocation|];
    [apply try_catch_answered, handleGPSMessage_effect|].
  rewrite try_catch_run, bind_run.
  destruct (handlePlaceSearch_effect svc p m now w) as [Hps | [H1 H2]].
  2:{ destruct (handlePlaceSearch _ _ _ _ _) as [r w'].
      cbn [fst snd] in H1, H2. subst r. by split; [|right]. }
  rewrite Hps.
  destruct (isLocationQueryCommand m).
  { destruct (handleLocationQuery_effect p now w) as [H1 H2].
    destruct (handleLocationQuery _ _ _) as [r w']. cbn [fst snd] in H1, H2.
    subst r. by split; [|right]. }
  destruct (isMoreCommand m).
  { rewrite bind_run, read_db_run. cbv beta iota.
    destruct (hasCredits (db w) p 1) eqn:Hc; cbn [negb].
    - rewrite bind_run.
      destruct (handleMoreCommand_reply svc p l now w)
        as (H1 & Hrl & Hu & Ht & body & [l' Hout] & Hnf).
      destruct (handleMoreCommand _ _ _ _ _) as [r w'].
      cbn [fst snd] in H1, Hrl, Hu, Ht, Hout. subst r. run_request.
      split; [reflexivity|]. right.
      split; [exact Hrl|]. exists body. split; [by exists l'|]. right.
      split; [|exact Hnf]. by apply charge_spec.
    - destruct (handleNoCredits_effect p l now w) as [H1 H2].
      destruct (handleNoCredits _ _ _) as [r w']. cbn [fst snd] in H1, H2.
      subst r. by split; [|right]. }
  rewrite bind_run, call_run.
  destruct (handleWeatherQuery svc m) as [weather|].
  2:{ run_request. split; [reflexivity|]. right.
      apply answered_same; [apply ledger_same_refl | done]. }
  destruct (truthy weather) as [weatherResponse|].
  - rewrite bind_run, read_db_run. cbv beta iota.
    destruct (hasCredits (db w) p 1) eqn:Hc; cbn [negb].
    + run_request. split; [reflexivity|]. right.
      apply answered_charged; [|apply text_is_no_failure].
      eapply charged_once_accounts;
        [apply updateSession_accounts | apply updateSession_accounts|].
      by apply charge_spec.
    + destruct (handleNoCredits_effect p l now w) as [H1 H2].
      destruct (handleNoCredits _ _ _) as [r w']. cbn [fst snd] in H1, H2.
      subst r. by split; [|right].
  - rewrite bind_run, read_db_run. cbv beta iota.
    destruct (hasCredits (db w) p 1) eqn:Hc; cbn [negb].
    + run_request.
      destruct (getActiveCustomAgent (db w) p) as [agent|].
      * destruct (generateResponseWithCustomPrompt _ _ _ _ _ _)
          as [aiResponse|]; cbn [fst snd db outbox rateLimiter].
        -- split; [reflexivity|]. right.
           apply answered_charged; [|apply text_is_no_failure].
           destruct (updateSession_accounts (db w) p (Some m) aiResponse now)
             as (Hu & Ht & _).
           by apply charge_spec.
        -- split; [reflexivity|]. right.
           apply answered_same; [apply ledger_same_refl | done].
      * destruct (generateResponse _ _ _ _ _ _) as [aiResponse|];
          cbn [fst snd db outbox rateLimiter].
        -- split; [reflexivity|]. right.
           apply answered_charged; [|apply text_is_no_failure].
           destruct (updateSession_accounts (db w) p (Some m) aiResponse now)
             as (Hu & Ht & _).
           by apply charge_spec.
        -- split; [reflexivity|]. right.
           apply answered_same; [apply ledger_same_refl | done].
    + destruct (handleNoCredits_effect p l now w) as [H1 H2].
      destruct (handleNoCredits _ _ _) as [r w']. cbn [fst snd] in H1, H2.
      subst r. by split; [|right].
Qed.

(** X23: whatever the message, the attachment and the answers of the
    collaborators, the route of an active identity never throws (database
    statements and SMS sends taken to succeed), leaves the rate limiter
    alone, sends at most one message (to the sender), and
    either leaves all balances and the transaction log as they were or
    takes exactly one credit from the sender, whose balance was at least 1,
    and appends exactly one usage entry of -1 for the sender: no message
    costs more than one credit, no debit goes without its log entry, and
    no balance of another identity changes. *)
Theorem message_costs_at_most_one_credit (svc : Services) (p m : jsstring)
    (mediaUrl mediaType : Field) (l : Lang) (now : Z) (w : World) :
  let r := handleActiveUserMessage svc p m mediaUrl mediaType l now w in
  r.1 = Some tt
  /\ rateLimiter r.2 = rateLimiter w
  /\ (outbox r.2 = outbox w \/ exists body, replied p w r.2 body)
  /\ (ledger_same (db w) (db r.2) \/ charged_once p now (db w) (db r.2)).
Proof.
  intros r.
  destruct (handleActiveUserMessage_effect svc p m mediaUrl mediaType l now w)
    as [H1 [H2 | (Hrl & body & Hrep & H2)]]; fold r in H1, H2 |- *.
  - rewrite H2. repeat split; [exact H1 | by left | left; apply ledger_same_refl].
  - fold r in Hrl, Hrep. repeat split; [exact H1 | exact Hrl | |].
    + right. by exists body.
    + destruct H2 as [[H2 _] | [H2 _]]; [by left | by right].
Qed.

(** X24: when the route of an active identity answers by the generic error
    message or by the image error message - a collaborator rejected the
    call - the database is exactly as before the request: nothing was
    charged, logged or stored in the session. Database statements and SMS
    sends are taken to succeed. *)
Theorem failure_reply_leaves_database (svc : Services) (p m : jsstring)
    (mediaUrl mediaType : Field) (l : Lang) (now : Z) (w : World)
    (body : SmsBody) :
  let r := handleActiveUserMessage svc p m mediaUrl mediaType l now w in
  replied p w r.2 body -> is_failure body -> db r.2 = db w.
Proof.
  intros r [l1 Hrep] Hf.
  destruct (handleActiveUserMessage_effect svc p m mediaUrl mediaType l now w)
    as [_ [H2 | (_ & body' & [l2 Hrep'] & H2)]]; fold r in H2 |- *.
  - by rewrite H2.
  - fold r in Hrep'. rewrite Hrep in Hrep'.
    apply app_inv_head in Hrep'. injection Hrep' as Hb _. subst body'.
    destruct H2 as [[_ H2] | [_ H2]]; [by apply H2 | by destruct H2].
Qed.

Lemma failure_reply_leaves_database_witness :
  sms_body <$> outbox hello_while_down.2 = [GenericErrorText]
  /\ db hello_while_down.2 = db (world_with_balance 3).
Proof.
  split; [reflexivity|].
  apply (failure_reply_leaves_database failing_services alice (js "hello")
           Missing Missing sv 0 (world_with_balance 3) GenericErrorText).
  - exists sv. reflexivity.
  - by left.
Defined.

(** ** The webhook *)

Lemma update_user_id d p f :
  (forall u, f u = u) -> update_user d p f = d.
Proof.
  intros Hf. unfold update_user, set_users.
  rewrite alter_id by (intros; apply Hf). by destruct d.
Qed.

Lemma update_user_compose d p f g :
  update_user (update_user d p f) p g = update_user d p (g ∘ f).
Proof.
  unfold update_user, set_users. cbn [users sessions next_session_id
    transactions custom_agents]. by rewrite alter_alter_eq.
Qed.

Lemma sync_rel_refl p d : sync_rel p d d.
Proof. exists (fun u => u). split; [by rewrite update_user_id | done]. Qed.

Lemma sync_rel_step p d d1 g :
  (forall u, status (g u) = status u
     /\ credits_remaining (g u) = credits_remaining u
     /\ selected_categories (g u) = selected_categories u
     /\ active_agent_id (g u) = active_agent_id u
     /\ consent_timestamp (g u) = consent_timestamp u) ->
  sync_rel p d d1 -> sync_rel p d (update_user d1 p g).
Proof.
  intros Hg (f & -> & Hf). exists (g ∘ f).
  split; [apply update_user_compose|].
  intros u. destruct (Hf u) as (? & ? & ? & ? & ?).
  destruct (Hg (f u)) as (? & ? & ? & ? & ?). cbn.
  repeat split; congruence.
Qed.

Lemma read_message_run {B} req m (k : jsstring -> M B) w :
  message_of req = Some m ->
  bind (if field_truthy (Body req)
        then do b <- call (as_string (Body req)); ret (sanitizeInput b)
        else ret []) k w
  = k m w.
Proof.
  unfold message_of. destruct (field_truthy (Body req)).
  - destruct (as_string (Body req)); cbn; [|discriminate].
    by intros [= <-].
  - by intros [= <-].
Qed.

Lemma read_message_throw {B} req (k : jsstring -> M B) w :
  message_of req = None ->
  bind (if field_truthy (Body req)
        then do b <- call (as_string (Body req)); ret (sanitizeInput b)
        else ret []) k w
  = (None, w).
Proof.
  unfold message_of. destruct (field_truthy (Body req)); [|discriminate].
  by destruct (as_string (Body req)).
Qed.

Lemma read_media_run {B} req media (k : jsstring -> M B) w :
  has_media req = Some media ->
  exists t,
    bind (if field_truthy (NumMedia req) then call (to_text (NumMedia req))
          else ret (js "0")) k w
    = k t w
    /\ match parseInt t with Some n => 0 <? n | None => false end = media.
Proof.
  unfold has_media. destruct (field_truthy (NumMedia req)).
  - destruct (to_text (NumMedia req)) as [t|]; cbn; [|discriminate].
    intros [= <-]. by exists t.
  - cbn. intros [= <-]. by eexists.
Qed.

Lemma read_media_throw {B} req (k : jsstring -> M B) w :
  has_media req = None ->
  bind (if field_truthy (NumMedia req) then call (to_text (NumMedia req))
        else ret (js "0")) k w
  = (None, w).
Proof.
  unfold has_media. destruct (field_truthy (NumMedia req)); [|discriminate].
  by destruct (to_text (NumMedia req)).
Qed.

Lemma field_truthy_str s : s <> [] -> field_truthy (Str s) = true.
Proof. by destruct s. Qed.

(** A request that the webhook reads without throwing is handed to
    [webhook_route]. *)
Lemma incoming_read svc req now w from to m media :
  readable req from to m media ->
  incoming svc req now w
  = try_catch
      (webhook_route svc (normalizePhoneNumber from) (normalizePhoneNumber to)
         m (media_url_of req media) (media_type_of req media) now)
      (ret 500) w.
Proof.
  intros (HF & Hfrom & HT & Hto & Hm & Hmedia).
  unfold incoming. rewrite try_catch_run, HF, HT.
  rewrite !field_truthy_str by assumption. cbn [negb orb].
  rewrite bind_run, call_run. cbn [as_string].
  rewrite bind_run, call_run. cbn [as_string].
  rewrite (read_message_run req m _ w Hm).
  destruct (read_media_run req media
              (fun numMedia =>
                 let hasMedia :=
                   match parseInt numMedia with
                   | Some n => 0 <? n
                   | None => false
                   end in
                 webhook_route svc (normalizePhoneNumber from)
                   (normalizePhoneNumber to) m
                   (media_url_of req hasMedia) (media_type_of req hasMedia)
                   now) w Hmedia) as (t & Hrun & Ht).
  cbv zeta in Hrun. rewrite Ht in Hrun. rewrite try_catch_run, <- Hrun.
  reflexivity.
Qed.

(** A request that makes the webhook throw while it reads it is answered by
    500 and changes nothing. *)
Lemma incoming_unreadable svc req now w :
  unreadable req -> incoming svc req now w = (Some 500, w).
Proof.
  intros (HF & HT & H). unfold incoming. rewrite try_catch_run, HF, HT.
  cbn [negb orb]. rewrite bind_run, call_run.
  destruct (as_string (From req)) as [from|]; [|reflexivity].
  rewrite bind_run, call_run.
  destruct (as_string (To req)) as [to|]; [|reflexivity].
  destruct (message_of req) as [m|] eqn:Hm;
    [|by rewrite read_message_throw].
  rewrite (read_message_run req m _ w Hm).
  destruct (has_media req) as [media|] eqn:Hmedia;
    [|by rewrite read_media_throw].
  destruct H as [H | [H | [H | H]]]; discriminate.
Qed.

Lemma incoming_missing svc req now w :
  field_truthy (From req) = false \/ field_truthy (To req) = false ->
  incoming svc req now w = (Some 400, w).
Proof.
  intros H. unfold incoming. rewrite try_catch_run.
  destruct H as [-> | ->]; [reflexivity|].
  by rewrite orb_true_r.
Qed.

Lemma readable_intro req from to m media :
  field_truthy (From req) = true -> field_truthy (To req) = true ->
  as_string (From req) = Some from -> as_string (To req) = Some to ->
  message_of req = Some m -> has_media req = Some media ->
  readable req from to m media.
Proof.
  unfold readable. intros HF HT Hfrom Hto Hm Hmedia.
  destruct (From req) as [|s1|]; try discriminate.
  destruct (To req) as [|s2|]; try discriminate.
  injection Hfrom as ->. injection Hto as ->.
  repeat split; try done.
  - by destruct from.
  - by destruct to.
Qed.

(** Every request is of one of three kinds. *)
Lemma request_cases req :
  (field_truthy (From req) = false \/ field_truthy (To req) = false)
  \/ unreadable req
  \/ exists from to m media, readable req from to m media.
Proof.
  destruct (field_truthy (From req)) eqn:HF; [|by left; left].
  destruct (field_truthy (To req)) eqn:HT; [|by left; right].
  right.
  destruct (as_string (From req)) as [from|] eqn:Hfrom;
    [|left; split; [done|split; [done|by left]]].
  destruct (as_string (To req)) as [to|] eqn:Hto;
    [|left; split; [done|split; [done|by right; left]]].
  destruct (message_of req) as [m|] eqn:Hm;
    [|left; split; [done|split; [done|by right; right; left]]].
  destruct (has_media req) as [media|] eqn:Hmedia;
    [|left; split; [done|split; [done|by right; right; right]]].
  right. exists from, to, m, media. by apply readable_intro.
Qed.

Lemma incoming_first_contact svc req now w from to m media :
  readable req from to m media ->
  userExists (db w) (normalizePhoneNumber from) = false ->
  incoming svc req now w
  = (Some 200,
     {| db := createUser (db w) (normalizePhoneNumber from)
                (language_of (normalizePhoneNumber to))
                (normalizePhoneNumber to) now;
        outbox := outbox w ++
          [{| sms_to := normalizePhoneNumber from;
              sms_body := OptInText (language_of (normalizePhoneNumber to));
              sms_language := language_of (normalizePhoneNumber to) |}];
        rateLimiter := rateLimiter w |}).
Proof.
  intros Hr Hk. rewrite (incoming_read svc req now w from to m media Hr).
  unfold webhook_route. cbv zeta.
  rewrite try_catch_run, bind_run, read_db_run. cbv beta iota.
  rewrite Hk. reflexivity.
Qed.

(** For a known identity the webhook first brings the stored Twilio number
    and language up to date and then runs [known_identity_gate]. *)
Lemma incoming_known req now w from to m media :
  readable req from to m media ->
  userExists (db w) (normalizePhoneNumber from) = true ->
  exists w1,
    outbox w1 = outbox w /\ rateLimiter w1 = rateLimiter w
    /\ sync_rel (normalizePhoneNumber from) (db w) (db w1)
    /\ forall svc,
         incoming svc req now w
         = try_catch
             (known_identity_gate svc (normalizePhoneNumber from) m
                (media_url_of req media) (media_type_of req media)
                (language_of (normalizePhoneNumber to)) now)
             (ret 500) w1.
Proof.
  intros Hr Hk.
  assert (Hrun : forall svc w1,
            (match getUser (db w) (normalizePhoneNumber from) with
             | Some u =>
                 (if bool_decide
                       (twilio_number u = Some (normalizePhoneNumber to))
                  then ret tt
                  else write_db (fun d =>
                         setTwilioNumber d (normalizePhoneNumber from)
                           (normalizePhoneNumber to) now)) ;;
                 (if bool_decide
                       (language u
                        = Some (language_of (normalizePhoneNumber to)))
                  then ret tt
                  else write_db (fun d =>
                         setLanguage d (normalizePhoneNumber from)
                           (language_of (normalizePhoneNumber to)) now))
             | None => ret tt
             end) w = (Some tt, w1) ->
            incoming svc req now w
            = try_catch
                (known_identity_gate svc (normalizePhoneNumber from) m
                   (media_url_of req media) (media_type_of req media)
                   (language_of (normalizePhoneNumber to)) now)
                (ret 500) w1).
  { intros svc w1 Hsync.
    rewrite (incoming_read svc req now w from to m media Hr).
    unfold webhook_route. cbv zeta.
    rewrite try_catch_run, bind_run, read_db_run. cbv beta iota.
    rewrite Hk. cbn [negb]. rewrite bind_run, read_db_run. cbv beta iota.
    rewrite bind_run, Hsync. reflexivity. }
  unfold userExists in Hk.
  destruct (getUser (db w) (normalizePhoneNumber from)) as [u|];
    [|discriminate].
  destruct (bool_decide (twilio_number u = _)),
           (bool_decide (language u = _)).
  - exists w. repeat split; [apply sync_rel_refl|].
    intros svc. by apply Hrun.
  - eexists (set_db w (setLanguage (db w) _ _ _)).
    repeat split;
      [apply sync_rel_step; [done | apply sync_rel_refl]|].
    intros svc. by apply Hrun.
  - eexists (set_db w (setTwilioNumber (db w) _ _ _)).
    repeat split;
      [apply sync_rel_step; [done | apply sync_rel_refl]|].
    intros svc. by apply Hrun.
  - eexists (set_db (set_db w (setTwilioNumber (db w) _ _ _))
               (setLanguage (setTwilioNumber (db w) _ _ _) _ _ _)).
    repeat split;
      [apply sync_rel_step; [done|];
       apply sync_rel_step; [done | apply sync_rel_refl]|].
    intros svc. by apply Hrun.
Qed.

(** The opt-in gate for an identity that is not active. *)
Lemma gate_not_active svc p m mediaUrl mediaType l now w :
  isUserActive (db w) p = false ->
  try_catch (known_identity_gate svc p m mediaUrl mediaType l now) (ret 500) w
  = (Some 200,
     if isYesConfirmation m then
       {| db := activated (db w) p now;
          outbox := outbox w ++
            [{| sms_to := p; sms_body := ActivationText l;
                sms_language := l |}];
          rateLimiter := rateLimiter w |}
     else
       {| db := db w;
          outbox := outbox w ++
            [{| sms_to := p; sms_body := OptInText l; sms_language := l |}];
          rateLimiter := rateLimiter w |}).
Proof.
  intros Ha. unfold known_identity_gate, activated.
  rewrite try_catch_run, bind_run, read_db_run. cbv beta iota.
  rewrite bind_run, read_db_run. cbv beta iota. rewrite Ha. cbn [negb].
  destruct (isYesConfirmation m); [|reflexivity].
  by destruct (isUserPending (db w) p).
Qed.

Lemma checkLimits_reason rl p now :
  allowed (checkLimits rl p now).1 = false ->
  exists win n, reason (checkLimits rl p now).1 = Some (win, n).
Proof.
  unfold checkLimits.
  repeat (destruct (isAllowed _ _ _ _) as [[] ?]; cbn [negb fst snd allowed
    reason]); try discriminate; intros _; by eexists _, _.
Qed.

Lemma gate_limited svc p m mediaUrl mediaType l now w win n :
  isUserActive (db w) p = true ->
  allowed (checkLimits (rateLimiter w) p now).1 = false ->
  reason (checkLimits (rateLimiter w) p now).1 = Some (win, n) ->
  try_catch (known_identity_gate svc p m mediaUrl mediaType l now) (ret 500) w
  = (Some 200,
     {| db := db w;
        outbox := outbox w ++
          [{| sms_to := p; sms_body := LimitText win n; sms_language := l |}];
        rateLimiter := (checkLimits (rateLimiter w) p now).2 |}).
Proof.
  intros Ha Hd Hr. unfold known_identity_gate.
  rewrite try_catch_run, bind_run, read_db_run. cbv beta iota.
  rewrite bind_run, read_db_run. cbv beta iota. rewrite Ha. cbn [negb].
  rewrite bind_run. unfold check_rate_limit at 1.
  destruct (checkLimits (rateLimiter w) p now) as [res rl].
  cbn [fst snd] in Hd, Hr. rewrite Hd, Hr. reflexivity.
Qed.

Lemma gate_served svc p m mediaUrl mediaType l now w :
  isUserActive (db w) p = true ->
  allowed (checkLimits (rateLimiter w) p now).1 = true ->
  let w1 := {| db := db w; outbox := outbox w;
               rateLimiter := (checkLimits (rateLimiter w) p now).2 |} in
  try_catch (known_identity_gate svc p m mediaUrl mediaType l now) (ret 500) w
  = (Some 200,
     (handleActiveUserMessage svc p m mediaUrl mediaType l now w1).2).
Proof.
  intros Ha Hd w1. unfold known_identity_gate.
  rewrite try_catch_run, bind_run, read_db_run. cbv beta iota.
  rewrite bind_run, read_db_run. cbv beta iota. rewrite Ha. cbn [negb].
  rewrite bind_run. unfold check_rate_limit at 1. subst w1.
  destruct (checkLimits (rateLimiter w) p now) as [res rl].
  cbn [fst snd] in Hd |- *. rewrite Hd. cbn [negb]. rewrite bind_run.
  destruct (handleActiveUserMessage_effect svc p m mediaUrl mediaType l now
              {| db := db w; outbox := outbox w; rateLimiter := rl |})
    as [H1 _].
  destruct (handleActiveUserMessage _ _ _ _ _ _ _ _) as [r w2].
  cbn [fst snd] in H1 |- *. by subst r.
Qed.

Lemma sync_rel_user p d d1 u :
  sync_rel p d d1 -> getUser d p = Some u ->
  exists u1, getUser d1 p = Some u1
    /\ status u1 = status u
    /\ credits_remaining u1 = credits_remaining u.
Proof.
  intros (f & -> & Hf) Hu. exists (f u).
  rewrite getUser_update_user, Hu. destruct (Hf u) as (? & ? & _). done.
Qed.

Lemma sync_rel_frame p d d1 :
  sync_rel p d d1 ->
  sessions d1 = sessions d /\ transactions d1 = transactions d
  /\ ledger_same d d1
  /\ isUserActive d1 p = isUserActive d p
  /\ isUserPending d1 p = isUserPending d p.
Proof.
  intros (f & -> & Hf). repeat split.
  - apply (ledger_same_update_user d p f). intros u. by destruct (Hf u) as (_ & ? & _).
  - unfold isUserActive. rewrite getUser_update_user.
    destruct (getUser d p) as [u|]; cbn; [|done].
    by destruct (Hf u) as (-> & _).
  - unfold isUserPending. rewrite getUser_update_user.
    destruct (getUser d p) as [u|]; cbn; [|done].
    by destruct (Hf u) as (-> & _).
Qed.

Lemma getUser_logTransaction d p ty n descr pay now q :
  getUser (logTransaction d p ty n descr pay now) q = getUser d q.
Proof. reflexivity. Qed.

Lemma balance_logTransaction d p ty n descr pay now q :
  balance (logTransaction d p ty n descr pay now) q = balance d q.
Proof. reflexivity. Qed.

Lemma activated_spec d p now u :
  getUser d p = Some u ->
  (exists u', getUser (activated d p now) p = Some u'
     /\ status u' = active
     /\ credits_remaining u'
        = credits_remaining u
          + match status u with pending => FREE_TRIAL_CREDITS | _ => 0 end
     /\ consent_timestamp u' = Some now)
  /\ sessions (activated d p now) = sessions d
  /\ transactions (activated d p now)
     = transactions d
       ++ match status u with pending => [trial_entry p now] | _ => [] end
  /\ forall q, q <> p -> balance (activated d p now) q = balance d q.
Proof.
  intros Hu. unfold activated, isUserPending. rewrite Hu.
  unfold logConsent, activateUser, addCredits.
  repeat split.
  - destruct (status u) eqn:Hs; eexists;
      (split;
       [rewrite ?getUser_logTransaction, !getUser_update_user, Hu;
        reflexivity|]);
      cbn; repeat split; lia.
  - by destruct (status u).
  - destruct (status u); cbn [transactions logTransaction set_transactions
      update_user set_users]; [reflexivity | |]; by rewrite app_nil_r.
  - intros q Hq. destruct (status u);
      by rewrite ?balance_logTransaction, !balance_update_user_ne.
Qed.

(** The webhook on a message of a known identity that is not active. *)
Lemma incoming_not_active req now w from to m media :
  readable req from to m media ->
  userExists (db w) (normalizePhoneNumber from) = true ->
  isUserActive (db w) (normalizePhoneNumber from) = false ->
  exists w1,
    outbox w1 = outbox w /\ rateLimiter w1 = rateLimiter w
    /\ sync_rel (normalizePhoneNumber from) (db w) (db w1)
    /\ forall svc,
         incoming svc req now w
         = (Some 200,
            let p := normalizePhoneNumber from in
            let l := language_of (normalizePhoneNumber to) in
            if isYesConfirmation m then
              {| db := activated (db w1) p now;
                 outbox := outbox w ++
                   [{| sms_to := p; sms_body := ActivationText l;
                       sms_language := l |}];
                 rateLimiter := rateLimiter w |}
            else
              {| db := db w1;
                 outbox := outbox w ++
                   [{| sms_to := p; sms_body := OptInText l;
                       sms_language := l |}];
                 rateLimiter := rateLimiter w |}).
Proof.
  intros Hr Hk Ha.
  destruct (incoming_known req now w from to m media Hr Hk)
    as (w1 & Ho & Hrl & Hsync & Hrun).
  exists w1. repeat split; [exact Ho | exact Hrl | exact Hsync|].
  intros svc. rewrite Hrun, gate_not_active, Ho, Hrl; [reflexivity|].
  destruct (sync_rel_frame _ _ _ Hsync) as (_ & _ & _ & -> & _). exact Ha.
Qed.

(** The webhook on a message of an active identity. *)
Lemma incoming_active req now w from to m media :
  readable req from to m media ->
  isUserActive (db w) (normalizePhoneNumber from) = true ->
  exists d1,
    sync_rel (normalizePhoneNumber from) (db w) d1
    /\ forall svc,
         let p := normalizePhoneNumber from in
         let l := language_of (normalizePhoneNumber to) in
         let res := checkLimits (rateLimiter w) p now in
         incoming svc req now w
         = (Some 200,
            if allowed res.1 then
              (handleActiveUserMessage svc p m
                 (media_url_of req media) (media_type_of req media) l now
                 {| db := d1; outbox := outbox w; rateLimiter := res.2 |}).2
            else
              {| db := d1;
                 outbox := outbox w ++
                   [{| sms_to := p;
                       sms_body :=
                         match reason res.1 with
                         | Some (win, n) => LimitText win n
                         | None => Text []
                         end;
                       sms_language := l |}];
                 rateLimiter := res.2 |}).
Proof.
  intros Hr Ha.
  assert (Hk : userExists (db w) (normalizePhoneNumber from) = true).
  { unfold isUserActive in Ha. unfold userExists.
    by destruct (getUser _ _). }
  destruct (incoming_known req now w from to m media Hr Hk)
    as (w1 & Ho & Hrl & Hsync & Hrun).
  exists (db w1). split; [exact Hsync|].
  intros svc. cbv zeta. rewrite Hrun.
  assert (Ha1 : isUserActive (db w1) (normalizePhoneNumber from) = true).
  { destruct (sync_rel_frame _ _ _ Hsync) as (_ & _ & _ & -> & _).
    exact Ha. }
  rewrite <- Hrl, <- Ho.
  destruct (allowed (checkLimits (rateLimiter w1) (normalizePhoneNumber from)
                       now).1) eqn:Hal.
  - by rewrite gate_served.
  - destruct (checkLimits_reason _ _ _ Hal) as (win & n & Hwin).
    rewrite (gate_limited _ _ _ _ _ _ _ _ win n Ha1 Hal Hwin).
    by rewrite Hwin.
Qed.

(** A request that the webhook reads is answered by 200. *)
Lemma incoming_ok svc req now w from to m media :
  readable req from to m media -> (incoming svc req now w).1 = Some 200.
Proof.
  intros Hr.
  destruct (userExists (db w) (normalizePhoneNumber from)) eqn:Hk;
    [|by rewrite (incoming_first_contact svc req now w from to m media)].
  destruct (isUserActive (db w) (normalizePhoneNumber from)) eqn:Ha.
  - destruct (incoming_active req now w from to m media Hr Ha)
      as (d1 & _ & Hrun).
    by rewrite Hrun.
  - destruct (incoming_not_active req now w from to m media Hr Hk Ha)
      as (w1 & _ & _ & _ & Hrun).
    by rewrite Hrun.
Qed.

(** X25: the status the webhook answers. It is 400, with nothing changed,
    when the sender or the receiving number is missing or falsy (empty
    text, 0, false). Otherwise it is 500, again with nothing changed, when
    reading the request throws: the sender, the receiving number or a
    truthy message body is not a string (the body parsers also deliver
    numbers, arrays and objects), or [NumMedia] has no conversion to a
    string. In every other case it is 200, whatever the message and
    whatever the collaborators (AI, weather, map search) answer or reject:
    their failures never surface as an HTTP error. Database statements and
    SMS sends are taken to succeed. *)
Theorem webhook_status (svc : Services) (req : Request) (now : Z)
    (w : World) :
  let r := incoming svc req now w in
  if negb (field_truthy (From req)) || negb (field_truthy (To req))
  then r = (Some 400, w)
  else
    match as_string (From req), as_string (To req), message_of req,
          has_media req with
    | Some _, Some _, Some _, Some _ => r.1 = Some 200
    | _, _, _, _ => r = (Some 500, w)
    end.
Proof.
  cbv zeta.
  destruct (field_truthy (From req)) eqn:HF;
    [|by apply incoming_missing; left].
  destruct (field_truthy (To req)) eqn:HT;
    [|by apply incoming_missing; right].
  cbn [negb orb].
  destruct (as_string (From req)) as [from|] eqn:Hfrom;
    [|apply incoming_unreadable; split; [done|split; [done|by left]]].
  destruct (as_string (To req)) as [to|] eqn:Hto;
    [|apply incoming_unreadable; split; [done|split; [done|by right; left]]].
  destruct (message_of req) as [m|] eqn:Hm;
    [|apply incoming_unreadable;
      split; [done|split; [done|by right; right; left]]].
  destruct (has_media req) as [media|] eqn:Hmedia;
    [|apply incoming_unreadable;
      split; [done|split; [done|by right; right; right]]].
  apply (incoming_ok svc req now w from to m media).
  by apply readable_intro.
Qed.

Lemma credits_or_zero_balance d q :
  credits_or_zero d q = default 0 (balance d q).
Proof. unfold credits_or_zero, balance. by destruct (getUser d q). Qed.

Lemma log_total_app rows1 rows2 q :
  log_total (rows1 ++ rows2) q = log_total rows1 q + log_total rows2 q.
Proof.
  unfold log_total. induction rows1 as [|tx rows1 IH]; cbn [foldr app];
    [lia|].
  destruct (str_eq _ _); lia.
Qed.

Lemma accounted_refl d : accounted d d.
Proof. exists []. split; [by rewrite app_nil_r | intros q; cbn; lia]. Qed.

Lemma accounted_trans d1 d2 d3 :
  accounted d1 d2 -> accounted d2 d3 -> accounted d1 d3.
Proof.
  intros (r1 & Ht1 & Hb1) (r2 & Ht2 & Hb2). exists (r1 ++ r2).
  split; [by rewrite Ht2, Ht1, app_assoc|].
  intros q. rewrite log_total_app, Hb2, Hb1. lia.
Qed.

Lemma accounted_ledger_same d d' : ledger_same d d' -> accounted d d'.
Proof.
  intros [Ht Hb]. exists []. split; [by rewrite app_nil_r|].
  intros q. rewrite !credits_or_zero_balance, Hb. cbn. lia.
Qed.

Lemma log_total_single tx q :
  log_total [tx] q
  = if str_eq (tx_phone_number tx) q then credits_delta tx else 0.
Proof. cbn. destruct (str_eq _ _); lia. Qed.

Lemma str_eq_refl a : str_eq a a = true.
Proof. unfold str_eq. by apply bool_decide_eq_true. Qed.

Lemma str_eq_ne a b : a <> b -> str_eq a b = false.
Proof. unfold str_eq. by apply bool_decide_eq_false. Qed.

Lemma accounted_charged p now d d' : charged_once p now d d' -> accounted d d'.
Proof.
  intros (b & descr & Hb & _ & Hb' & Hother & Ht).
  eexists. split; [exact Ht|]. intros q.
  rewrite log_total_single. cbn [tx_phone_number credits_delta].
  rewrite !credits_or_zero_balance.
  destruct (decide (p = q)) as [<-|Hq].
  - rewrite str_eq_refl, Hb, Hb'. cbn. lia.
  - rewrite str_eq_ne by exact Hq. rewrite Hother by congruence. lia.
Qed.

Lemma accounted_createUser d p l t now :
  userExists d p = false -> accounted d (createUser d p l t now).
Proof.
  intros Hk. exists []. split; [by rewrite app_nil_r|].
  intros q. cbn [log_total foldr]. rewrite Z.add_0_r.
  unfold credits_or_zero, createUser, getUser, set_users. cbn [users].
  unfold userExists, getUser in Hk.
  destruct (decide (q = p)) as [->|Hq].
  - rewrite lookup_insert_eq. by destruct (users d !! p).
  - by rewrite lookup_insert_ne.
Qed.

Lemma accounted_activated d p now :
  userExists d p = true -> accounted d (activated d p now).
Proof.
  unfold userExists. destruct (getUser d p) as [u|] eqn:Hu; [|discriminate].
  intros _.
  destruct (activated_spec d p now u Hu)
    as ((u' & Hu' & _ & Hc & _) & _ & Ht & Hother).
  eexists. split; [exact Ht|]. intros q.
  destruct (decide (q = p)) as [->|Hq].
  - unfold credits_or_zero. rewrite Hu, Hu', Hc.
    destruct (status u); [|cbn [log_total foldr]; lia..].
    rewrite log_total_single.
    cbn [trial_entry tx_phone_number credits_delta].
    by rewrite str_eq_refl.
  - rewrite !credits_or_zero_balance, (Hother q Hq).
    destruct (status u); [|cbn [log_total foldr]; lia..].
    rewrite log_total_single. cbn [trial_entry tx_phone_number].
    rewrite str_eq_ne by congruence. lia.
Qed.

Lemma request_effect_accounted p now w w' :
  request_effect p now w w' -> accounted (db w) (db w').
Proof.
  intros [-> | (_ & body & _ & [[H _] | [H _]])].
  - apply accounted_refl.
  - by apply accounted_ledger_same.
  - by apply (accounted_charged p now).
Qed.

Lemma sync_rel_exists p d d1 :
  sync_rel p d d1 -> userExists d1 p = userExists d p.
Proof.
  intros (f & -> & _). unfold userExists. rewrite getUser_update_user.
  by destruct (getUser d p).
Qed.

(** X26: whatever the request and whatever the collaborators answer, the
    webhook only appends to the transaction log, and the rows it appends
    account for every change of a balance: for every identity, the balance
    after the request is the balance before plus the credits of the
    appended rows of that identity (an identity without account counts as
    balance 0). Trial credits and usage debits are the only changes, and
    each has its row. *)
Theorem transaction_log_accounts_for_balances (svc : Services)
    (req : Request) (now : Z) (w : World) :
  accounted (db w) (db (incoming svc req now w).2).
Proof.
  destruct (request_cases req)
    as [Hmiss | [Hthrow | (from & to & m & media & Hr)]];
    [rewrite incoming_missing by exact Hmiss; apply accounted_refl
    |rewrite incoming_unreadable by exact Hthrow; apply accounted_refl|].
  destruct (userExists (db w) (normalizePhoneNumber from)) eqn:Hk;
    [|rewrite (incoming_first_contact svc req now w from to m media) by done;
      by apply accounted_createUser].
  destruct (isUserActive (db w) (normalizePhoneNumber from)) eqn:Ha.
  - destruct (incoming_active req now w from to m media Hr Ha)
      as (d1 & Hsync & Hrun).
    rewrite Hrun. cbn [snd].
    destruct (sync_rel_frame _ _ _ Hsync) as (_ & _ & Hl & _).
    apply (accounted_trans _ d1); [by apply accounted_ledger_same|].
    destruct (allowed _); [|apply accounted_refl].
    match goal with
    | |- context [handleActiveUserMessage ?s ?p ?m0 ?mu ?mt ?l ?t ?w0] =>
        destruct (handleActiveUserMessage_effect s p m0 mu mt l t w0)
          as [_ He]
    end.
    apply request_effect_accounted in He. exact He.
  - destruct (incoming_not_active req now w from to m media Hr Hk Ha)
      as (w1 & _ & _ & Hsync & Hrun).
    rewrite Hrun. cbn [snd].
    destruct (sync_rel_frame _ _ _ Hsync) as (_ & _ & Hl & _).
    apply (accounted_trans _ (db w1)); [by apply accounted_ledger_same|].
    destruct (isYesConfirmation _); cbn [db]; [|apply accounted_refl].
    apply accounted_activated. by rewrite (sync_rel_exists _ _ _ Hsync).
Qed.

(** X27: a message of a known identity that is not active (pending, or
    inactive after STOP) never reaches a collaborator or the rate limiter
    and never touches a session. It is answered by one message: the
    activation text after a YES confirmation, the opt-in text otherwise.
    The account becomes active exactly on a YES; the balance grows by the
    3 trial credits, with one purchase entry in the log, exactly when the
    account was pending and the message a YES: coming back after STOP
    brings no credits. *)
Theorem inactive_identity_gate (svc : Services) (req : Request) (now : Z)
    (w : World) (from to m : jsstring) (media : bool) (u : User) :
  readable req from to m media ->
  getUser (db w) (normalizePhoneNumber from) = Some u ->
  status u <> active ->
  let p := normalizePhoneNumber from in
  let l := language_of (normalizePhoneNumber to) in
  let r := incoming svc req now w in
  (forall svc', incoming svc' req now w = r)
  /\ rateLimiter r.2 = rateLimiter w
  /\ sessions (db r.2) = sessions (db w)
  /\ replied p w r.2
       (if isYesConfirmation m then ActivationText l else OptInText l)
  /\ isUserActive (db r.2) p = isYesConfirmation m
  /\ balance (db r.2) p = Some (credits_remaining u + trial_bonus u m)
  /\ transactions (db r.2) = transactions (db w) ++ trial_rows u m p now.
Proof.
  intros Hr Hu Hst. cbv zeta.
  set (p := normalizePhoneNumber from) in *.
  assert (Hk : userExists (db w) p = true)
    by (unfold userExists; by rewrite Hu).
  assert (Ha : isUserActive (db w) p = false).
  { unfold isUserActive. rewrite Hu. by destruct (status u). }
  destruct (incoming_not_active req now w from to m media Hr Hk Ha)
    as (w1 & _ & _ & Hsync & Hrun).
  destruct (sync_rel_frame _ _ _ Hsync) as (Hs & Ht & _ & Ha1 & _).
  destruct (sync_rel_user _ _ _ _ Hsync Hu) as (u1 & Hu1 & Hst1 & Hc1).
  fold p in Hrun, Hsync, Ha1, Hu1.
  split; [intros svc'; by rewrite !Hrun|].
  rewrite Hrun. cbv zeta. unfold trial_bonus, trial_rows.
  destruct (isYesConfirmation m);
    cbn [snd db outbox rateLimiter].
  - destruct (activated_spec (db w1) p now u1 Hu1)
      as ((u' & Hu' & Hst' & Hc' & _) & Hs' & Ht' & _).
    repeat split.
    + by rewrite Hs'.
    + by eexists.
    + unfold isUserActive. by rewrite Hu', Hst'.
    + unfold balance. rewrite Hu'. cbn. by rewrite Hc', Hc1, Hst1.
    + by rewrite Ht', Ht, Hst1.
  - repeat split.
    + exact Hs.
    + by eexists.
    + by rewrite Ha1.
    + unfold balance. rewrite Hu1. cbn. f_equal. lia.
    + by rewrite Ht, app_nil_r.
Qed.

Lemma inactive_identity_gate_witness :
  isUserActive
    (db (incoming demo_services
           (text_request alice swedish_number (js "yes")) 0
           world_after_stop).2) alice = true
  /\ balance
       (db (incoming demo_services
              (text_request alice swedish_number (js "yes")) 0
              world_after_stop).2) alice = Some 2
  /\ transactions
       (db (incoming demo_services
              (text_request alice swedish_number (js "yes")) 0
              world_after_stop).2) = [].
Proof.
  destruct (inactive_identity_gate demo_services
              (text_request alice swedish_number (js "yes")) 0
              world_after_stop alice swedish_number (js "yes") false
              (sample_user inactive 2))
    as (_ & _ & _ & _ & Ha & Hb & Ht);
    [by repeat split | reflexivity | discriminate |].
  split; [exact Ha | split; [exact Hb | exact Ht]].
Defined.



Lemma text_request_readable from to b :
  from <> [] -> to <> [] ->
  readable (text_request from to b) from to (sanitizeInput b) false.
Proof.
  intros Hfrom Hto. repeat split; try done.
  unfold message_of, text_request. cbn [Body]. by destruct b.
Qed.

(** X29: the opt-in handshake. The first message of an unknown identity,
    whatever its text (a YES included), only creates a pending account
    with balance 0 and is answered by the opt-in text; a following YES
    makes the account active with a balance of exactly 3 trial credits,
    logged as one purchase entry, and is answered by the activation text.
    Neither message is counted by the rate limiter. *)
Theorem opt_in_handshake (svc : Services) (w : World)
    (from to first yes : jsstring) (t1 t2 : Z) :
  from <> [] -> to <> [] ->
  getUser (db w) (normalizePhoneNumber from) = None ->
  isYesConfirmation (sanitizeInput yes) = true ->
  let p := normalizePhoneNumber from in
  let l := language_of (normalizePhoneNumber to) in
  let w1 := (incoming svc (text_request from to first) t1 w).2 in
  let w2 := (incoming svc (text_request from to yes) t2 w1).2 in
  isUserActive (db w1) p = false
  /\ balance (db w1) p = Some 0
  /\ isUserActive (db w2) p = true
  /\ balance (db w2) p = Some 3
  /\ transactions (db w2) = transactions (db w) ++ [trial_entry p t2]
  /\ sms_body <$> outbox w2
     = (sms_body <$> outbox w) ++ [OptInText l; ActivationText l]
  /\ rateLimiter w2 = rateLimiter w.
Proof.
  intros Hfrom Hto Hnew Hyes. cbv zeta.
  set (p := normalizePhoneNumber from) in *.
  set (l := language_of (normalizePhoneNumber to)).
  assert (Hread : forall b, readable (text_request from to b) from to
                               (sanitizeInput b) false)
    by (intros b; by apply text_request_readable).
  assert (Hk : userExists (db w) p = false)
    by (unfold userExists; by rewrite Hnew).
  rewrite (incoming_first_contact svc _ t1 w from to _ _ (Hread first) Hk).
  fold p l. cbn [snd].
  set (w1 := {| db := createUser (db w) p l (normalizePhoneNumber to) t1;
                outbox := _; rateLimiter := rateLimiter w |}).
  assert (Hu1 : exists u1, getUser (db w1) p = Some u1
                  /\ status u1 = pending /\ credits_remaining u1 = 0).
  { eexists. split.
    - subst w1. cbn [db]. unfold createUser, getUser, set_users.
      cbn [users]. by rewrite lookup_insert_eq.
    - split; reflexivity. }
  destruct Hu1 as (u1 & Hu1 & Hst1 & Hc1).
  assert (Hk1 : userExists (db w1) p = true)
    by (unfold userExists; by rewrite Hu1).
  assert (Ha1 : isUserActive (db w1) p = false)
    by (unfold isUserActive; by rewrite Hu1, Hst1).
  destruct (incoming_not_active (text_request from to yes) t2 w1 from to
              _ _ (Hread yes) Hk1 Ha1) as (w1' & _ & _ & Hsync & Hrun).
  fold p l in Hrun, Hsync. rewrite Hrun. cbv zeta.
  rewrite Hyes. cbn [snd db outbox rateLimiter].
  destruct (sync_rel_user _ _ _ _ Hsync Hu1) as (u2 & Hu2 & Hst2 & Hc2).
  destruct (sync_rel_frame _ _ _ Hsync) as (_ & Ht2 & _).
  destruct (activated_spec (db w1') p t2 u2 Hu2)
    as ((u' & Hu' & Hst' & Hc' & _) & _ & Ht' & _).
  repeat split.
  - exact Ha1.
  - unfold balance. by rewrite Hu1, <- Hc1.
  - unfold isUserActive. by rewrite Hu', Hst'.
  - unfold balance. rewrite Hu'. cbn. f_equal.
    rewrite Hc', Hst2, Hst1, Hc2, Hc1. reflexivity.
  - by rewrite Ht', Ht2, Hst2, Hst1.
  - subst w1. cbn [outbox]. rewrite !fmap_app, <- app_assoc. reflexivity.
Qed.

Lemma opt_in_handshake_witness :
  balance
    (db (incoming demo_services (text_request alice swedish_number (js "Yes"))
           60000
           (incoming demo_services
              (text_request alice swedish_number (js "hello")) 0
              empty_world).2).2) alice = Some 3
  /\ sms_body
       <$> outbox
             (incoming demo_services
                (text_request alice swedish_number (js "Yes")) 60000
                (incoming demo_services
                   (text_request alice swedish_number (js "hello")) 0
                   empty_world).2).2
     = [OptInText sv; ActivationText sv].
Proof.
  destruct (opt_in_handshake demo_services empty_world alice swedish_number
              (js "hello") (js "Yes") 0 60000)
    as (_ & _ & _ & Hb & _ & Ho & _);
    [discriminate | discriminate | reflexivity | reflexivity |].
  split; [exact Hb | exact Ho].
Defined.

(** ** Custom agents *)

(** X30: after [activateCustomAgent] for an existing account and an
    existing agent with an id other than 0, the active agent of the account
    is that agent (with its name and prompt as stored, whoever owns it),
    and every other agent of the phone number is switched off; a following
    [deactivateCustomAgent] of the account, or [deleteCustomAgent] of the
    agent, leaves the account without active agent, that is in category
    mode. *)
Theorem activated_agent_is_the_active_one (d : Db) (p : jsstring) (aid : Z)
    (u : User) (a : CustomAgent) (now now' : Z) :
  getUser d p = Some u -> custom_agents d !! aid = Some a -> aid <> 0 ->
  let d' := activateCustomAgent d p aid now in
  getActiveCustomAgent d' p = Some (set_agent_active true a)
  /\ (forall k b, k <> aid -> custom_agents d' !! k = Some b ->
        agent_phone_number b = p -> agent_active b = false)
  /\ getActiveCustomAgent (deactivateCustomAgent d' p now') p = None
  /\ getActiveCustomAgent (deleteCustomAgent d' aid) p = None.
Proof.
  intros Hu Ha Hid d'.
  assert (Hu' : getUser d' p
                = Some (touch now (set_active_agent_id u (Some aid)))).
  { subst d'. unfold activateCustomAgent. cbv zeta.
    rewrite getUser_update_user. unfold getUser, set_custom_agents.
    cbn [users]. fold (getUser d p). by rewrite Hu. }
  assert (Hagents : custom_agents d'
                    = alter (set_agent_active true) aid
                        (deactivate_agents_of p (custom_agents d)))
    by reflexivity.
  repeat split.
  - unfold getActiveCustomAgent. rewrite Hu'. cbn [set_active_agent_id
      active_agent_id touch].
    destruct (Z.eqb_spec aid 0) as [|_]; [done|].
    rewrite Hagents, lookup_alter_eq. unfold deactivate_agents_of.
    rewrite lookup_fmap, Ha. cbn. by destruct (str_eq _ _).
  - intros k b Hk Hb Hp. rewrite Hagents in Hb.
    rewrite lookup_alter_ne in Hb by congruence.
    unfold deactivate_agents_of in Hb. rewrite lookup_fmap in Hb.
    destruct (custom_agents d !! k) as [b0|]; [|discriminate].
    cbn in Hb. injection Hb as <-.
    destruct (str_eq (agent_phone_number b0) p) eqn:E; [reflexivity|].
    cbn in Hp. unfold str_eq in E. apply bool_decide_eq_false in E. done.
  - unfold getActiveCustomAgent, deactivateCustomAgent. cbv zeta.
    rewrite getUser_update_user. unfold getUser, set_custom_agents.
    cbn [users]. fold (getUser d' p). by rewrite Hu'.
  - unfold getActiveCustomAgent, deleteCustomAgent.
    unfold getUser, set_custom_agents. cbn [users custom_agents].
    fold (getUser d' p). rewrite Hu'. cbn [set_active_agent_id
      active_agent_id touch].
    destruct (aid =? 0); [done|]. by rewrite lookup_delete_eq.
Qed.

Lemma activated_agent_is_the_active_one_witness :
  (agent_name <$> getActiveCustomAgent db_with_agents alice)
  = Some (js "Hunting")
  /\ getActiveCustomAgent (activateCustomAgent db_with_agents alice 1 10) alice
     = Some (set_agent_active true fishing_agent)
  /\ (agent_active <$> custom_agents
                         (activateCustomAgent db_with_agents alice 1 10) !! 2)
     = Some false.
Proof.
  destruct (activated_agent_is_the_active_one db_with_agents alice 1
              (set_active_agent_id (sample_user active 3) (Some 2))
              fishing_agent 10 20)
    as (H1 & H2 & _); [reflexivity | reflexivity | discriminate |].
  split; [reflexivity | split; [exact H1|]].
  assert (Hb : custom_agents (activateCustomAgent db_with_agents alice 1 10) !! 2
               = Some (set_agent_active false hunting_agent))
    by reflexivity.
  rewrite Hb. cbn [fmap option_fmap option_map].
  refine (f_equal Some _).
  apply (H2 2 _ ltac:(discriminate) Hb). reflexivity.
Defined.
